(** * anari-multi-threading-test: a model of [main.cpp] and its properties

    The program drives an ANARI device from nine threads: four initialise the
    scene objects, three poll the device in busy loops, one renders ten
    frames, and [main] spawns and joins them and releases the handles.

    The development follows the source file top to bottom:
    - binary32 arithmetic and the [std::mt19937] engine used by
      [initializeWorld];
    - the calls the program makes, as a type of events, and the answers
      of the library, as a record of functions;
    - one definition per source function ([statusFunc],
      [deviceHasExtension], [initializeWorld], ..., [render]) and one per
      thread body of [main];
    - an interleaving semantics for the threads, in which the status
      callback may be invoked at any time;
    - the properties, and their instances on concrete runs. *)

From Stdlib Require Import ZArith List String Ascii DecimalString Lia.
From Stdlib Require Import Floats.SpecFloat.
From stdpp Require Import base list.
Import ListNotations.

Local Open Scope Z_scope.

(** ** binary32 floats

    C++ [float] values are IEEE-754 binary32 numbers: 24 bits of precision,
    largest exponent 128. *)
Module F32.

Definition prec : Z := 24.
Definition emax : Z := 128.

Definition float : Type := spec_float.

Definition add : float -> float -> float := SFadd prec emax.
Definition mul : float -> float -> float := SFmul prec emax.
Definition div : float -> float -> float := SFdiv prec emax.
Definition sqrt : float -> float := SFsqrt prec emax.
Definition ltb : float -> float -> bool := SFltb.

(** conversion of an integer, rounded to nearest even *)
Definition of_Z (z : Z) : float := binary_normalize prec emax z 0 false.

(** the literal [n / d] for decimal literals such as [.015f] = 15 / 1000
    (both integers are exact, the division rounds once) *)
Definition lit (n d : Z) : float := div (of_Z n) (of_Z d).

Definition zero : float := of_Z 0.
Definition one : float := of_Z 1.

(** [x > 0], as the C++ comparison would decide it *)
Definition positive (x : float) : bool := ltb zero x.

End F32.

Abbreviation float := F32.float.

(** [anari::math::float3], [float4] and [uint2] *)
Record float3 : Type := mkfloat3 { f3x : float; f3y : float; f3z : float }.
Record float4 : Type :=
  mkfloat4 { f4x : float; f4y : float; f4z : float; f4w : float }.
Record uint2 : Type := mkuint2 { u2x : Z; u2y : Z }.

(** [positions[i] += pos] *)
Definition float3_add (a b : float3) : float3 :=
  mkfloat3 (F32.add (f3x a) (f3x b)) (F32.add (f3y a) (f3y b))
           (F32.add (f3z a) (f3z b)).

(** ** [std::mt19937]

    The engine [mersenne_twister_engine<uint_fast32_t, 32, 624, 397, 31,
    0x9908b0df, 11, 0xffffffff, 7, 0x9d2c5680, 15, 0xefc60000, 18,
    1812433253>] of the C++ standard: a state of 624 words of 32 bits and
    the position of the next word to hand out. *)
Module Mt19937.

Definition word_mask : Z := 0xffffffff.
Definition n : nat := 624.
Definition m : nat := 397.
Definition upper_mask : Z := 0x80000000.
Definition lower_mask : Z := 0x7fffffff.
Definition matrix_a : Z := 0x9908b0df.
Definition init_multiplier : Z := 1812433253.
Definition default_seed : Z := 5489.

Record engine : Type := mk { x : list Z; p : nat }.

(** the words after the first one: x[i] = f * (x[i-1] ^ (x[i-1] >> 30)) + i *)
Fixpoint seed_words (count : nat) (i : Z) (prev : Z) : list Z :=
  match count with
  | O => []
  | S count' =>
      let w :=
        Z.land (init_multiplier * Z.lxor prev (Z.shiftr prev 30) + i)
               word_mask in
      w :: seed_words count' (i + 1) w
  end.

(** [rng.seed(value)]: every word of the state and the position are
    overwritten; nothing of the previous state [_g] survives. *)
Definition seed (_g : engine) (value : Z) : engine :=
  let x0 := Z.land value word_mask in
  mk (x0 :: seed_words (n - 1) 1 x0) n.

(** [std::mt19937 rng;] *)
Definition default : engine := seed (mk [] 0) default_seed.

Definition word (xs : list Z) (k : nat) : Z := nth k xs 0.

(** one step of the in-place regeneration of the state *)
Definition twist_at (xs : list Z) (k : nat) : list Z :=
  let y := Z.lor (Z.land (word xs k) upper_mask)
                 (Z.land (word xs ((k + 1) mod n)) lower_mask) in
  let mag := if Z.testbit y 0 then matrix_a else 0 in
  <[k := Z.lxor (Z.lxor (word xs ((k + m) mod n)) (Z.shiftr y 1)) mag]> xs.

Definition twist (xs : list Z) : list Z := fold_left twist_at (seq 0 n) xs.

Definition temper (z : Z) : Z :=
  let z := Z.lxor z (Z.land (Z.shiftr z 11) 0xffffffff) in
  let z := Z.lxor z (Z.land (Z.shiftl z 7) 0x9d2c5680) in
  let z := Z.lxor z (Z.land (Z.shiftl z 15) 0xefc60000) in
  Z.lxor z (Z.shiftr z 18).

(** [rng()] *)
Definition next (g : engine) : Z * engine :=
  let g1 := if (n <=? p g)%nat then mk (twist (x g)) 0 else g in
  (temper (word (x g1) (p g1)), mk (x g1) (S (p g1))).

(** [rng.discard(k)] *)
Fixpoint discard (k : nat) (g : engine) : engine :=
  match k with
  | O => g
  | S k' => discard k' (snd (next g))
  end.

End Mt19937.

(** ** The ANARI API as the program uses it *)

(** Severity of a status message ([ANARIStatusSeverity]): the six values
    [statusFunc] tells apart by name. *)
Inductive ANARIStatusSeverity : Set :=
| ANARI_SEVERITY_FATAL_ERROR
| ANARI_SEVERITY_ERROR
| ANARI_SEVERITY_WARNING
| ANARI_SEVERITY_PERFORMANCE_WARNING
| ANARI_SEVERITY_INFO
| ANARI_SEVERITY_DEBUG.

#[global] Instance ANARIStatusSeverity_eq_dec : EqDecision ANARIStatusSeverity.
Proof. solve_decision. Defined.

(** The [ANARIDataType] values the program names. *)
Inductive ANARIDataType : Set :=
| ANARI_UINT32
| ANARI_FLOAT32
| ANARI_FLOAT32_VEC3
| ANARI_SURFACE
| ANARI_UFIXED8_RGBA_SRGB.

Inductive ANARIWaitMask : Set := ANARI_NO_WAIT | ANARI_WAIT.

(** The template argument of [anari::newObject<T>]. *)
Inductive object_type : Set :=
| anari_World | anari_Renderer | anari_Camera | anari_Frame
| anari_Geometry | anari_Sampler | anari_Material | anari_Surface
| anari_Light.

(** The handles of the run. A handle is named after the variable that holds
    it: every creation call yields an object of its own. All calls go to the
    one device, which the events below leave out. *)
Inductive handle : Set :=
| hDevice | hWorld | hRenderer | hCamera | hFrame
| hIndicesArray | hPositionsArray | hDistanceArray | hGeometry
| hTexelArray | hTexture | hMaterial | hSurface | hSurfaceArray | hLight.

#[global] Instance handle_eq_dec : EqDecision handle.
Proof. solve_decision. Defined.

(** The [std::thread] objects of [main], and [main] itself. *)
Inductive tid : Set :=
| t_main
| t_initWorld | t_initRenderer | t_initCamera | t_initFrame
| t_queryExtension | t_queryBoundsNoWait | t_queryBoundsWait
| t_render.

#[global] Instance tid_eq_dec : EqDecision tid.
Proof. solve_decision. Defined.

Definition all_threads : list tid :=
  [t_main; t_initWorld; t_initRenderer; t_initCamera; t_initFrame;
   t_queryExtension; t_queryBoundsNoWait; t_queryBoundsWait; t_render].

(** The three [std::atomic<bool>] stop flags of [main]. *)
Inductive flag : Set :=
| finish_queryExtension | finish_queryBoundsNoWait | finish_queryBoundsWait.

#[global] Instance flag_eq_dec : EqDecision flag.
Proof. solve_decision. Defined.

Inductive stream : Set := stdout | stderr.

(** An argument of a [printf]-style call. *)
Inductive arg : Type :=
| APtr (p : N)
| AStr (s : string)
| AFloat (x : float).

(** A parameter value passed to [anari::setParameter]. *)
Inductive value : Type :=
| VFloat (x : float)
| VFloat3 (v : float3)
| VFloat4 (v : float4)
| VInt (z : Z)
| VUint2 (v : uint2)
| VString (s : string)
| VDataType (t : ANARIDataType)
| VObject (h : handle).

(** What a mapped array holds when it is unmapped. *)
Inductive array_data : Type :=
| DFloat3 (l : list float3)
| DFloat (l : list float)
| DUint32 (l : list Z)
| DObject (l : list handle).

(** The calls the program makes. Each thread is a sequence of them. *)
Inductive event : Type :=
| LoadLibrary (name : string)
| NewDevice (h : handle) (subtype : string)
| NewObject (h : handle) (type : object_type) (subtype : option string)
| NewArray1D (h : handle) (type : ANARIDataType) (numItems : Z)
| Map (h : handle)
| Unmap (h : handle) (contents : array_data)
| SetParameter (obj : handle) (name : string) (v : value)
| SetAndReleaseParameter (obj : handle) (name : string) (h : handle)
| SetParameterArray1D (obj : handle) (name : string) (elems : list handle)
| CommitParameters (obj : handle)
| Release (h : handle)
| Render (f : handle)
| Wait (f : handle)
| GetProperty (obj : handle) (name : string) (mask : ANARIWaitMask)
| MapFrame (f : handle) (channel : string)
| UnmapFrame (f : handle) (channel : string)
| GetDeviceExtensions (subtype : string)
| UnloadLibrary
| Stbi_flip_vertically_on_write (flip : Z)
| Stbi_write_png (filename : string) (w h comp : Z) (data : list Z)
                 (stride : Z)
| Fprintf (s : stream) (format : string) (args : list arg)
| Cout (items : list string)
| Store (f : flag) (b : bool)
| Load (f : flag) (b : bool)
| Spawn (t : tid)
| Join (t : tid)
| Return (status : Z)
| Exit (status : Z)
| StatusCallback (source : N) (severity : ANARIStatusSeverity)
                 (message : string).

(** A frame buffer as [anari::map] hands it out. *)
Record framebuffer : Type :=
  mkfb { fb_width : Z; fb_height : Z; fb_data : list Z }.

(** What the library answers. The program is deterministic once these
    answers are fixed; every property below holds for all of them unless it
    says otherwise. *)
Record library : Type := mklib {
  (** the value [getProperty(frame, "duration", ...)] stores in render
      cycle [i], or [None] when it leaves the variable alone *)
  frame_duration : nat -> option float;
  (** the mapped colour channel in render cycle [i] *)
  frame_buffer : nat -> framebuffer;
  (** the array the [k]-th call of [anariGetDeviceExtensions] returns: the
      entries in order, [None] for a null pointer *)
  device_extensions : nat -> string -> list (option string);
  (** what the memory of a freshly mapped array holds *)
  mapped_float3 : handle -> nat -> float3;
  mapped_float : handle -> nat -> float;
  mapped_uint32 : handle -> nat -> Z;
  mapped_object : handle -> nat -> handle
}.

(** ** Helpers for C++ values *)

Definition nl : string := String "010"%char EmptyString.

Definition to_uint32 (z : Z) : Z := z mod 2 ^ 32.
Definition to_int (z : Z) : Z := (z + 2 ^ 31) mod 2 ^ 32 - 2 ^ 31.

(** [stream << i] for an [int] *)
Definition decimal (i : Z) : string := NilZero.string_of_int (Z.to_int i).

(** the [numItems] elements of a freshly mapped array *)
Definition mapped {A : Type} (memory : nat -> A) (numItems : Z) : list A :=
  map memory (seq 0 (Z.to_nat numItems)).

(** [for (int i = first; ...; i++) body(i)], [count] times *)
Fixpoint for_range (count : nat) (i : Z) (body : Z -> list event)
  : list event :=
  match count with
  | O => []
  | S count' => body i ++ for_range count' (i + 1) body
  end.

(** ** [statusFunc] *)

(** How a call ends: it returns, or it ends the process ([std::exit]). *)
Inductive outcome : Set :=
| Returns
| Exits (status : Z).

Definition statusFunc (source : N) (severity : ANARIStatusSeverity)
    (message : string) : list event * outcome :=
  if decide (severity = ANARI_SEVERITY_FATAL_ERROR) then
    ([Fprintf stderr ("[FATAL][%p] %s" ++ nl) [APtr source; AStr message]],
     Exits 1)
  else if decide (severity = ANARI_SEVERITY_ERROR) then
    ([Fprintf stderr ("[ERROR][%p] %s" ++ nl) [APtr source; AStr message]],
     Returns)
  else if decide (severity = ANARI_SEVERITY_WARNING) then
    ([Fprintf stderr ("[WARN ][%p] %s" ++ nl) [APtr source; AStr message]],
     Returns)
  else if decide (severity = ANARI_SEVERITY_PERFORMANCE_WARNING) then
    ([Fprintf stderr ("[PERF ][%p] %s" ++ nl) [APtr source; AStr message]],
     Returns)
  else
    (* Ignore INFO/DEBUG messages *)
    ([], Returns).

(** ** [deviceHasExtension] *)

(** The loop [for (; *extensions; extensions++)]: it stops at the first null
    entry. The list is the memory the scan may read; where it ends without a
    null entry the scan stops as well. *)
Fixpoint deviceHasExtension_scan (extensions : list (option string))
    (extName : string) : bool :=
  match extensions with
  | Some e :: rest =>
      if String.eqb e extName then true
      else deviceHasExtension_scan rest extName
  | None :: _ => false
  | [] => false
  end.

(** [k] counts the calls of [anariGetDeviceExtensions] so far. *)
Definition deviceHasExtension (lib : library) (k : nat)
    (deviceSubtype extName : string) : list event * bool :=
  let extensions := device_extensions lib k deviceSubtype in
  ([GetDeviceExtensions deviceSubtype],
   deviceHasExtension_scan extensions extName).

(** ** The scene: [initializeWorld] and the other initialisers *)

(** [e[0] = v], [e[1] = v], [e[2] = v] on a [float3] *)
Definition set_f3x (v : float) (e : float3) : float3 :=
  mkfloat3 v (f3y e) (f3z e).
Definition set_f3y (v : float) (e : float3) : float3 :=
  mkfloat3 (f3x e) v (f3z e).
Definition set_f3z (v : float) (e : float3) : float3 :=
  mkfloat3 (f3x e) (f3y e) v.

(** [std::iota(first, last, value)] over 32-bit unsigned elements *)
Fixpoint iota (range : list Z) (value : Z) : list Z :=
  match range with
  | [] => []
  | _ :: rest => to_uint32 value :: iota rest (value + 1)
  end.

(** [std::iter_swap] of the elements at two positions of a range.
    [std::shuffle] only exchanges positions inside the range; for others
    the range is left as it is. *)
Definition iter_swap (range : list Z) (ij : nat * nat) : list Z :=
  match range !! ij.1, range !! ij.2 with
  | Some a, Some b => <[ij.1 := b]> (<[ij.2 := a]> range)
  | _, _ => range
  end.

(** Who makes a call: a thread of the program, or the status callback,
    which the library invokes when it wants to (the model lets it do so at
    any time before the process has ended). *)
Inductive actor : Set :=
| thread (t : tid)
| callback.

#[global] Instance actor_eq_dec : EqDecision actor.
Proof. solve_decision. Defined.

Definition obs : Type := actor * event.

(** What happens next is chosen by the scheduler and the library. *)
Inductive choice : Type :=
| sched (t : tid)
| report (source : N) (severity : ANARIStatusSeverity) (message : string).

(** ** A concrete setting

    To run the model on examples: simple instances of the two algorithms
    that the C++ standard leaves to the implementation, and two libraries,
    one that answers as a device does once the frame is set up, one that
    has nothing to report yet. *)

(** a distribution object: its mean and its standard deviation *)
Definition sampler : Type := float * float.

Definition sampler_init (mean stddev : float) : sampler := (mean, stddev).

(** one draw from the engine, spread over [mean - stddev, mean + stddev) *)
Definition sampler_call (d : sampler) (g : Mt19937.engine)
  : float * sampler * Mt19937.engine :=
  let (u, g') := Mt19937.next g in
  let unit := F32.div (F32.of_Z (u mod 2 ^ 24 - 2 ^ 23)) (F32.of_Z (2 ^ 23)) in
  (F32.add d.1 (F32.mul d.2 unit), d, g').

(** the exchanges of a Fisher-Yates shuffle: position [i] with a position
    drawn from [0, i], for [i] from 1 *)
Fixpoint fisher_yates_from (count i : nat) (g : Mt19937.engine)
  : list (nat * nat) * Mt19937.engine :=
  match count with
  | O => ([], g)
  | S count' =>
      let (u, g1) := Mt19937.next g in
      let j := Z.to_nat (u mod (Z.of_nat i + 1)) in
      let (rest, g2) := fisher_yates_from count' (S i) g1 in
      ((i, j) :: rest, g2)
  end.

Definition fisher_yates (len : nat) (g : Mt19937.engine)
  : list (nat * nat) * Mt19937.engine :=
  fisher_yates_from (len - 1) 1 g.

Definition ready_device : library :=
  {| frame_duration _ := Some (F32.lit 1 100);
     frame_buffer _ := mkfb 1024 1024 [];
     device_extensions _ _ :=
       [ Some "ANARI_KHR_CAMERA_PERSPECTIVE"%string;
         Some "ANARI_KHR_GEOMETRY_SPHERE"%string;
         None ];
     mapped_float3 _ _ := mkfloat3 F32.zero F32.zero F32.zero;
     mapped_float _ _ := F32.zero;
     mapped_uint32 _ _ := 0;
     mapped_object _ _ := hDevice |}.

(** a device whose frame has not been committed: no duration, an empty
    mapping *)
Definition unready_device : library :=
  {| frame_duration _ := None;
     frame_buffer _ := mkfb 0 0 [];
     device_extensions _ _ := [ None ];
     mapped_float3 _ _ := mkfloat3 F32.zero F32.zero F32.zero;
     mapped_float _ _ := F32.zero;
     mapped_uint32 _ _ := 0;
     mapped_object _ _ := hDevice |}.

(** [main] up to the start of the render thread, then the render thread
    to its end, the polling threads, the initialisers, and the rest of
    [main]. *)
Definition render_first : list choice :=
  replicate 14 (sched t_main) ++ replicate 94 (sched t_render).

Definition full_schedule : list choice :=
  render_first ++
  replicate 3 (sched t_queryExtension) ++
  replicate 3 (sched t_queryBoundsNoWait) ++
  replicate 3 (sched t_queryBoundsWait) ++
  replicate 39 (sched t_initWorld) ++
  replicate 4 (sched t_initRenderer) ++
  replicate 5 (sched t_initCamera) ++
  replicate 7 (sched t_initFrame) ++
  replicate 15 (sched t_main).

(** two turns of the extension query thread *)
Definition two_turns : list choice := replicate 2 (sched t_queryExtension).

(** the names in the extension array of [ready_device] *)
Definition known_extensions : list string :=
  [ "ANARI_KHR_CAMERA_PERSPECTIVE"; "ANARI_KHR_GEOMETRY_SPHERE" ]%string.

Section Program.

(** [std::normal_distribution<float>]. The standard leaves its algorithm
    to the implementation: a distribution object has a state of its own,
    is built from a mean and a standard deviation, and a call draws from
    the engine and returns a sample. *)
Variable normal_distribution : Type.
Variable normal_distribution_init : float -> float -> normal_distribution.
Variable normal_distribution_call :
  normal_distribution -> Mt19937.engine ->
  float * normal_distribution * Mt19937.engine.

(** [std::shuffle]. Implementations exchange elements of the range with
    [std::iter_swap] at positions they draw from the engine; which
    positions is left to them. For a range of [len] elements and an
    engine, [shuffle_swaps] gives the exchanges in order and the engine
    afterwards. *)
Variable shuffle_swaps :
  nat -> Mt19937.engine -> list (nat * nat) * Mt19937.engine.

Definition shuffle (range : list Z) (g : Mt19937.engine)
  : list Z * Mt19937.engine :=
  let (swaps, g') := shuffle_swaps (length range) g in
  (fold_left iter_swap swaps range, g').

(** The variables the sphere loop of [initializeWorld] updates. *)
Record spheres : Type := mkspheres {
  positions : list float3;
  distances : list float;
  vert_dist : normal_distribution;
  rng : Mt19937.engine
}.

(** One iteration of [for (uint32_t i = 0; i < numSpheres; i++)]. *)
Definition sphere_at (pos : float3) (i : nat) (s : spheres) : spheres :=
  let '(a, d, g) := normal_distribution_call (vert_dist s) (rng s) in
  let positions := alter (set_f3x a) i (positions s) in
  let '(b, d, g) := normal_distribution_call d g in
  let positions := alter (set_f3y b) i positions in
  let '(c, d, g) := normal_distribution_call d g in
  let positions := alter (set_f3z c) i positions in
  let distances :=
    <[i := F32.sqrt (F32.add (F32.add (F32.mul a a) (F32.mul b b))
                             (F32.mul c c))]> (distances s) in
  (* translate *)
  let positions := alter (fun e => float3_add e pos) i positions in
  mkspheres positions distances d g.

Fixpoint sphere_loop (count : nat) (pos : float3) (i : nat) (s : spheres)
  : spheres :=
  match count with
  | O => s
  | S count' => sphere_loop count' pos (S i) (sphere_at pos i s)
  end.

Definition numSpheres : Z := 10000.

(** The state of the sphere loop when it ends. *)
Definition world_spheres (lib : library) (pos : float3) : spheres :=
  let rng := Mt19937.default in
  let rng := Mt19937.seed rng 0 in
  let vert_dist := normal_distribution_init F32.zero (F32.lit 25 100) in
  let positions := mapped (mapped_float3 lib hPositionsArray) numSpheres in
  let distances := mapped (mapped_float lib hDistanceArray) numSpheres in
  sphere_loop (Z.to_nat numSpheres) pos 0
    (mkspheres positions distances vert_dist rng).

(** The index array when it is unmapped: [std::iota], then
    [std::shuffle] with the engine the sphere loop leaves. *)
Definition world_indices (lib : library) (pos : float3) : list Z :=
  let rng := rng (world_spheres lib pos) in
  let indices := mapped (mapped_uint32 lib hIndicesArray) numSpheres in
  let indices := iota indices 0 in
  (shuffle indices rng).1.

Definition initializeWorld (lib : library) (world : handle) (pos : float3)
  : list event :=
  let radius := F32.lit 15 1000 in
  (* Create + fill position and color arrays with randomized values *)
  let s := world_spheres lib pos in
  let indices := world_indices lib pos in
  [ NewArray1D hIndicesArray ANARI_UINT32 numSpheres;
    NewArray1D hPositionsArray ANARI_FLOAT32_VEC3 numSpheres;
    NewArray1D hDistanceArray ANARI_FLOAT32 numSpheres;
    Map hPositionsArray;
    Map hDistanceArray;
    Unmap hPositionsArray (DFloat3 (positions s));
    Unmap hDistanceArray (DFloat (distances s));
    Map hIndicesArray;
    Unmap hIndicesArray (DUint32 indices) ] ++
  (* Create and parameterize geometry *)
  [ NewObject hGeometry anari_Geometry (Some "sphere"%string);
    SetAndReleaseParameter hGeometry "primitive.index" hIndicesArray;
    SetAndReleaseParameter hGeometry "vertex.position" hPositionsArray;
    SetAndReleaseParameter hGeometry "vertex.attribute0" hDistanceArray;
    SetParameter hGeometry "radius" (VFloat radius);
    CommitParameters hGeometry ] ++
  (* Create color map texture *)
  let texels := mapped (mapped_float3 lib hTexelArray) 2 in
  let texels := alter (set_f3x F32.one) 0%nat texels in
  let texels := alter (set_f3y F32.zero) 0%nat texels in
  let texels := alter (set_f3z F32.zero) 0%nat texels in
  let texels := alter (set_f3x F32.zero) 1%nat texels in
  let texels := alter (set_f3y F32.one) 1%nat texels in
  let texels := alter (set_f3z F32.zero) 1%nat texels in
  [ NewArray1D hTexelArray ANARI_FLOAT32_VEC3 2;
    Map hTexelArray;
    Unmap hTexelArray (DFloat3 texels);
    NewObject hTexture anari_Sampler (Some "image1D"%string);
    SetAndReleaseParameter hTexture "image" hTexelArray;
    SetParameter hTexture "filter" (VString "linear");
    CommitParameters hTexture ] ++
  (* Create and parameterize material *)
  [ NewObject hMaterial anari_Material (Some "matte"%string);
    SetAndReleaseParameter hMaterial "color" hTexture;
    CommitParameters hMaterial ] ++
  (* Create and parameterize surface *)
  [ NewObject hSurface anari_Surface None;
    SetAndReleaseParameter hSurface "geometry" hGeometry;
    SetAndReleaseParameter hSurface "material" hMaterial;
    CommitParameters hSurface ] ++
  (* Create and parameterize world *)
  let s0 := mapped (mapped_object lib hSurfaceArray) 1 in
  let s0 := <[0%nat := hSurface]> s0 in
  [ NewArray1D hSurfaceArray ANARI_SURFACE 1;
    Map hSurfaceArray;
    Unmap hSurfaceArray (DObject s0);
    SetAndReleaseParameter world "surface" hSurfaceArray;
    Release hSurface;
    CommitParameters world ] ++
  (* Add a directional light source *)
  [ NewObject hLight anari_Light (Some "directional"%string);
    SetParameterArray1D world "light" [hLight];
    Release hLight ].

Definition initializeRenderer (renderer : handle) : list event :=
  let backgroundColor :=
    mkfloat4 (F32.lit 1 10) (F32.lit 1 10) (F32.lit 1 10) F32.one in
  [ SetParameter renderer "background" (VFloat4 backgroundColor);
    SetParameter renderer "pixelSamples" (VInt 1);
    CommitParameters renderer ].

Definition initializeCamera (camera : handle) : list event :=
  [ SetParameter camera "position"
      (VFloat3 (mkfloat3 (F32.lit 15 10) (F32.lit 168 100) (F32.lit 15 10)));
    SetParameter camera "direction"
      (VFloat3 (mkfloat3 (F32.of_Z 0) (F32.of_Z 0) (F32.of_Z (-1))));
    SetParameter camera "up"
      (VFloat3 (mkfloat3 (F32.of_Z 0) (F32.of_Z 1) (F32.of_Z 0)));
    CommitParameters camera ].

Definition imageSize : uint2 := mkuint2 1024 1024.

Definition initializeFrame (frame world renderer camera : handle)
  : list event :=
  [ SetParameter frame "size" (VUint2 imageSize);
    SetParameter frame "channel.color" (VDataType ANARI_UFIXED8_RGBA_SRGB);
    SetParameter frame "world" (VObject world);
    SetParameter frame "renderer" (VObject renderer);
    SetParameter frame "camera" (VObject camera);
    CommitParameters frame ].

(** ** [render]

    [i] counts the calls of [render] so far; it selects the answers of
    the library. [render_duration] is the local [duration] after
    [getProperty]: the initial [0.f], overwritten when the library has
    the property. *)
Definition render_duration (lib : library) (i : nat) : float :=
  let duration := F32.zero in
  match frame_duration lib i with
  | Some d => d
  | None => duration
  end.

Definition render (lib : library) (i : nat) (frame : handle)
    (fileName : string) : list event :=
  (* Render frame and print out duration property *)
  let duration := render_duration lib i in
  [ Render frame;
    Wait frame;
    GetProperty frame "duration" ANARI_NO_WAIT;
    Fprintf stdout ("rendered frame in %fms" ++ nl)
      [AFloat (F32.mul duration (F32.of_Z 1000))] ] ++
  if negb (String.eqb fileName "") then
    let fb := frame_buffer lib i in
    [ Stbi_flip_vertically_on_write 1;
      MapFrame frame "channel.color";
      Stbi_write_png fileName (to_int (fb_width fb)) (to_int (fb_height fb))
        4 (fb_data fb) (to_int (to_uint32 (4 * fb_width fb)));
      UnmapFrame frame "channel.color";
      Cout ["Output: "%string; fileName; nl] ]
  else [].

(** ** The threads of [main] *)

(** A polling thread: [for (;;) { body; if (stop) break; }], then [after].
    The body gets the number of the iteration. *)
Record loop : Type := mkloop {
  body : nat -> list event;
  stop : flag;
  after : list event
}.

Inductive code : Type :=
| Straight (l : list event)
| Forever (l : loop).

Definition finished_line (what : string) : event :=
  Fprintf stdout ("%s" ++ nl) [AStr what].

Definition initWorldThread (lib : library) : list event :=
  initializeWorld lib hWorld
    (mkfloat3 (F32.lit 15 10) (F32.lit 15 10) F32.zero) ++
  [ finished_line "world initialization thread finished" ].

Definition initRendererThread : list event :=
  initializeRenderer hRenderer ++
  [ finished_line "renderer initialization thread finished" ].

Definition initCameraThread : list event :=
  initializeCamera hCamera ++
  [ finished_line "camera initialization thread finished" ].

Definition initFrameThread : list event :=
  initializeFrame hFrame hWorld hRenderer hCamera ++
  [ finished_line "frame initialization thread finished" ].

(* Periodically query some extensions *)
Definition queryExtensionThread (lib : library) : loop :=
  {| body k :=
       let (calls, res) :=
         deviceHasExtension lib k "default" "ANARI_KHR_CAMERA_PERSPECTIVE" in
       calls ++
       if negb res then
         [ Fprintf stderr ("%s" ++ nl) [AStr "extension not found"] ]
       else [];
     stop := finish_queryExtension;
     after := [ finished_line "extension query thread finished" ] |}.

(* Periodically query world bounds *)
Definition queryBoundsNoWaitThread : loop :=
  {| body _ := [ GetProperty hWorld "bounds" ANARI_NO_WAIT ];
     stop := finish_queryBoundsNoWait;
     after := [ finished_line "bounds query (no wait) thread finished" ] |}.

Definition queryBoundsWaitThread : loop :=
  {| body _ := [ GetProperty hWorld "bounds" ANARI_WAIT ];
     stop := finish_queryBoundsWait;
     after := [ finished_line "bounds query (wait) thread finished" ] |}.

(* Rendering *)
Definition renderThread (lib : library) : list event :=
  for_range 10 0
    (fun i =>
       let str := ("out_" ++ decimal i ++ ".png")%string in
       render lib (Z.to_nat i) hFrame str) ++
  (* Tell the periodic query threads to finish: *)
  [ Store finish_queryExtension true;
    Store finish_queryBoundsNoWait true;
    Store finish_queryBoundsWait true;
    finished_line "render thread finished" ].

Definition main : list event :=
  (* Setup ANARI device *)
  [ LoadLibrary "environment";
    NewDevice hDevice "default";
    (* Create world from a helper function *)
    NewObject hWorld anari_World None;
    Spawn t_initWorld;
    (* Create renderer *)
    NewObject hRenderer anari_Renderer (Some "default"%string);
    Spawn t_initRenderer;
    (* Create camera *)
    NewObject hCamera anari_Camera (Some "perspective"%string);
    Spawn t_initCamera;
    (* Create frame (top-level object) *)
    NewObject hFrame anari_Frame None;
    Spawn t_initFrame;
    Spawn t_queryExtension;
    Spawn t_queryBoundsNoWait;
    Spawn t_queryBoundsWait;
    Spawn t_render;
    (* Join all threads *)
    Join t_render;
    Join t_queryBoundsWait;
    Join t_queryBoundsNoWait;
    Join t_queryExtension;
    Join t_initWorld;
    Join t_initRenderer;
    Join t_initCamera;
    Join t_initFrame;
    (* Cleanup remaining ANARI objects *)
    Release hCamera;
    Release hRenderer;
    Release hWorld;
    Release hFrame;
    Release hDevice;
    UnloadLibrary;
    Return 0 ].

Definition thread_code (lib : library) (t : tid) : code :=
  match t with
  | t_main => Straight main
  | t_initWorld => Straight (initWorldThread lib)
  | t_initRenderer => Straight initRendererThread
  | t_initCamera => Straight initCameraThread
  | t_initFrame => Straight initFrameThread
  | t_queryExtension => Forever (queryExtensionThread lib)
  | t_queryBoundsNoWait => Forever queryBoundsNoWaitThread
  | t_queryBoundsWait => Forever queryBoundsWaitThread
  | t_render => Straight (renderThread lib)
  end.

(** ** Interleaving semantics

    A started thread is at some point of its code: [Running rest] has the
    calls [rest] left; [Looping l k rest] is in iteration [k] of the loop
    [l] with [rest] left before the test of the stop flag. *)
Inductive tstate : Type :=
| Running (rest : list event)
| Looping (l : loop) (k : nat) (rest : list event).

Definition start (c : code) : tstate :=
  match c with
  | Straight l => Running l
  | Forever l => Looping l 0 (body l 0)
  end.

Definition finished (st : option tstate) : bool :=
  match st with
  | Some (Running []) => true
  | _ => false
  end.

(** The next call of a thread and the point it moves to. The test of the
    stop flag is a (sequentially consistent) load of the atomic. *)
Definition thread_step (flags : flag -> bool) (st : tstate)
  : option (event * tstate) :=
  match st with
  | Running [] => None
  | Running (e :: rest) => Some (e, Running rest)
  | Looping l k (e :: rest) => Some (e, Looping l k rest)
  | Looping l k [] =>
      let b := flags (stop l) in
      Some (Load (stop l) b,
            if b then Running (after l)
            else Looping l (S k) (body l (S k)))
  end.

(** The process: the threads ([None] before the thread is started), the
    stop flags, and the exit status once the process has ended. *)
Record sys : Type := mksys {
  threads : tid -> option tstate;
  flags : flag -> bool;
  exited : option Z
}.

Definition initial : sys :=
  {| threads t := if decide (t = t_main) then Some (Running main) else None;
     flags _ := false;
     exited := None |}.

Definition update {K A : Type} `{EqDecision K} (f : K -> A) (k : K) (v : A)
  : K -> A :=
  fun k' => if decide (k' = k) then v else f k'.

(** What a call does to the process; [None] when the call cannot proceed
    yet ([join] blocks until the thread has ended). *)
Definition effect (lib : library) (e : event) (s : sys) : option sys :=
  match e with
  | Spawn t' =>
      match threads s t' with
      | None =>
          Some (mksys (update (threads s) t' (Some (start (thread_code lib t'))))
                      (flags s) (exited s))
      | Some _ => None
      end
  | Join t' => if finished (threads s t') then Some s else None
  | Store f b => Some (mksys (threads s) (update (flags s) f b) (exited s))
  | Return status => Some (mksys (threads s) (flags s) (Some status))
  | _ => Some s
  end.

(** What a status report adds to the trace: the invocation of the
    callback, what [statusFunc] prints, and the exit when it ends the
    process. *)
Definition reported (source : N) (severity : ANARIStatusSeverity)
    (message : string) : list obs :=
  let (out, how) := statusFunc source severity message in
  (callback, StatusCallback source severity message)
    :: map (pair callback) out
    ++ match how with
       | Exits st => [(callback, Exit st)]
       | Returns => []
       end.

Definition step_fn (lib : library) (s : sys) (c : choice)
  : option (list obs * sys) :=
  match exited s with
  | Some _ => None
  | None =>
      match c with
      | sched t =>
          match threads s t with
          | None => None
          | Some st =>
              match thread_step (flags s) st with
              | None => None
              | Some (e, st') =>
                  let s1 :=
                    mksys (update (threads s) t (Some st')) (flags s)
                          (exited s) in
                  match effect lib e s1 with
                  | None => None
                  | Some s' => Some ([(thread t, e)], s')
                  end
              end
          end
      | report source severity message =>
          Some (reported source severity message,
                mksys (threads s) (flags s)
                      (match (statusFunc source severity message).2 with
                       | Exits st => Some st
                       | Returns => None
                       end))
      end
  end.

Definition step (lib : library) (s : sys) (os : list obs) (s' : sys) : Prop :=
  exists c, step_fn lib s c = Some (os, s').

(** [run lib tr s]: the process can reach [s] from its start, and [tr] is
    what happened on the way. *)
Inductive run (lib : library) : list obs -> sys -> Prop :=
| run_start : run lib [] initial
| run_step tr s os s' :
    run lib tr s -> step lib s os s' -> run lib (tr ++ os) s'.

(** [exec lib s tr s']: the same from any state [s]. *)
Inductive exec (lib : library) : sys -> list obs -> sys -> Prop :=
| exec_refl s : exec lib s [] s
| exec_step s tr s1 os s2 :
    exec lib s tr s1 -> step lib s1 os s2 -> exec lib s (tr ++ os) s2.

(** Running a list of choices. *)
Fixpoint run_choices (lib : library) (cs : list choice) (s : sys)
  : option (list obs * sys) :=
  match cs with
  | [] => Some ([], s)
  | c :: cs' =>
      match step_fn lib s c with
      | None => None
      | Some (os, s1) =>
          match run_choices lib cs' s1 with
          | None => None
          | Some (tr, s2) => Some (os ++ tr, s2)
          end
      end
  end.

(** ** Reading a trace *)

(** the calls made by one actor, in order *)
Definition events_by (a : actor) (tr : list obs) : list event :=
  omap (fun o : obs => if decide (o.1 = a) then Some o.2 else None) tr.

Definition events_of (t : tid) (tr : list obs) : list event :=
  events_by (thread t) tr.

Definition count (chk : event -> bool) (evs : list event) : nat :=
  length (List.filter chk evs).

Definition written_files (evs : list event) : list string :=
  omap (fun e => match e with
                 | Stbi_write_png name _ _ _ _ _ => Some name
                 | _ => None
                 end) evs.

Definition is_render (e : event) : bool :=
  match e with Render _ => true | _ => false end.

Definition is_store (e : event) : bool :=
  match e with Store _ _ => true | _ => false end.

Definition is_write (e : event) : bool :=
  match e with Stbi_write_png _ _ _ _ _ _ => true | _ => false end.

(** the calls that hand a new handle to the program *)
Definition creates (h : handle) (e : event) : bool :=
  match e with
  | NewDevice h' _ | NewObject h' _ _ | NewArray1D h' _ _ =>
      bool_decide (h' = h)
  | _ => false
  end.

(** the calls that give the program's reference to a handle back:
    [anari::release] and [anari::setAndReleaseParameter] *)
Definition releases (h : handle) (e : event) : bool :=
  match e with
  | Release h' | SetAndReleaseParameter _ _ h' => bool_decide (h' = h)
  | _ => false
  end.

Definition is_unload (e : event) : bool :=
  match e with UnloadLibrary => true | _ => false end.

(** the queries the polling loops repeat *)
Definition is_query (e : event) : bool :=
  match e with
  | GetDeviceExtensions _ | GetProperty _ _ _ => true
  | _ => false
  end.

Definition is_load (e : event) : bool :=
  match e with Load _ _ => true | _ => false end.

Definition is_fatal (e : event) : bool :=
  match e with
  | StatusCallback _ ANARI_SEVERITY_FATAL_ERROR _ => true
  | _ => false
  end.

(** calls that act on other threads or end the process *)
Definition is_control (e : event) : bool :=
  match e with
  | Spawn _ | Join _ | Return _ | Exit _ => true
  | _ => false
  end.

(** [k] full iterations of a polling loop, each ended by a test of the
    stop flag that found it unset *)
Definition iterations (l : loop) (k : nat) : list event :=
  flat_map (fun j => body l j ++ [Load (stop l) false]) (seq 0 k).

(** [at_point c done st]: a thread with code [c] that has made the calls
    [done] is at point [st]. *)
Inductive at_point : code -> list event -> option tstate -> Prop :=
| at_unstarted c : at_point c [] None
| at_running l done rest :
    l = done ++ rest ->
    at_point (Straight l) done (Some (Running rest))
| at_looping l k done rest :
    body l k = done ++ rest ->
    at_point (Forever l) (iterations l k ++ done) (Some (Looping l k rest))
| at_after l k done rest :
    after l = done ++ rest ->
    at_point (Forever l)
      (iterations l k ++ body l k ++ [Load (stop l) true] ++ done)
      (Some (Running rest)).

(** every call in the code passes the check *)
Definition code_all (chk : event -> bool) (c : code) : Prop :=
  match c with
  | Straight l => forallb chk l = true
  | Forever l =>
      (forall k, forallb chk (body l k) = true) /\
      (forall b, chk (Load (stop l) b) = true) /\
      forallb chk (after l) = true
  end.

(** calls still to be made, when the stop flag of a polling loop is set *)
Definition size (c : code) : nat :=
  match c with
  | Straight l => length l
  | Forever l => length (body l 0) + 1 + length (after l)
  end.

Definition thread_work (c : code) (st : option tstate) : nat :=
  match st with
  | None => size c
  | Some (Running rest) => length rest
  | Some (Looping l _ rest) => length rest + 1 + length (after l)
  end.

Definition work (lib : library) (s : sys) : nat :=
  sum_list (map (fun t => thread_work (thread_code lib t) (threads s t))
                all_threads).

(** ** Auxiliary definitions for the properties *)

Definition spawned (e : event) : option tid :=
  match e with Spawn t' => Some t' | _ => None end.

Definition joined (e : event) : option tid :=
  match e with Join t' => Some t' | _ => None end.

Definition no_control (e : event) : bool := negb (is_control e).
Definition no_store (e : event) : bool := negb (is_store e).
Definition no_write (e : event) : bool := negb (is_write e).
Definition stores_true (e : event) : bool :=
  match e with Store _ b => b | _ => true end.
Definition returns_zero (e : event) : bool :=
  match e with
  | Return st => bool_decide (st = 0)
  | Exit _ | StatusCallback _ _ _ => false
  | _ => true
  end.

Definition stored (e : event) : option (flag * bool) :=
  match e with Store f b => Some (f, b) | _ => None end.

(** The end of a run: the three calls of a fatal status report. *)
Definition fatal_report (source : N) (message : string) : list obs :=
  [ (callback, StatusCallback source ANARI_SEVERITY_FATAL_ERROR message);
    (callback, Fprintf stderr ("[FATAL][%p] %s" ++ nl)
                 [APtr source; AStr message]);
    (callback, Exit 1) ].

Definition is_exit (e : event) : bool :=
  match e with Return _ | Exit _ => true | _ => false end.

(** nothing in the call ends the process *)
Definition quiet (o : obs) : bool :=
  negb (is_fatal o.2) && negb (is_exit o.2).

Definition all_actors : list actor := callback :: map thread all_threads.

(** what the status callback does when it is invoked *)
Definition callback_call (e : event) : bool :=
  match e with
  | StatusCallback _ _ _ | Fprintf stderr _ [APtr _; AStr _] | Exit _ =>
      true
  | _ => false
  end.

(** calls that create or give back a handle, or unload the library *)
Definition no_lifetime (e : event) : bool :=
  match e with
  | LoadLibrary _ | NewDevice _ _ | NewObject _ _ _ | NewArray1D _ _ _
  | Release _ | SetAndReleaseParameter _ _ _ | UnloadLibrary => false
  | _ => true
  end.

(** a check of every call of a list against the calls before it *)
Fixpoint splits_all (P : list event -> event -> bool)
    (d l : list event) : bool :=
  match l with
  | [] => true
  | e :: r => P d e && splits_all P (d ++ [e]) r
  end.

(** [main] spawns a thread once, and joins only after it has spawned
    them all. *)
Definition main_order (d : list event) (e : event) : bool :=
  match e with
  | Spawn t' =>
      negb (bool_decide (t' = t_main)) &&
      forallb (fun e' => negb (bool_decide (spawned e' = Some t'))) d
  | Join t' =>
      negb (bool_decide (t' = t_main)) &&
      forallb (fun t =>
                 bool_decide (t = t_main) ||
                 existsb (fun e' => bool_decide (spawned e' = Some t)) d)
              all_threads
  | _ => true
  end.

Definition is_sched (c : choice) : bool :=
  match c with sched _ => true | report _ _ _ => false end.

(** The two parts of [renderThread]: the loop and what follows it. *)
Definition render_cycles (lib : library) : list event :=
  for_range 10 0
    (fun i =>
       render lib (Z.to_nat i) hFrame ("out_" ++ decimal i ++ ".png")%string).

Definition render_closing : list event :=
  [ Store finish_queryExtension true;
    Store finish_queryBoundsNoWait true;
    Store finish_queryBoundsWait true;
    finished_line "render thread finished" ].

Definition ten_files : list string :=
  [ "out_0.png"; "out_1.png"; "out_2.png"; "out_3.png"; "out_4.png";
    "out_5.png"; "out_6.png"; "out_7.png"; "out_8.png"; "out_9.png" ]%string.

(** calls that only the render thread makes *)
Definition no_render_call (e : event) : bool :=
  negb (is_render e) && negb (is_write e) && negb (is_store e).

(** The calls a polling thread makes from the point it is at when its
    stop flag is set and stays set: the rest of its iteration, the test
    of the flag, the calls after the loop. *)
Definition remaining (l : loop) (st : option tstate) : list event :=
  match st with
  | None => body l 0 ++ [Load (stop l) true] ++ after l
  | Some (Looping _ _ rest) => rest ++ [Load (stop l) true] ++ after l
  | Some (Running rest) => rest
  end.

Definition no_fatal (tr : list obs) : bool :=
  forallb (fun o : obs => negb (is_fatal o.2)) tr.

(** The spheres as a list built from scratch: what [count] iterations
    draw from the distribution and the engine. *)
Fixpoint fresh_spheres (count : nat) (pos : float3)
    (d : normal_distribution) (g : Mt19937.engine)
  : list float3 * list float * normal_distribution * Mt19937.engine :=
  match count with
  | O => ([], [], d, g)
  | S count' =>
      let '(a, d, g) := normal_distribution_call d g in
      let '(b, d, g) := normal_distribution_call d g in
      let '(c, d, g) := normal_distribution_call d g in
      let '(ps, ds, d', g') := fresh_spheres count' pos d g in
      (float3_add (mkfloat3 a b c) pos :: ps,
       F32.sqrt (F32.add (F32.add (F32.mul a a) (F32.mul b b))
                         (F32.mul c c)) :: ds,
       d', g')
  end.

(** a [printf] of a number *)
Definition prints_float (e : event) : bool :=
  match e with Fprintf _ _ [AFloat _] => true | _ => false end.

(** the images of a list of calls: file name, width and height *)
Definition written_images (evs : list event) : list (string * Z * Z) :=
  omap (fun e => match e with
                 | Stbi_write_png name w h _ _ _ => Some (name, w, h)
                 | _ => None
                 end) evs.

(** a write comes right after the flip has been switched on and the
    colour channel of the frame has been mapped *)
Definition flipped_write (d : list event) (e : event) : bool :=
  match e with
  | Stbi_write_png _ _ _ _ _ _ =>
      match rev d with
      | MapFrame f ch :: Stbi_flip_vertically_on_write fl :: _ =>
          bool_decide (f = hFrame) && String.eqb ch "channel.color"
          && (fl =? 1)
      | _ => false
      end
  | _ => true
  end.

Definition trace_from (lib : library) (cs : list choice) (s : sys)
  : list obs :=
  match run_choices lib cs s with
  | Some (tr, _) => tr
  | None => []
  end.

Definition state_from (lib : library) (cs : list choice) (s : sys) : sys :=
  match run_choices lib cs s with
  | Some (_, s') => s'
  | None => s
  end.

Definition trace_of (lib : library) (cs : list choice) : list obs :=
  trace_from lib cs initial.

Definition state_of (lib : library) (cs : list choice) : sys :=
  state_from lib cs initial.

(** ** Lifetimes of handles: auxiliary definitions *)

(** the handles of the run *)
Definition handles : list handle :=
  [ hDevice; hWorld; hRenderer; hCamera; hFrame;
    hIndicesArray; hPositionsArray; hDistanceArray; hGeometry;
    hTexelArray; hTexture; hMaterial; hSurface; hSurfaceArray; hLight ].

(** the handles [initializeWorld] creates and gives back itself *)
Definition local_handle (h : handle) : bool :=
  match h with
  | hIndicesArray | hPositionsArray | hDistanceArray | hGeometry
  | hTexelArray | hTexture | hMaterial | hSurface | hSurfaceArray
  | hLight => true
  | _ => false
  end.

(** the handle a call gives back *)
Definition released (e : event) : option handle :=
  match e with
  | Release h | SetAndReleaseParameter _ _ h => Some h
  | _ => None
  end.

(** the calls made on the device (every [anari::] call that takes it) *)
Definition device_call (e : event) : bool :=
  match e with
  | NewObject _ _ _ | NewArray1D _ _ _ | Map _ | Unmap _ _
  | SetParameter _ _ _ | SetAndReleaseParameter _ _ _
  | SetParameterArray1D _ _ _ | CommitParameters _ | Release _
  | Render _ | Wait _ | GetProperty _ _ _ | MapFrame _ _
  | UnmapFrame _ _ => true
  | _ => false
  end.

(** the call names the handle, as the object it acts on or as a value it
    passes or stores *)
Definition mentions (h : handle) (e : event) : bool :=
  match e with
  | Map h' => bool_decide (h' = h)
  | Unmap h' d =>
      bool_decide (h' = h) ||
      match d with
      | DObject l => existsb (fun x => bool_decide (x = h)) l
      | _ => false
      end
  | SetParameter obj _ v =>
      bool_decide (obj = h) ||
      match v with VObject h' => bool_decide (h' = h) | _ => false end
  | SetAndReleaseParameter obj _ h' =>
      bool_decide (obj = h) || bool_decide (h' = h)
  | SetParameterArray1D obj _ elems =>
      bool_decide (obj = h) || existsb (fun x => bool_decide (x = h)) elems
  | CommitParameters obj | Release obj | Render obj | Wait obj
  | GetProperty obj _ _ | MapFrame obj _ | UnmapFrame obj _ =>
      bool_decide (obj = h)
  | _ => false
  end.

(** the call needs the handle to be alive: it names it, or the handle is
    the device and the call is made on the device *)
Definition uses (h : handle) (e : event) : bool :=
  mentions h e || (bool_decide (h = hDevice) && device_call e).

Definition unused (h : handle) (e : event) : bool := negb (uses h e).

(** a check of every call of a list against the calls after it *)
Fixpoint suffix_all (P : event -> list event -> bool) (l : list event)
  : bool :=
  match l with
  | [] => true
  | e :: r => P e r && suffix_all P r
  end.

(** after a call that gives a handle back, the handle is not used *)
Definition release_last (e : event) (r : list event) : bool :=
  match released e with
  | Some h => forallb (unused h) r
  | None => true
  end.

(** ... and, in [main], no thread is joined any more *)
Definition release_after_joins (e : event) (r : list event) : bool :=
  match released e with
  | Some h =>
      forallb (unused h) r &&
      forallb (fun e' => match joined e' with Some _ => false | None => true end) r
  | None => true
  end.

(** every call a thread can still make passes the check *)
Definition future_all (chk : event -> bool) (c : code) (st : option tstate)
  : Prop :=
  match st with
  | None => code_all chk c
  | Some (Running rest) => forallb chk rest = true
  | Some (Looping l _ rest) =>
      forallb chk rest = true /\ code_all chk (Forever l)
  end.

(** the calls of [main] before it starts thread [t] *)
Fixpoint before_spawn (t : tid) (l : list event) : list event :=
  match l with
  | [] => []
  | e :: r =>
      if bool_decide (spawned e = Some t) then []
      else e :: before_spawn t r
  end.

(** every handle the call uses has been created by one of the calls [d] *)
Definition created_first (d : list event) (e : event) : bool :=
  forallb (fun h => implb (uses h e) (existsb (creates h) d)) handles.

(** the calls into the ANARI library after it has been loaded *)
Definition anari_call (e : event) : bool :=
  device_call e ||
  match e with
  | NewDevice _ _ | GetDeviceExtensions _ | UnloadLibrary => true
  | _ => false
  end.

Definition is_load_library (e : event) : bool :=
  match e with LoadLibrary _ => true | _ => false end.

Definition no_join (e : event) : bool :=
  match joined e with Some _ => false | None => true end.

(** after a call of [main] that closes something, the calls that are
    left pass the check and no thread is joined any more *)
Definition closes_last (closes chk : event -> bool)
    (e : event) (r : list event) : bool :=
  implb (closes e) (forallb chk r && forallb no_join r).

(** the library is loaded before it is called *)
Definition loaded_first (d : list event) (e : event) : bool :=
  implb (anari_call e) (existsb is_load_library d).

(** ** Parameters and commits: auxiliary definitions *)

(** the object a call sets a parameter of, and the name of the parameter *)
Definition parameter_set (e : event) : option (handle * string) :=
  match e with
  | SetParameter obj name _ | SetAndReleaseParameter obj name _
  | SetParameterArray1D obj name _ => Some (obj, name)
  | _ => None
  end.

Definition sets_nothing (e : event) : bool :=
  match parameter_set e with Some _ => false | None => true end.

Definition commits (obj : handle) (e : event) : bool :=
  match e with
  | CommitParameters obj' => bool_decide (obj' = obj)
  | _ => false
  end.

(** the parameter "light" of the world *)
Definition world_light (p : handle * string) : bool :=
  bool_decide (p.1 = hWorld) && String.eqb p.2 "light".

(** a parameter that is set is committed by a later call of the thread,
    except for the light of the world *)
Definition committed_later (e : event) (r : list event) : bool :=
  match parameter_set e with
  | Some p => existsb (commits p.1) r || world_light p
  | None => true
  end.

(** the light of the world is set after the commits of the world *)
Definition light_uncommitted (e : event) (r : list event) : bool :=
  match parameter_set e with
  | Some p =>
      implb (world_light p) (forallb (fun e' => negb (commits hWorld e')) r)
  | None => true
  end.

Definition sets_no_light (e : event) : bool :=
  match parameter_set e with Some p => negb (world_light p) | None => true end.

Definition no_load (e : event) : bool := negb (is_load e).

(** a line on standard error *)
Definition is_stderr (e : event) : bool :=
  match e with Fprintf stderr _ _ => true | _ => false end.

(** the answer of the [k]-th query for the perspective camera *)
Definition has_camera (lib : library) (k : nat) : bool :=
  (deviceHasExtension lib k "default" "ANARI_KHR_CAMERA_PERSPECTIVE").2.

Definition extension_not_found : event :=
  Fprintf stderr ("%s" ++ nl) [AStr "extension not found"].

(** ** The spheres before their translation: auxiliary definitions *)

(** The samples the sphere loop draws: [count] times three values from
    the distribution. *)
Fixpoint samples (count : nat) (d : normal_distribution)
    (g : Mt19937.engine)
  : list float3 * normal_distribution * Mt19937.engine :=
  match count with
  | O => ([], d, g)
  | S count' =>
      let '(a, d, g) := normal_distribution_call d g in
      let '(b, d, g) := normal_distribution_call d g in
      let '(c, d, g) := normal_distribution_call d g in
      let '(vs, d', g') := samples count' d g in
      (mkfloat3 a b c :: vs, d', g')
  end.

(** [std::sqrt(a * a + b * b + c * c)] *)
Definition norm (v : float3) : float :=
  F32.sqrt (F32.add (F32.add (F32.mul (f3x v) (f3x v))
                             (F32.mul (f3y v) (f3y v)))
                    (F32.mul (f3z v) (f3z v))).

(** the samples of [initializeWorld] *)
Definition world_samples : list float3 :=
  (samples (Z.to_nat numSpheres)
     (normal_distribution_init F32.zero (F32.lit 25 100))
     (Mt19937.seed Mt19937.default 0)).1.1.

(** ** Mapping arrays and the frame: auxiliary definitions *)

Definition is_map (h : handle) (e : event) : bool :=
  match e with Map h' => bool_decide (h' = h) | _ => false end.

Definition is_unmap (h : handle) (e : event) : bool :=
  match e with Unmap h' _ => bool_decide (h' = h) | _ => false end.

(** the arrays of [initializeWorld] *)
Definition array_handle (h : handle) : bool :=
  match h with
  | hIndicesArray | hPositionsArray | hDistanceArray | hTexelArray
  | hSurfaceArray => true
  | _ => false
  end.

(** the calls that map or unmap an array, or pass an array on *)
Definition array_call (e : event) : bool :=
  match e with
  | Map _ | Unmap _ _ => true
  | SetAndReleaseParameter _ _ h => array_handle h
  | _ => false
  end.

(** an array is mapped once, unmapped once after that, and passed on
    only then; [d] holds the calls made before *)
Definition array_order (d : list event) (e : event) : bool :=
  match e with
  | Map h => array_handle h && negb (existsb (is_map h) d)
  | Unmap h _ => existsb (is_map h) d && negb (existsb (is_unmap h) d)
  | SetAndReleaseParameter _ _ h =>
      implb (array_handle h) (existsb (is_unmap h) d)
  | _ => true
  end.

(** the calls [render] makes on the frame and its colour channel *)
Inductive frame_op : Set := op_render | op_wait | op_map | op_write | op_unmap.

Definition frame_op_of (e : event) : option frame_op :=
  match e with
  | Render _ => Some op_render
  | Wait _ => Some op_wait
  | MapFrame _ _ => Some op_map
  | Stbi_write_png _ _ _ _ _ _ => Some op_write
  | UnmapFrame _ _ => Some op_unmap
  | _ => None
  end.

(** the latest of these calls among [d] *)
Definition last_frame_op (d : list event) : option frame_op :=
  last (omap frame_op_of d).

(** a frame is rendered when it is not mapped, waited for after it has
    been rendered, mapped after the wait, written while it is mapped, and
    unmapped after the write *)
Definition frame_order (d : list event) (e : event) : bool :=
  match frame_op_of e, last_frame_op d with
  | None, _ => true
  | Some op_render, (None | Some op_unmap) => true
  | Some op_wait, Some op_render => true
  | Some op_map, Some op_wait => true
  | Some op_write, Some op_map => true
  | Some op_unmap, Some op_write => true
  | _, _ => false
  end.

Definition no_frame_op (e : event) : bool :=
  match frame_op_of e with Some _ => false | None => true end.

(** ** One thread per object: auxiliary definitions *)

(** the call sets a parameter of the object or commits its parameters *)
Definition writes (obj : handle) (e : event) : bool :=
  commits obj e ||
  match parameter_set e with
  | Some p => bool_decide (p.1 = obj)
  | None => false
  end.

(** the thread that sets up an object *)
Definition owner (obj : handle) : tid :=
  match obj with
  | hDevice => t_main
  | hRenderer => t_initRenderer
  | hCamera => t_initCamera
  | hFrame => t_initFrame
  | _ => t_initWorld
  end.

Definition writes_own (t : tid) (e : event) : bool :=
  forallb (fun obj => implb (writes obj e) (bool_decide (owner obj = t)))
          handles.

(** a line on standard output *)
Definition is_stdout (e : event) : bool :=
  match e with Fprintf stdout _ _ | Cout _ => true | _ => false end.

(** the lines on standard output a thread writes in a complete run *)
Definition stdout_lines (t : tid) : nat :=
  match t with
  | t_main => 0
  | t_render => 21
  | _ => 1
  end.

(** ** Properties of the helpers *)

(** The engine is the one of the standard: the 10000th value of a
    default-constructed [std::mt19937] is 4123659995. *)
Example mt19937_check_value :
  (Mt19937.next (Mt19937.discard 9999 Mt19937.default)).1 = 4123659995.
Proof. vm_compute. reflexivity. Qed.

(** [.015f] is the binary32 number 16106127 * 2^-30. *)
Example radius_literal : F32.lit 15 1000 = S754_finite false 16106127 (-30).
Proof. reflexivity. Qed.

Lemma count_app chk l1 l2 : count chk (l1 ++ l2) = (count chk l1 + count chk l2)%nat.
Proof. unfold count. by rewrite List.filter_app, length_app. Qed.

Lemma count_zero chk l : forallb (fun e => negb (chk e)) l = true -> count chk l = 0%nat.
Proof.
  unfold count. induction l as [|e l IH]; simpl; [done|].
  intros [He Hl]%andb_prop. destruct (chk e); [done|]. by apply IH.
Qed.

Lemma events_by_app a tr1 tr2 :
  events_by a (tr1 ++ tr2) = events_by a tr1 ++ events_by a tr2.
Proof. apply omap_app. Qed.

Lemma events_by_cons a a' e tr :
  events_by a ((a', e) :: tr) =
  if decide (a' = a) then e :: events_by a tr else events_by a tr.
Proof. unfold events_by. simpl. by destruct (decide (a' = a)). Qed.

Lemma events_by_one a a' e :
  events_by a [(a', e)] = if decide (a' = a) then [e] else [].
Proof. by rewrite events_by_cons. Qed.

Lemma events_by_other a a' (l : list event) :
  a' <> a -> events_by a (map (pair a') l) = [].
Proof.
  intros Hne. induction l as [|e l IH]; [done|].
  rewrite map_cons, events_by_cons. by destruct (decide (a' = a)).
Qed.

Lemma events_by_same a (l : list event) : events_by a (map (pair a) l) = l.
Proof.
  induction l as [|e l IH]; [done|].
  rewrite map_cons, events_by_cons. destruct (decide (a = a)); [|done].
  by rewrite IH.
Qed.

(** ** The semantics, step by step *)

Lemma effect_inv lib e s s' :
  effect lib e s = Some s' ->
  threads s' =
    match e with
    | Spawn t' => update (threads s) t' (Some (start (thread_code lib t')))
    | _ => threads s
    end /\
  flags s' =
    match e with
    | Store f b => update (flags s) f b
    | _ => flags s
    end /\
  exited s' = match e with Return st => Some st | _ => exited s end /\
  match e with
  | Spawn t' => threads s t' = None
  | Join t' => finished (threads s t') = true
  | _ => True
  end.
Proof.
  destruct e; simpl; intros H; repeat case_match; by simplify_eq.
Qed.

(** A status report is made of calls of the callback: its invocation,
    a line on standard error, the exit. *)
Lemma statusFunc_prints source severity message e :
  e ∈ (statusFunc source severity message).1 ->
  exists tag,
    e = Fprintf stderr tag [APtr source; AStr message].
Proof.
  destruct severity; simpl; intros He; apply list_elem_of_In in He;
    simpl in He; intuition (subst; eauto).
Qed.

Lemma reported_obs source severity message o :
  o ∈ reported source severity message ->
  o.1 = callback /\
  (o.2 = StatusCallback source severity message \/
   (exists tag, o.2 = Fprintf stderr tag [APtr source; AStr message]) \/
   exists st, o.2 = Exit st).
Proof.
  unfold reported.
  pose proof (statusFunc_prints source severity message) as Hp.
  destruct (statusFunc source severity message) as [out how]. simpl in Hp.
  intros [->|[Hin|Hin]%elem_of_app]%elem_of_cons.
  - simpl. eauto.
  - apply list_elem_of_fmap in Hin as (e & -> & He). simpl. eauto.
  - destruct how; [by apply elem_of_nil in Hin|].
    apply list_elem_of_singleton in Hin as ->. simpl. eauto.
Qed.

Lemma events_by_reported a source severity message :
  a <> callback -> events_by a (reported source severity message) = [].
Proof.
  intros Hne. unfold reported.
  destruct (statusFunc source severity message) as [out how].
  rewrite events_by_cons. destruct (decide (callback = a)); [done|].
  rewrite events_by_app, events_by_other by done.
  destruct how; [done|]. rewrite events_by_one.
  by destruct (decide (callback = a)).
Qed.

(** A step is a call of one thread, or a status report by the library. *)
Lemma step_inv lib s os s' :
  step lib s os s' ->
  exited s = None /\
  ((exists t st e st',
      threads s t = Some st /\
      thread_step (flags s) st = Some (e, st') /\
      effect lib e (mksys (update (threads s) t (Some st')) (flags s)
                          (exited s)) = Some s' /\
      os = [(thread t, e)]) \/
   (exists source severity message,
      os = reported source severity message /\
      threads s' = threads s /\
      flags s' = flags s /\
      exited s' = match (statusFunc source severity message).2 with
                  | Exits st => Some st
                  | Returns => None
                  end)).
Proof.
  intros [c Hc]. unfold step_fn in Hc.
  destruct (exited s) eqn:Hex; [done|]. split; [done|].
  destruct c as [t|source severity message].
  - left. destruct (threads s t) as [st|] eqn:Ht; [|done].
    destruct (thread_step (flags s) st) as [[e st']|] eqn:Hst; [|done].
    destruct (effect lib e _) as [s1|] eqn:He; [|done].
    simplify_eq. by exists t, st, e, st'.
  - right. exists source, severity, message. by simplify_eq.
Qed.

(** The state after a call [e] of thread [t] that moves it to [st']. *)
Lemma sched_inv lib s t st' e s' :
  effect lib e (mksys (update (threads s) t (Some st')) (flags s)
                      (exited s)) = Some s' ->
  (forall t0, threads s' t0 =
     if decide (t0 = t) then Some st'
     else if decide (spawned e = Some t0)
          then Some (start (thread_code lib t0))
          else threads s t0) /\
  (forall t', spawned e = Some t' -> t' <> t /\ threads s t' = None) /\
  (forall t', joined e = Some t' ->
     t' <> t /\ finished (threads s t') = true \/
     t' = t /\ finished (Some st') = true) /\
  flags s' =
    match e with
    | Store f b => update (flags s) f b
    | _ => flags s
    end /\
  exited s' = match e with Return st => Some st | _ => exited s end.
Proof.
  intros (Hth & Hfl & Hex & Hguard)%effect_inv. simpl in *.
  split_and!; [| | |done|done].
  - intros t0. rewrite Hth.
    destruct e; simpl in *; unfold update in *;
      repeat case_decide; simplify_eq; done.
  - intros t' He. destruct e; simplify_eq/=. unfold update in *.
    by case_decide.
  - intros t' He. destruct e; simplify_eq/=. unfold update in *.
    case_decide; [right|left]; done.
Qed.

Lemma iterations_S l k :
  iterations l (S k) = iterations l k ++ body l k ++ [Load (stop l) false].
Proof.
  unfold iterations. rewrite seq_S, flat_map_app. simpl.
  by rewrite app_nil_r.
Qed.

Lemma at_point_start c : at_point c [] (Some (start c)).
Proof.
  destruct c as [l|l]; simpl.
  - by apply at_running.
  - by apply (at_looping l 0 [] (body l 0)).
Qed.

Lemma at_point_step c done st fl e st' :
  at_point c done (Some st) ->
  thread_step fl st = Some (e, st') ->
  at_point c (done ++ [e]) (Some st').
Proof.
  inversion 1 as [|l d rest Hl|l k d rest Hb|l k d rest Ha]; subst; simpl.
  - destruct rest as [|e' rest]; intros; simplify_eq.
    apply at_running. by rewrite <- app_assoc.
  - destruct rest as [|e' rest]; intros; simplify_eq.
    + rewrite app_nil_r in Hb. destruct (fl (stop l)) eqn:Hfl.
      * rewrite <- app_assoc, <- Hb.
        by apply (at_after l k [] (after l)).
      * rewrite <- app_assoc, <- Hb, <- iterations_S.
        rewrite <- (app_nil_r (iterations l (S k))).
        by apply at_looping.
    + rewrite <- app_assoc. apply at_looping. by rewrite <- app_assoc.
  - destruct rest as [|e' rest]; intros; simplify_eq.
    rewrite <- !app_assoc. simpl.
    apply (at_after l k (d ++ [e]) rest). by rewrite <- app_assoc.
Qed.

(** The calls a thread has made fix the point it is at. *)
Lemma run_at_point lib tr s :
  run lib tr s ->
  forall t, at_point (thread_code lib t) (events_of t tr) (threads s t).
Proof.
  induction 1 as [|tr s os s' Hrun IH Hstep]; intros t0.
  - simpl. destruct (decide (t0 = t_main)) as [->|Hne].
    + by apply (at_running main [] main).
    + unfold initial; simpl. destruct (decide (t0 = t_main)); [done|].
      apply at_unstarted.
  - apply step_inv in Hstep as [Hex [(t & st & e & st' & Ht & Hst & He & ->)|
      (source & severity & message & -> & Hth & _ & _)]].
    + apply sched_inv in He as (Hth & Hsp & _ & _ & _).
      unfold events_of. rewrite events_by_app, events_by_one.
      specialize (IH t0). rewrite Hth.
      destruct (decide (t0 = t)) as [->|Hne].
      * destruct (decide (thread t = thread t)); [|done].
        eapply at_point_step; [|done]. by rewrite <- Ht.
      * destruct (decide (thread t = thread t0)); [congruence|].
        rewrite app_nil_r.
        destruct (decide (spawned e = Some t0)) as [He|]; [|done].
        apply Hsp in He as [_ He]. rewrite He in IH.
        inversion IH as [c Hc Hev Hst0| | |]. unfold events_of in Hev.
        rewrite <- Hev. apply at_point_start.
    + unfold events_of. rewrite events_by_app.
      rewrite Hth.
      rewrite events_by_reported by done.
      rewrite app_nil_r. apply IH.
Qed.

(** ** What the code of a thread says about its calls *)

Lemma forallb_iterations chk l k :
  code_all chk (Forever l) -> forallb chk (iterations l k) = true.
Proof.
  intros (Hb & Hl & _). induction k as [|k IH]; [done|].
  rewrite iterations_S, !forallb_app, IH, Hb. simpl.
  by rewrite (Hl false).
Qed.

Lemma at_point_all chk c done st :
  at_point c done st -> code_all chk c -> forallb chk done = true.
Proof.
  inversion 1 as [|l d rest Hl|l k d rest Hb|l k d rest Ha]; subst;
    [done|simpl|intros Hc..].
  - rewrite forallb_app. by intros [-> _]%andb_prop.
  - rewrite forallb_app, forallb_iterations by done. simpl.
    destruct Hc as (Hc & _). specialize (Hc k).
    rewrite Hb, forallb_app in Hc. by apply andb_prop in Hc as [-> _].
  - rewrite !forallb_app, forallb_iterations by done.
    destruct Hc as (Hc & Hl & Hafter). rewrite Hc. simpl.
    rewrite (Hl true). simpl.
    rewrite Ha, forallb_app in Hafter.
    by apply andb_prop in Hafter as [-> _].
Qed.

Lemma run_all chk lib t tr s :
  run lib tr s ->
  code_all chk (thread_code lib t) ->
  forallb chk (events_of t tr) = true.
Proof. intros Hrun. eapply at_point_all, run_at_point, Hrun. Qed.

(** The next call of a thread is a call of its code. *)
Lemma next_in_code chk lib t tr s st e st' :
  run lib tr s ->
  threads s t = Some st ->
  thread_step (flags s) st = Some (e, st') ->
  code_all chk (thread_code lib t) ->
  chk e = true.
Proof.
  intros Hrun Ht Hst Hc.
  pose proof (run_at_point _ _ _ Hrun t) as Hat. rewrite Ht in Hat.
  eapply at_point_step in Hat; [|done].
  eapply at_point_all in Hat; [|done].
  rewrite forallb_app in Hat. apply andb_prop in Hat as [_ He].
  simpl in He. by rewrite andb_true_r in He.
Qed.

(** A thread with straight code has made a prefix of its calls. *)
Lemma run_straight lib t l tr s :
  run lib tr s ->
  thread_code lib t = Straight l ->
  (threads s t = None /\ events_of t tr = []) \/
  (exists rest,
     threads s t = Some (Running rest) /\ l = events_of t tr ++ rest).
Proof.
  intros Hrun Hc. pose proof (run_at_point _ _ _ Hrun t) as Hat.
  rewrite Hc in Hat. inversion Hat; subst; eauto.
Qed.

Lemma run_straight_prefix lib t l tr s :
  run lib tr s ->
  thread_code lib t = Straight l ->
  exists rest, l = events_of t tr ++ rest.
Proof.
  intros Hrun Hc.
  destruct (run_straight _ _ _ _ _ Hrun Hc) as [[_ ->]|(rest & _ & ->)];
    eauto.
Qed.

Lemma run_straight_finished lib t l tr s :
  run lib tr s ->
  thread_code lib t = Straight l ->
  finished (threads s t) = true ->
  events_of t tr = l.
Proof.
  intros Hrun Hc Hfin.
  destruct (run_straight _ _ _ _ _ Hrun Hc) as [[Hs _]|(rest & Hs & ->)];
    rewrite Hs in Hfin; [done|].
  destruct rest; [|done]. by rewrite app_nil_r.
Qed.

(** A polling thread that has ended went round its loop some number of
    times, found the flag set, and made its last calls. *)
Lemma run_forever_finished lib t l tr s :
  run lib tr s ->
  thread_code lib t = Forever l ->
  finished (threads s t) = true ->
  exists k,
    events_of t tr =
    iterations l k ++ body l k ++ [Load (stop l) true] ++ after l.
Proof.
  intros Hrun Hc Hfin. pose proof (run_at_point _ _ _ Hrun t) as Hat.
  rewrite Hc in Hat.
  destruct (threads s t) as [[rest|l' k' rest]|]; try done.
  destruct rest; [|done].
  inversion Hat as [| | |? k d rest Ha]; subst.
  rewrite app_nil_r in Ha. exists k. by rewrite Ha.
Qed.

(** ** Checks on the code of the threads *)

Ltac check_code :=
  repeat match goal with
    | |- _ /\ _ => split
    | |- forall _, _ => intro
    end;
  try (unfold queryExtensionThread, deviceHasExtension; simpl;
       match goal with
       | |- context [deviceHasExtension_scan ?a ?b] =>
           destruct (deviceHasExtension_scan a b)
       end);
  lazy; reflexivity.

Lemma code_no_control lib t :
  t <> t_main -> code_all no_control (thread_code lib t).
Proof. destruct t; intros Ht; try done; simpl; check_code. Qed.

Lemma code_no_store lib t :
  t <> t_render -> code_all no_store (thread_code lib t).
Proof. destruct t; intros Ht; try done; simpl; check_code. Qed.

Lemma code_no_write lib t :
  t <> t_render -> code_all no_write (thread_code lib t).
Proof. destruct t; intros Ht; try done; simpl; check_code. Qed.

Lemma code_stores_true lib t : code_all stores_true (thread_code lib t).
Proof. destruct t; simpl; check_code. Qed.

Lemma code_returns_zero lib t : code_all returns_zero (thread_code lib t).
Proof. destruct t; simpl; check_code. Qed.

(** ** Invariants of the process *)

(** A thread that has ended stays so. *)
Lemma finished_stable lib s os s' t :
  step lib s os s' ->
  finished (threads s t) = true ->
  finished (threads s' t) = true.
Proof.
  intros [_ [(t1 & st & e & st' & Ht & Hst & He & ->)|
    (source & severity & message & -> & Hth & _ & _)]]%step_inv Hfin.
  - apply sched_inv in He as (Hth & Hsp & _). rewrite Hth.
    destruct (decide (t = t1)) as [->|].
    { rewrite Ht in Hfin. by destruct st as [[|? ?]|]. }
    destruct (decide (spawned e = Some t)) as [He|]; [|done].
    apply Hsp in He as [_ He]. by rewrite He in Hfin.
  - by rewrite Hth.
Qed.

(** A thread that has been joined has ended. *)
Lemma joined_finished lib tr s a t :
  run lib tr s -> (a, Join t) ∈ tr -> finished (threads s t) = true.
Proof.
  induction 1 as [|tr s os s' Hrun IH Hstep]; [by intros ?%elem_of_nil|].
  intros [Hin|Hin]%elem_of_app.
  { eapply finished_stable; eauto. }
  apply step_inv in Hstep as [_ [(t1 & st & e & st' & Ht & Hst & He & ->)|
    (source & severity & message & -> & Hth & _ & _)]].
  - apply list_elem_of_singleton in Hin. simplify_eq.
    apply sched_inv in He as (Hth & _ & Hj & _). rewrite Hth.
    destruct (Hj t eq_refl) as [[Hne Hfin]|[-> Hfin]].
    + destruct (decide (t = t1)); [done|]. simpl.
      by destruct (decide (None = Some t)).
    + by destruct (decide (t1 = t1)).
  - apply reported_obs in Hin as [_ [?|[[? ?]|[? ?]]]]; done.
Qed.

Lemma spawned_inv e t : spawned e = Some t -> e = Spawn t.
Proof. destruct e; simpl; congruence. Qed.

Lemma joined_inv e t : joined e = Some t -> e = Join t.
Proof. destruct e; simpl; congruence. Qed.

(** Only [main] starts threads: a started thread is [main] or has been
    spawned by it. *)
Lemma started_spawned lib tr s t :
  run lib tr s ->
  threads s t <> None ->
  t = t_main \/ Spawn t ∈ events_of t_main tr.
Proof.
  induction 1 as [|tr s os s' Hrun IH Hstep].
  { unfold initial. simpl. destruct (decide (t = t_main)); naive_solver. }
  pose proof Hstep as
    [_ [(t1 & st & e & st' & Ht & Hst & He & ->)|
        (source & severity & message & -> & Hth & _ & _)]]%step_inv.
  - apply sched_inv in He as (Hth & _). rewrite Hth.
    unfold events_of. rewrite events_by_app.
    destruct (decide (t = t1)) as [->|Hne].
    { intros _. assert (threads s t1 <> None) as Hs by (by rewrite Ht).
      destruct (IH Hs) as [->|Hin]; [by left|].
      right. apply elem_of_app. by left. }
    destruct (decide (spawned e = Some t)) as [Hsp|].
    + intros _. right. apply spawned_inv in Hsp as ->.
      destruct (decide (t1 = t_main)) as [->|Hnm].
      * rewrite events_by_one. destruct (decide (thread t_main = thread t_main)); [|done].
        apply elem_of_app. right. by apply list_elem_of_singleton.
      * pose proof (next_in_code no_control _ _ _ _ _ _ _ Hrun Ht Hst
                      (code_no_control lib t1 Hnm)). done.
    + intros Hs. destruct (IH Hs) as [->|Hin]; [by left|].
      right. apply elem_of_app. by left.
  - rewrite Hth. intros Hs. destruct (IH Hs) as [->|Hin]; [by left|].
    right. unfold events_of. rewrite events_by_app. apply elem_of_app. by left.
Qed.

(** A thread that has been spawned is started. *)
Lemma spawned_started lib tr s a t :
  run lib tr s -> (a, Spawn t) ∈ tr -> threads s t <> None.
Proof.
  induction 1 as [|tr s os s' Hrun IH Hstep]; [by intros ?%elem_of_nil|].
  apply step_inv in Hstep as [_ [(t1 & st & e & st' & Ht & Hst & He & ->)|
    (source & severity & message & -> & Hth & _ & _)]].
  - apply sched_inv in He as (Hth & _). rewrite Hth.
    intros [Hin|Hin]%elem_of_app.
    + destruct (decide (t = t1)); [done|].
      destruct (decide (spawned e = Some t)); [done|]. by apply IH.
    + apply list_elem_of_singleton in Hin. simplify_eq. simpl.
      destruct (decide (t = t1)); [done|].
      by destruct (decide (Some t = Some t)).
  - rewrite Hth. intros [Hin|Hin]%elem_of_app; [by apply IH|].
    apply reported_obs in Hin as [_ [?|[[? ?]|[? ?]]]]; done.
Qed.

Lemma events_of_snoc t e tr : e ∈ events_of t (tr ++ [(thread t, e)]).
Proof.
  unfold events_of. rewrite events_by_app, events_by_one.
  destruct (decide (thread t = thread t)); [|done].
  apply elem_of_app. right. by apply list_elem_of_singleton.
Qed.

Lemma events_of_mono t e tr os :
  e ∈ events_of t tr -> e ∈ events_of t (tr ++ os).
Proof.
  unfold events_of. rewrite events_by_app. intros. apply elem_of_app.
  by left.
Qed.

Lemma stored_inv e f b : stored e = Some (f, b) -> e = Store f b.
Proof. destruct e; simpl; congruence. Qed.

Lemma flags_after e (fl fl' : flag -> bool) f :
  fl' = match e with Store f' b => update fl f' b | _ => fl end ->
  fl' f = match stored e with
          | Some (f', b) => if decide (f = f') then b else fl f
          | None => fl f
          end.
Proof. intros ->. by destruct e. Qed.

(** A stop flag that is set has been set by the render thread. *)
Lemma flag_set_stored lib tr s f :
  run lib tr s ->
  flags s f = true ->
  Store f true ∈ events_of t_render tr.
Proof.
  induction 1 as [|tr s os s' Hrun IH Hstep]; [done|].
  pose proof Hstep as
    [_ [(t1 & st & e & st' & Ht & Hst & He & ->)|
        (source & severity & message & -> & _ & Hfl & _)]]%step_inv.
  - apply sched_inv in He as (_ & _ & _ & Hfl & _).
    rewrite (flags_after _ _ _ f Hfl).
    destruct (stored e) as [[f' b]|] eqn:Hsto;
      [|by intros; apply events_of_mono, IH].
    apply stored_inv in Hsto as ->.
    destruct (decide (f = f')) as [<-|];
      [|by intros; apply events_of_mono, IH].
    intros ->. destruct (decide (t1 = t_render)) as [->|Hne].
    + apply events_of_snoc.
    + pose proof (next_in_code no_store _ _ _ _ _ _ _ Hrun Ht Hst
                    (code_no_store lib t1 Hne)). done.
  - rewrite Hfl. intros. by apply events_of_mono, IH.
Qed.

(** A stop flag that has been set stays set. *)
Lemma stored_flag_set lib tr s a f :
  run lib tr s -> (a, Store f true) ∈ tr -> flags s f = true.
Proof.
  induction 1 as [|tr s os s' Hrun IH Hstep]; [by intros ?%elem_of_nil|].
  pose proof Hstep as
    [_ [(t1 & st & e & st' & Ht & Hst & He & ->)|
        (source & severity & message & -> & _ & Hfl & _)]]%step_inv.
  - apply sched_inv in He as (_ & _ & _ & Hfl & _).
    rewrite (flags_after _ _ _ f Hfl).
    pose proof (next_in_code stores_true _ _ _ _ _ _ _ Hrun Ht Hst
                  (code_stores_true lib t1)) as Htrue.
    intros [Hin|Hin]%elem_of_app.
    + destruct (stored e) as [[f' b]|] eqn:Hsto; [|by apply IH].
      apply stored_inv in Hsto as ->. simpl in Htrue. subst b.
      destruct (decide (f = f')); [done|by apply IH].
    + apply list_elem_of_singleton in Hin. simplify_eq. simpl.
      by destruct (decide (f = f)).
  - rewrite Hfl. intros [Hin|Hin]%elem_of_app; [by apply IH|].
    apply reported_obs in Hin as [_ [?|[[? ?]|[? ?]]]]; done.
Qed.

Lemma reported_cases source severity message :
  (severity = ANARI_SEVERITY_FATAL_ERROR /\
   reported source severity message = fatal_report source message /\
   (statusFunc source severity message).2 = Exits 1) \/
  (severity <> ANARI_SEVERITY_FATAL_ERROR /\
   forallb quiet (reported source severity message) = true /\
   (statusFunc source severity message).2 = Returns).
Proof. destruct severity; [left|right..]; done. Qed.

(** The process ends in one of two ways: [main] returns 0, or a fatal
    status report exits with 1. Until then nothing of the kind is in the
    trace. *)
Lemma run_exit lib tr s :
  run lib tr s ->
  match exited s with
  | None => forallb quiet tr = true
  | Some st =>
      exists tr0,
        forallb quiet tr0 = true /\
        ((st = 0 /\ tr = tr0 ++ [(thread t_main, Return 0)]) \/
         (st = 1 /\ exists source message,
                      tr = tr0 ++ fatal_report source message))
  end.
Proof.
  induction 1 as [|tr s os s' Hrun IH Hstep]; [done|].
  pose proof Hstep as
    [Hex [(t1 & st & e & st' & Ht & Hst & He & ->)|
        (source & severity & message & -> & _ & _ & Hex')]]%step_inv.
  - rewrite Hex in IH.
    apply sched_inv in He as (_ & _ & _ & _ & Hex'). rewrite Hex'.
    pose proof (next_in_code returns_zero _ _ _ _ _ _ _ Hrun Ht Hst
                  (code_returns_zero lib t1)) as Hz.
    destruct (is_exit e) eqn:Hie.
    + destruct e; try done. simpl in Hz. apply bool_decide_eq_true in Hz.
      subst. exists tr. split; [done|]. left. split; [done|].
      destruct (decide (t1 = t_main)) as [->|Hne]; [done|].
      pose proof (next_in_code no_control _ _ _ _ _ _ _ Hrun Ht Hst
                    (code_no_control lib t1 Hne)). done.
    + assert (forallb quiet (tr ++ [(thread t1, e)]) = true) as Hq.
      { rewrite forallb_app, IH. unfold quiet. simpl. rewrite Hie.
        by destruct e. }
      destruct e; try done; by rewrite Hex.
  - rewrite Hex in IH. rewrite Hex'.
    destruct (reported_cases source severity message)
      as [(-> & -> & ->)|(Hne & Hq & ->)].
    + exists tr. split; [done|]. right. eauto.
    + by rewrite forallb_app, IH, Hq.
Qed.

Lemma events_by_elem a e tr : e ∈ events_by a tr <-> (a, e) ∈ tr.
Proof.
  unfold events_by. rewrite list_elem_of_omap. split.
  - intros ([a' e'] & Hin & Heq). simpl in Heq.
    destruct (decide (a' = a)); by simplify_eq.
  - intros Hin. exists (a, e). split; [done|]. simpl.
    by destruct (decide (a = a)).
Qed.

(** A call that passes a check which nothing before the last call of a
    list passes is that last call. *)
Lemma only_last (chk : event -> bool) init x d y rest :
  forallb (fun e => negb (chk e)) init = true ->
  chk y = true ->
  init ++ [x] = d ++ y :: rest ->
  rest = [].
Proof.
  revert d. induction init as [|a init IH]; intros d Hinit Hy Heq.
  - destruct d as [|? [|? ?]]; by simplify_eq/=.
  - simpl in Hinit. apply andb_prop in Hinit as [Ha Hinit].
    destruct d as [|a' d]; simplify_eq/=.
    + by rewrite Hy in Ha.
    + by eapply IH.
Qed.

Lemma main_ends done rest : main = (done ++ [Return 0]) ++ rest -> rest = [].
Proof.
  rewrite <- app_assoc. simpl.
  change main with (take 28 main ++ [Return 0]).
  by apply (only_last is_exit).
Qed.

Ltac find_in :=
  apply list_elem_of_In; simpl; repeat (first [by left | right]).

Lemma main_joins t : t <> t_main -> Join t ∈ main.
Proof. destruct t; intros Ht; try done; find_in. Qed.

Lemma main_spawns t : t <> t_main -> Spawn t ∈ main.
Proof. destruct t; intros Ht; try done; find_in. Qed.

(** When [main] has returned, it has made all its calls, every other
    thread has ended, and no fatal status was reported. *)
Lemma exit_zero lib tr s :
  run lib tr s ->
  exited s = Some 0 ->
  events_of t_main tr = main /\
  (forall t, t <> t_main -> finished (threads s t) = true) /\
  exists tr0,
    tr = tr0 ++ [(thread t_main, Return 0)] /\ forallb quiet tr0 = true.
Proof.
  intros Hrun Hex. pose proof (run_exit _ _ _ Hrun) as Hend.
  rewrite Hex in Hend.
  destruct Hend as (tr0 & Hq & [[_ ->]|[? _]]); [|done].
  assert (events_of t_main (tr0 ++ [(thread t_main, Return 0)]) = main)
    as Hmain.
  { destruct (run_straight_prefix lib t_main main _ _ Hrun eq_refl)
      as [rest Hrest].
    unfold events_of in *. rewrite events_by_app, events_by_one in *.
    destruct (decide (thread t_main = thread t_main)); [|done].
    pose proof (main_ends _ _ Hrest) as ->. by rewrite app_nil_r in Hrest. }
  split_and!; [done| |eauto].
  intros t Ht. eapply (joined_finished _ _ _ (thread t_main)); [done|].
  apply events_by_elem. unfold events_of in Hmain. rewrite Hmain.
  by apply main_joins.
Qed.

(** ** Counting calls *)

Lemma count_cons chk e l :
  count chk (e :: l) = ((if chk e then 1 else 0) + count chk l)%nat.
Proof. unfold count. simpl. by destruct (chk e). Qed.

(** Every call is made by one actor. *)
Lemma count_by_actor chk tr :
  count chk (map snd tr) =
  sum_list (map (fun a => count chk (events_by a tr)) all_actors).
Proof.
  induction tr as [|[a e] tr IH]; [done|].
  rewrite map_cons, count_cons, IH. unfold all_actors, all_threads.
  cbn [map sum_list foldr]. rewrite !events_by_cons.
  destruct a as [[]|]; cbn [decide decide_rel actor_eq_dec]; simpl;
    rewrite ?count_cons; lia.
Qed.

Lemma run_callback lib tr s :
  run lib tr s -> forallb callback_call (events_by callback tr) = true.
Proof.
  induction 1 as [|tr s os s' Hrun IH Hstep]; [done|].
  rewrite events_by_app, forallb_app, IH. simpl.
  apply step_inv in Hstep as [_ [(t1 & st & e & st' & Ht & Hst & He & ->)|
    (source & severity & message & -> & _)]].
  - by rewrite events_by_one.
  - apply forallb_forall. intros e Hin%list_elem_of_In%events_by_elem.
    apply reported_obs in Hin as [_ [?|[[? ?]|[? ?]]]]; simpl in *;
      by subst.
Qed.

Lemma count_none chk (ok : event -> bool) l :
  forallb ok l = true ->
  (forall e, ok e = true -> chk e = false) ->
  count chk l = 0%nat.
Proof.
  intros Hl Hok. apply count_zero. apply forallb_forall. intros e He.
  rewrite forallb_forall in Hl. by rewrite (Hok e (Hl e He)).
Qed.

Lemma code_no_lifetime lib t :
  t <> t_main -> t <> t_initWorld ->
  code_all no_lifetime (thread_code lib t).
Proof. destruct t; intros Hm Hw; try done; simpl; check_code. Qed.

(** In a run that [main] has ended, the calls that manage handles are
    those of [main] and of [initializeWorld]. *)
Lemma count_lifetime lib tr s chk :
  run lib tr s ->
  exited s = Some 0 ->
  (forall e, no_lifetime e = true -> chk e = false) ->
  (forall e, callback_call e = true -> chk e = false) ->
  count chk (map snd tr) =
  (count chk main + count chk (initWorldThread lib))%nat.
Proof.
  intros Hrun Hex Hlife Hcb.
  destruct (exit_zero _ _ _ Hrun Hex) as (Hmain & Hfin & _).
  rewrite count_by_actor. unfold all_actors, all_threads.
  cbn [map sum_list foldr].
  rewrite (count_none chk _ _ (run_callback _ _ _ Hrun) Hcb).
  fold (events_of t_main tr). rewrite Hmain.
  fold (events_of t_initWorld tr).
  rewrite (run_straight_finished lib t_initWorld _ _ _ Hrun eq_refl)
    by by apply Hfin.
  assert (forall t, t <> t_main -> t <> t_initWorld ->
            count chk (events_by (thread t) tr) = 0%nat) as Hother.
  { intros t Hm Hw.
    apply (count_none chk no_lifetime); [|done].
    by apply (run_all _ _ _ _ _ Hrun), code_no_lifetime. }
  rewrite !Hother by done. unfold id. lia.
Qed.

(** ** Progress: the process can always move towards its end *)

Lemma started_stays lib s os s' t :
  step lib s os s' -> threads s t <> None -> threads s' t <> None.
Proof.
  intros [_ [(t1 & st & e & st' & Ht & Hst & He & ->)|
    (source & severity & message & -> & Hth & _ & _)]]%step_inv Hs.
  - apply sched_inv in He as (Hth & _). rewrite Hth.
    destruct (decide (t = t1)); [done|].
    by destruct (decide (spawned e = Some t)).
  - by rewrite Hth.
Qed.

Lemma main_running lib tr s :
  run lib tr s ->
  exists rest,
    threads s t_main = Some (Running rest) /\
    main = events_of t_main tr ++ rest.
Proof.
  intros Hrun.
  assert (threads s t_main <> None) as Hs.
  { clear -Hrun. induction Hrun; [done|]. by eapply started_stays. }
  by destruct (run_straight lib t_main main _ _ Hrun eq_refl)
    as [[? _]|?].
Qed.

Lemma splits_all_spec P d0 l d e r :
  splits_all P d0 l = true -> l = d ++ e :: r -> P (d0 ++ d) e = true.
Proof.
  revert d0 d. induction l as [|a l IH]; intros d0 d Hall Heq.
  - by destruct d.
  - simpl in Hall. apply andb_prop in Hall as [Ha Hl].
    destruct d as [|a' d]; simplify_eq/=.
    + by rewrite app_nil_r.
    + replace (d0 ++ a' :: d) with ((d0 ++ [a']) ++ d)
        by (by rewrite <- app_assoc).
      by eapply IH.
Qed.

Lemma main_order_ok : splits_all main_order [] main = true.
Proof. reflexivity. Qed.

Lemma main_spawn_fresh d t r :
  main = d ++ Spawn t :: r -> t <> t_main /\ Spawn t ∉ d.
Proof.
  intros Heq. pose proof (splits_all_spec _ _ _ _ _ _ main_order_ok Heq)
    as Hord. unfold main_order in Hord. rewrite app_nil_l in Hord.
  apply andb_prop in Hord as [Hne Hd]. split.
  - apply negb_true_iff, bool_decide_eq_false in Hne. done.
  - intros Hin. rewrite forallb_forall in Hd.
    apply list_elem_of_In, Hd in Hin. simpl in Hin.
    by rewrite bool_decide_eq_true_2 in Hin.
Qed.

Lemma main_join_late d t r :
  main = d ++ Join t :: r ->
  t <> t_main /\ forall t', t' <> t_main -> Spawn t' ∈ d.
Proof.
  intros Heq. pose proof (splits_all_spec _ _ _ _ _ _ main_order_ok Heq)
    as Hord. unfold main_order in Hord. rewrite app_nil_l in Hord.
  apply andb_prop in Hord as [Hne Hd]. split.
  - apply negb_true_iff, bool_decide_eq_false in Hne. done.
  - intros t' Ht'. rewrite forallb_forall in Hd.
    assert (In t' all_threads) as Hin by (destruct t'; simpl; tauto).
    apply Hd in Hin. apply orb_prop in Hin as [Hin|Hin].
    { by apply bool_decide_eq_true in Hin. }
    apply existsb_exists in Hin as (e' & Hin & He').
    apply bool_decide_eq_true, spawned_inv in He' as ->.
    by apply list_elem_of_In.
Qed.

Lemma thread_work_start c : thread_work c (Some (start c)) = size c.
Proof. by destruct c. Qed.

(** A call of a thread shortens what it has left, except for the test
    of an unset stop flag, which sends the thread round its loop. *)
Lemma thread_step_work c fl st e st' :
  thread_step fl st = Some (e, st') ->
  match st with
  | Looping l _ [] => fl (stop l) = true
  | _ => True
  end ->
  (thread_work c (Some st') < thread_work c (Some st))%nat.
Proof.
  destruct st as [[|e0 rest]|l k [|e0 rest]]; simpl; intros Hst Hfl;
    simplify_eq/=; try lia.
  rewrite Hfl. simpl. lia.
Qed.

Lemma sum_list_change (f g : tid -> nat) (l : list tid) t :
  NoDup l ->
  (forall t0, t0 <> t -> f t0 = g t0) ->
  (t ∈ l -> (f t < g t)%nat) ->
  (sum_list (map f l) + (if bool_decide (t ∈ l) then 1 else 0)
   <= sum_list (map g l))%nat.
Proof.
  intros Hnd Hother. induction Hnd as [|a l Ha Hnd IH]; intros Ht.
  { simpl. lia. }
  simpl. destruct (decide (a = t)) as [->|Hne].
  - rewrite bool_decide_eq_true_2 by left.
    assert (sum_list (map f l) <= sum_list (map g l))%nat.
    { rewrite bool_decide_eq_false_2 in IH by done.
      assert (t ∈ l -> (f t < g t)%nat) as Hno by done.
      specialize (IH Hno). lia. }
    assert (f t < g t)%nat by (apply Ht; left). lia.
  - rewrite (Hother a Hne).
    assert (bool_decide (t ∈ a :: l) = bool_decide (t ∈ l)) as ->.
    { apply bool_decide_ext. rewrite elem_of_cons.
      split; [intros [?|?]; [congruence|done]|auto]. }
    assert (t ∈ l -> (f t < g t)%nat) as Ht'.
    { intros. apply Ht. by right. }
    specialize (IH Ht'). lia.
Qed.

Lemma all_threads_nodup : NoDup all_threads.
Proof.
  apply NoDup_ListNoDup. repeat constructor; simpl; intuition congruence.
Qed.

Lemma all_threads_elem t : t ∈ all_threads.
Proof. apply list_elem_of_In. destruct t; simpl; tauto. Qed.

Lemma step_fn_sched lib s t st e st' s' :
  exited s = None ->
  threads s t = Some st ->
  thread_step (flags s) st = Some (e, st') ->
  effect lib e (mksys (update (threads s) t (Some st')) (flags s)
                      (exited s)) = Some s' ->
  step_fn lib s (sched t) = Some ([(thread t, e)], s').
Proof. unfold step_fn. by intros -> -> -> ->. Qed.

(** A call that shortens what its thread has left shortens what the
    process has left. *)
Lemma sched_progress lib s t st e st' s' :
  exited s = None ->
  threads s t = Some st ->
  thread_step (flags s) st = Some (e, st') ->
  effect lib e (mksys (update (threads s) t (Some st')) (flags s)
                      (exited s)) = Some s' ->
  match st with
  | Looping l _ [] => flags s (stop l) = true
  | _ => True
  end ->
  step_fn lib s (sched t) = Some ([(thread t, e)], s') /\
  (work lib s' < work lib s)%nat.
Proof.
  intros Hex Ht Hst He Hfl. split; [by apply step_fn_sched with st st'|].
  apply sched_inv in He as (Hth & Hsp & _).
  pose proof (sum_list_change
    (fun t0 => thread_work (thread_code lib t0) (threads s' t0))
    (fun t0 => thread_work (thread_code lib t0) (threads s t0))
    all_threads t all_threads_nodup) as Hsum.
  rewrite bool_decide_eq_true_2 in Hsum by apply all_threads_elem.
  unfold work. apply Nat.lt_le_trans with
    (sum_list (map (fun t0 => thread_work (thread_code lib t0) (threads s' t0))
                   all_threads) + 1)%nat; [lia|].
  apply Hsum.
  - intros t0 Hne. rewrite Hth. destruct (decide (t0 = t)); [done|].
    destruct (decide (spawned e = Some t0)) as [He|]; [|done].
    apply Hsp in He as [_ ->]. apply thread_work_start.
  - intros _. rewrite Hth, Ht. destruct (decide (t = t)); [|done].
    by eapply thread_step_work.
Qed.

Lemma effect_enabled lib e s :
  (forall t', spawned e = Some t' -> threads s t' = None) ->
  (forall t', joined e = Some t' -> finished (threads s t') = true) ->
  exists s', effect lib e s = Some s'.
Proof.
  intros Hsp Hj. destruct e; simpl in *; eauto.
  - rewrite Hsp by done. eauto.
  - rewrite Hj by done. eauto.
Qed.

Lemma stores_in_render lib f : Store f true ∈ renderThread lib.
Proof.
  unfold renderThread. apply elem_of_app. right. destruct f; find_in.
Qed.

(** When the render thread has ended, the three stop flags are set. *)
Lemma render_done_flags lib tr s f :
  run lib tr s -> finished (threads s t_render) = true -> flags s f = true.
Proof.
  intros Hrun Hfin. apply (stored_flag_set lib tr s (thread t_render));
    [done|].
  apply events_by_elem. fold (events_of t_render tr).
  rewrite (run_straight_finished lib t_render _ _ _ Hrun eq_refl Hfin).
  apply stores_in_render.
Qed.

Lemma no_control_inv e :
  no_control e = true -> spawned e = None /\ joined e = None.
Proof. by destruct e. Qed.

(** A thread other than [main] with calls left can make its next call,
    which brings the process nearer to its end unless it is the test of
    an unset stop flag. *)
Lemma other_progress lib tr s t st :
  run lib tr s ->
  exited s = None ->
  t <> t_main ->
  threads s t = Some st ->
  finished (Some st) = false ->
  match st with
  | Looping l _ [] => flags s (stop l) = true
  | _ => True
  end ->
  exists e s',
    step_fn lib s (sched t) = Some ([(thread t, e)], s') /\
    (work lib s' < work lib s)%nat.
Proof.
  intros Hrun Hex Hne Ht Hfin Hfl.
  assert (exists e st', thread_step (flags s) st = Some (e, st'))
    as (e & st' & Hst).
  { destruct st as [[|? ?]|l k [|? ?]]; simpl; eauto. done. }
  pose proof (next_in_code no_control _ _ _ _ _ _ _ Hrun Ht Hst
                (code_no_control lib t Hne)) as [Hsp Hj]%no_control_inv.
  destruct (effect_enabled lib e
              (mksys (update (threads s) t (Some st')) (flags s) (exited s)))
    as [s' He].
  { intros t'. by rewrite Hsp. }
  { intros t'. by rewrite Hj. }
  exists e, s'. by eapply sched_progress.
Qed.

(** Until the process has ended, some thread can make a call that brings
    it nearer to its end. *)
Lemma progress lib tr s :
  run lib tr s ->
  exited s = None ->
  exists t e s',
    step_fn lib s (sched t) = Some ([(thread t, e)], s') /\
    (work lib s' < work lib s)%nat.
Proof.
  intros Hrun Hex.
  destruct (main_running _ _ _ Hrun) as (rest & Hm & Hmain).
  destruct rest as [|e rest].
  { (* [main] has returned, so the process has ended *)
    pose proof (run_exit _ _ _ Hrun) as Hq. rewrite Hex in Hq.
    rewrite app_nil_r in Hmain.
    assert ((thread t_main, Return 0) ∈ tr) as Hin.
    { apply events_by_elem. fold (events_of t_main tr). rewrite <- Hmain.
      find_in. }
    rewrite forallb_forall in Hq. apply list_elem_of_In, Hq in Hin. done. }
  assert (forall s',
    effect lib e (mksys (update (threads s) t_main (Some (Running rest)))
                        (flags s) (exited s)) = Some s' ->
    exists t e s',
      step_fn lib s (sched t) = Some ([(thread t, e)], s') /\
      (work lib s' < work lib s)%nat) as Hmain_step.
  { intros s' He. exists t_main, e, s'.
    by eapply sched_progress. }
  destruct (joined e) as [t'|] eqn:Hj.
  - (* [main] is about to join the thread [t'] *)
    apply joined_inv in Hj as ->.
    destruct (main_join_late _ _ _ Hmain) as [Hne Hspawned].
    destruct (finished (threads s t')) eqn:Hfin.
    { apply (Hmain_step
               (mksys (update (threads s) t_main (Some (Running rest)))
                      (flags s) (exited s))).
      simpl. unfold update. destruct (decide (t' = t_main)); [done|].
      by rewrite Hfin. }
    assert (forall t, t <> t_main -> threads s t <> None) as Hstarted.
    { intros t Ht. apply (spawned_started lib tr s (thread t_main)); [done|].
      apply events_by_elem. by apply Hspawned. }
    destruct (threads s t') as [st|] eqn:Ht'; [|by destruct (Hstarted t')].
    assert (match st with
            | Looping l _ [] => flags s (stop l) = true
            | _ => True
            end \/
            exists l k, st = Looping l k [] /\ flags s (stop l) = false)
      as [Hfl|(l & k & -> & Hfl)].
    { destruct st as [|l k [|? ?]]; auto.
      destruct (flags s (stop l)) eqn:?; eauto. }
    { destruct (other_progress _ _ _ _ _ Hrun Hex Hne Ht' Hfin Hfl)
        as (e & s' & ?). by exists t', e, s'. }
    (* [t'] would go round its loop again: the render thread has not
       ended, and can go on *)
    destruct (threads s t_render) as [str|] eqn:Hr;
      [|by destruct (Hstarted t_render)].
    destruct (finished (Some str)) eqn:Hrfin.
    { rewrite <- Hr in Hrfin.
      by rewrite (render_done_flags _ _ _ (stop l) Hrun Hrfin) in Hfl. }
    assert (match str with
            | Looping l _ [] => flags s (stop l) = true
            | _ => True
            end) as Hrfl.
    { pose proof (run_at_point _ _ _ Hrun t_render) as Hat.
      rewrite Hr in Hat. by inversion Hat. }
    destruct (other_progress _ _ _ _ _ Hrun Hex
                (ltac:(done) : t_render <> t_main) Hr Hrfin Hrfl)
      as (e & s' & ?). by exists t_render, e, s'.
  - (* any other call of [main] can be made at once *)
    destruct (effect_enabled lib e
      (mksys (update (threads s) t_main (Some (Running rest))) (flags s)
             (exited s))) as [s' He]; [| |by eapply Hmain_step].
    + intros t' ->%spawned_inv. simpl.
      destruct (main_spawn_fresh _ _ _ Hmain) as [Hne Hfresh].
      unfold update. destruct (decide (t' = t_main)); [done|].
      destruct (threads s t') eqn:Ht'; [|done].
      destruct (started_spawned lib tr s t' Hrun) as [?|Hin]; try done.
      by rewrite Ht'.
    + intros t'. by rewrite Hj.
Qed.

(** ** Running choices *)

Lemma exec_run lib tr s tr' s' :
  run lib tr s -> exec lib s tr' s' -> run lib (tr ++ tr') s'.
Proof.
  intros Hrun. induction 1 as [|s tr' s1 os s2 Hexec IH Hstep].
  - by rewrite app_nil_r.
  - rewrite app_assoc. eapply run_step; [by apply IH|done].
Qed.

Lemma exec_first lib s os s1 tr s2 :
  step lib s os s1 -> exec lib s1 tr s2 -> exec lib s (os ++ tr) s2.
Proof.
  intros Hstep. induction 1 as [|s1 tr s2 os' s3 Hexec IH Hstep'].
  - rewrite app_nil_r.
    exact (exec_step lib s [] s os _ (exec_refl lib s) Hstep).
  - rewrite app_assoc. eapply exec_step; [by apply IH|done].
Qed.

Lemma run_choices_exec lib cs s tr s' :
  run_choices lib cs s = Some (tr, s') -> exec lib s tr s'.
Proof.
  revert s tr s'. induction cs as [|c cs IH]; intros s tr s' Hcs.
  - simplify_eq/=. apply exec_refl.
  - simpl in Hcs. destruct (step_fn lib s c) as [[os s1]|] eqn:Hc; [|done].
    destruct (run_choices lib cs s1) as [[tr1 s2]|] eqn:Hcs1; [|done].
    simplify_eq. eapply exec_first; [by exists c|by apply IH].
Qed.

(** From any state that the process can reach and in which it has not
    ended, scheduling its threads suitably brings it to the end of
    [main] in at most [work] calls. *)
Lemma completes lib n tr s :
  run lib tr s ->
  exited s = None ->
  (work lib s <= n)%nat ->
  exists cs tr' s',
    run_choices lib cs s = Some (tr', s') /\
    forallb is_sched cs = true /\
    (length cs <= n)%nat /\
    exited s' = Some 0.
Proof.
  revert tr s. induction n as [|n IH]; intros tr s Hrun Hex Hwork;
    destruct (progress _ _ _ Hrun Hex) as (t & e & s1 & Hstep & Hlt);
    [lia|].
  assert (run lib (tr ++ [(thread t, e)]) s1) as Hrun1.
  { eapply run_step; [done|]. by exists (sched t). }
  destruct (exited s1) as [st|] eqn:Hex1.
  - exists [sched t], [(thread t, e)], s1. simpl. rewrite Hstep.
    split_and!; [done|done|lia|].
    pose proof (run_exit _ _ _ Hrun1) as Hend. rewrite Hex1 in Hend.
    destruct Hend as (tr0 & _ & [[-> _]|[_ (source & message & Heq)]]);
      [done|].
    unfold fatal_report in Heq.
    change (tr0 ++ [?a; ?b; ?c]) with (tr0 ++ [a; b] ++ [c]) in Heq.
    rewrite app_assoc in Heq. by apply app_inj_tail in Heq as [_ ?].
  - destruct (IH _ _ Hrun1 Hex1) as (cs & tr' & s' & Hcs & Hs & Hlen & Hex');
      [lia|].
    exists (sched t :: cs), ([(thread t, e)] ++ tr'), s'. simpl.
    rewrite Hstep, Hcs. split_and!; [done|done|lia|done].
Qed.

(** ** The status callback *)

(** C2. Every invocation of the status callback ignores informational
    and debug messages; logs warnings, performance warnings and errors to
    standard error and returns, so that execution continues; and on a
    fatal message logs to standard error and ends the process at once
    with the non-zero status 1. *)
Theorem statusFunc_by_severity (lib : library) (s : sys) (source : N)
    (message : string) :
  let logged tag := [Fprintf stderr (tag ++ nl) [APtr source; AStr message]] in
  statusFunc source ANARI_SEVERITY_INFO message = ([], Returns) /\
  statusFunc source ANARI_SEVERITY_DEBUG message = ([], Returns) /\
  statusFunc source ANARI_SEVERITY_WARNING message =
    (logged "[WARN ][%p] %s"%string, Returns) /\
  statusFunc source ANARI_SEVERITY_PERFORMANCE_WARNING message =
    (logged "[PERF ][%p] %s"%string, Returns) /\
  statusFunc source ANARI_SEVERITY_ERROR message =
    (logged "[ERROR][%p] %s"%string, Returns) /\
  statusFunc source ANARI_SEVERITY_FATAL_ERROR message =
    (logged "[FATAL][%p] %s"%string, Exits 1) /\
  (* in the running process: the state is left as it is, except that a
     fatal message ends it with status 1, after which nothing happens *)
  (forall severity,
     exited s = None ->
     step_fn lib s (report source severity message) =
     Some ((callback, StatusCallback source severity message)
             :: map (pair callback) (statusFunc source severity message).1
             ++ (if decide (severity = ANARI_SEVERITY_FATAL_ERROR)
                 then [(callback, Exit 1)] else []),
           mksys (threads s) (flags s)
                 (if decide (severity = ANARI_SEVERITY_FATAL_ERROR)
                  then Some 1 else None))) /\
  (forall st c, exited s = Some st -> step_fn lib s c = None) /\
  1 <> 0.
Proof.
  intros logged. split_and!; try done.
  - intros severity Hex. unfold step_fn. rewrite Hex.
    by destruct severity.
  - intros st c Hex. unfold step_fn. by rewrite Hex.
Qed.

(** ** The extension query *)

Lemma deviceHasExtension_scan_iff names junk extName :
  deviceHasExtension_scan (map Some names ++ None :: junk) extName = true
  <-> extName ∈ names.
Proof.
  induction names as [|e names IH]; simpl.
  - split; [done|by intros ?%elem_of_nil].
  - rewrite elem_of_cons. destruct (String.eqb e extName) eqn:He.
    + apply String.eqb_eq in He. split; [by left|done].
    + apply String.eqb_neq in He. rewrite IH.
      split; [by right|]. intros [?|?]; [congruence|done].
Qed.

(** C5. [deviceHasExtension] asks the library for the array of
    extension names and scans it from the front up to the terminating
    null entry; it returns true if and only if some entry before the
    terminator equals the given name: true for a name in the array,
    false for any name that is not (a fabricated one included). *)
Theorem deviceHasExtension_iff (lib : library) (k : nat)
    (deviceSubtype extName : string) (names : list string)
    (junk : list (option string)) :
  device_extensions lib k deviceSubtype = map Some names ++ None :: junk ->
  (deviceHasExtension lib k deviceSubtype extName).1 =
    [GetDeviceExtensions deviceSubtype] /\
  ((deviceHasExtension lib k deviceSubtype extName).2 = true <->
   extName ∈ names) /\
  (extName ∈ names ->
   (deviceHasExtension lib k deviceSubtype extName).2 = true) /\
  (extName ∉ names ->
   (deviceHasExtension lib k deviceSubtype extName).2 = false).
Proof.
  intros Hext. unfold deviceHasExtension. simpl. rewrite Hext.
  pose proof (deviceHasExtension_scan_iff names junk extName) as Hiff.
  split_and!; [done|done|by apply Hiff|].
  intros Hnot. destruct (deviceHasExtension_scan _ _); [|done].
  by destruct Hnot; apply Hiff.
Qed.

(** ** The render thread *)

Lemma code_no_render_call lib t :
  t <> t_render -> code_all no_render_call (thread_code lib t).
Proof. destruct t; intros Ht; try done; simpl; check_code. Qed.

Lemma run_only_render lib tr s a e :
  run lib tr s ->
  (a, e) ∈ tr ->
  a <> thread t_render ->
  no_render_call e = true.
Proof.
  intros Hrun Hin Ha. apply events_by_elem in Hin.
  destruct a as [t|].
  - pose proof (run_all no_render_call lib t _ _ Hrun) as Hall.
    rewrite forallb_forall in Hall. apply Hall.
    + apply code_no_render_call. congruence.
    + by apply list_elem_of_In.
  - pose proof (run_callback _ _ _ Hrun) as Hall.
    rewrite forallb_forall in Hall. apply list_elem_of_In, Hall in Hin.
    by destruct e.
Qed.

Lemma omap_cons {A B : Type} (f : A -> option B) x l :
  omap f (x :: l) =
  match f x with Some y => y :: omap f l | None => omap f l end.
Proof. reflexivity. Qed.

Lemma omap_only {B : Type} (f : event -> option B) a tr :
  (forall a' e, (a', e) ∈ tr -> a' <> a -> f e = None) ->
  omap f (map snd tr) = omap f (events_by a tr).
Proof.
  induction tr as [|[a' e] tr IH]; intros Hother; [done|].
  rewrite map_cons, events_by_cons, omap_cons. cbn [snd].
  rewrite IH by (intros ? ? ?; apply Hother; by right).
  destruct (decide (a' = a)) as [->|Hne]; [by rewrite omap_cons|].
  by rewrite (Hother a' e) by (done || left).
Qed.

Lemma count_omap chk l :
  count chk l = length (omap (fun e => if chk e then Some tt else None) l).
Proof.
  unfold count. induction l as [|e l IH]; [done|]. simpl.
  destruct (chk e); simpl; by rewrite IH.
Qed.

(** What the whole process renders, writes and stores is what the render
    thread does. *)
Lemma run_render_only lib tr s :
  run lib tr s ->
  written_files (map snd tr) = written_files (events_of t_render tr) /\
  count is_render (map snd tr) = count is_render (events_of t_render tr) /\
  count is_write (map snd tr) = count is_write (events_of t_render tr) /\
  count is_store (map snd tr) = count is_store (events_of t_render tr).
Proof.
  intros Hrun.
  assert (forall a e, (a, e) ∈ tr -> a <> thread t_render ->
            is_render e = false /\ is_write e = false /\ is_store e = false)
    as Hno.
  { intros a e Hin Ha.
    pose proof (run_only_render _ _ _ _ _ Hrun Hin Ha) as He.
    unfold no_render_call in He.
    by destruct (is_render e), (is_write e), (is_store e). }
  rewrite !count_omap. unfold written_files, events_of.
  split_and!; [|f_equal..]; apply omap_only; intros a e Hin Ha;
    destruct (Hno a e Hin Ha) as (Hr & Hw & Hs);
    rewrite ?Hr, ?Hw, ?Hs; try done.
  by destruct e.
Qed.

Lemma render_thread_parts lib :
  renderThread lib = render_cycles lib ++ render_closing.
Proof. reflexivity. Qed.

Lemma render_cycles_facts lib :
  written_files (render_cycles lib) = ten_files /\
  count is_render (render_cycles lib) = 10%nat /\
  count is_write (render_cycles lib) = 10%nat /\
  forallb no_store (render_cycles lib) = true.
Proof. split_and!; lazy; reflexivity. Qed.

(** Once a stop flag is set, the render thread is past its loop. *)
Lemma flag_after_cycles lib tr s f :
  run lib tr s ->
  flags s f = true ->
  exists d rest,
    events_of t_render tr = render_cycles lib ++ d /\
    render_closing = d ++ rest.
Proof.
  intros Hrun Hf. pose proof (flag_set_stored _ _ _ _ Hrun Hf) as Hin.
  destruct (run_straight_prefix lib t_render _ _ _ Hrun eq_refl)
    as [rest Hrest].
  rewrite render_thread_parts in Hrest. symmetry in Hrest.
  apply app_eq_app in Hrest as [l [[Hd Hc]|[Hc Hd]]]; [by eauto|].
  destruct (render_cycles_facts lib) as (_ & _ & _ & Hns).
  rewrite Hc, forallb_app in Hns. apply andb_prop in Hns as [Hns _].
  rewrite forallb_forall in Hns. by apply list_elem_of_In, Hns in Hin.
Qed.

Lemma written_files_app l1 l2 :
  written_files (l1 ++ l2) = written_files l1 ++ written_files l2.
Proof. apply omap_app. Qed.

(** C1. The render thread performs exactly 10 render cycles, writing the
    files [out_0.png] to [out_9.png] in that order, and sets the three
    stop flags only after the tenth cycle is complete. *)
Theorem render_thread_ten_cycles (lib : library) (tr : list obs) (s : sys) :
  run lib tr s ->
  (* the code of the thread: ten cycles, then the three stores *)
  renderThread lib =
    render_cycles lib ++
    [ Store finish_queryExtension true;
      Store finish_queryBoundsNoWait true;
      Store finish_queryBoundsWait true;
      finished_line "render thread finished" ] /\
  render_cycles lib =
    concat (map (fun i => render lib i hFrame (nth i ten_files ""%string))
                (seq 0 10)) /\
  count is_render (render_cycles lib) = 10%nat /\
  written_files (render_cycles lib) = ten_files /\
  count is_store (render_cycles lib) = 0%nat /\
  (* in every run the thread has made a prefix of these calls, and
     nobody else renders, writes or stores *)
  (exists rest, renderThread lib = events_of t_render tr ++ rest) /\
  (exists later, ten_files = written_files (map snd tr) ++ later) /\
  (count is_render (map snd tr) <= 10)%nat /\
  count is_store (map snd tr) = count is_store (events_of t_render tr) /\
  (* a stop flag is set only when the ten cycles are complete *)
  (forall f,
     flags s f = true ->
     written_files (map snd tr) = ten_files /\
     count is_render (map snd tr) = 10%nat) /\
  (* when [main] has returned, the thread has made all its calls *)
  (exited s = Some 0 ->
   events_of t_render tr = renderThread lib /\
   written_files (map snd tr) = ten_files /\
   count is_render (map snd tr) = 10%nat /\
   forall f, flags s f = true).
Proof.
  intros Hrun.
  destruct (render_cycles_facts lib) as (Hfiles & Hrenders & _ & Hns).
  destruct (run_render_only _ _ _ Hrun) as (Hwf & Hcr & _ & Hcs).
  destruct (run_straight_prefix lib t_render _ _ _ Hrun eq_refl)
    as [rest Hrest].
  assert (forall f, flags s f = true ->
            written_files (map snd tr) = ten_files /\
            count is_render (map snd tr) = 10%nat) as Hflag.
  { intros f Hf.
    destruct (flag_after_cycles _ _ _ _ Hrun Hf) as (d & r & Hd & Hc).
    rewrite Hwf, Hcr, Hd, written_files_app, count_app, Hfiles, Hrenders.
    assert (written_files render_closing = []) as Hw by done.
    assert (count is_render render_closing = 0%nat) as Hr by done.
    rewrite Hc, written_files_app in Hw. apply app_eq_nil in Hw as [-> _].
    rewrite Hc, count_app in Hr. rewrite app_nil_r. split; [done|lia]. }
  split; [apply render_thread_parts|].
  split; [reflexivity|].
  split; [done|]. split; [done|]. split; [by apply count_zero|].
  split; [by exists rest|].
  split.
  { exists (written_files rest).
    rewrite Hwf, <- written_files_app, <- Hrest, render_thread_parts.
    by rewrite written_files_app, Hfiles, app_nil_r. }
  split.
  { rewrite Hcr.
    assert (count is_render (renderThread lib) = 10%nat) as Hten.
    { rewrite render_thread_parts, count_app, Hrenders. done. }
    rewrite Hrest, count_app in Hten. lia. }
  split; [done|]. split; [done|].
  intros Hex. destruct (exit_zero _ _ _ Hrun Hex) as (_ & Hfin & _).
  assert (forall f, flags s f = true) as Hset.
  { intros f. by apply (render_done_flags lib tr), Hfin. }
  destruct (Hflag finish_queryExtension (Hset _)) as [? ?].
  split; [|done].
  by apply (run_straight_finished lib t_render _ tr s); [| |apply Hfin].
Qed.

(** ** The polling threads *)

Lemma flag_stays lib tr s f tr' s' :
  run lib tr s -> flags s f = true -> exec lib s tr' s' ->
  flags s' f = true.
Proof.
  intros Hrun Hf Hexec.
  apply (stored_flag_set lib (tr ++ tr') s' (thread t_render));
    [by eapply exec_run|].
  apply elem_of_app. left. apply events_by_elem.
  by apply (flag_set_stored lib tr s).
Qed.

Lemma exec_one lib s os s' : step lib s os s' -> exec lib s os s'.
Proof. intros. by apply (exec_step lib s [] s os s' (exec_refl lib s)). Qed.

Lemma remaining_step lib t l tr s os s' :
  run lib tr s ->
  thread_code lib t = Forever l ->
  flags s (stop l) = true ->
  step lib s os s' ->
  events_of t os ++ remaining l (threads s' t) = remaining l (threads s t).
Proof.
  intros Hrun Hc Hf Hstep.
  pose proof (run_at_point _ _ _ Hrun t) as Hat. rewrite Hc in Hat.
  apply step_inv in Hstep as [_ [(t1 & st & e & st' & Ht & Hst & He & ->)|
    (source & severity & message & -> & Hth & _ & _)]].
  - apply sched_inv in He as (Hth & Hsp & _). rewrite Hth.
    unfold events_of. rewrite events_by_one.
    destruct (decide (t = t1)) as [->|Hne].
    + destruct (decide (thread t1 = thread t1)); [|done].
      rewrite Ht in Hat |- *.
      inversion Hat as [| |? k d rest Hb|? k d rest Ha]; subst.
      * destruct rest as [|e' rest]; simpl in Hst; simplify_eq.
        -- rewrite Hf. done.
        -- done.
      * destruct rest as [|e' rest]; by simplify_eq/=.
    + destruct (decide (thread t1 = thread t)); [congruence|].
      destruct (decide (spawned e = Some t)) as [He|]; [|done].
      apply Hsp in He as [_ ->]. by rewrite Hc.
  - unfold events_of. by rewrite events_by_reported, Hth.
Qed.

(** With its stop flag set, what a polling thread does is fixed. *)
Lemma remaining_exec lib t l tr s tr' s' :
  run lib tr s ->
  thread_code lib t = Forever l ->
  flags s (stop l) = true ->
  exec lib s tr' s' ->
  events_of t tr' ++ remaining l (threads s' t) = remaining l (threads s t).
Proof.
  intros Hrun Hc Hf. induction 1 as [|s tr' s1 os s2 Hexec IH Hstep];
    [done|].
  unfold events_of in *. rewrite events_by_app, <- app_assoc.
  rewrite <- (IH Hrun Hf). f_equal.
  apply (remaining_step lib t l (tr ++ tr')); [by eapply exec_run|done| |done].
  by eapply flag_stays.
Qed.

(** what the three loops are made of *)
Lemma poller_code lib t l :
  thread_code lib t = Forever l ->
  (t = t_queryExtension \/ t = t_queryBoundsNoWait \/
   t = t_queryBoundsWait) /\
  (forall k, count is_query (body l k) = 1%nat /\
             count is_load (body l k) = 0%nat /\
             (length (body l k) <= 2)%nat) /\
  count is_query (after l) = 0%nat /\
  count is_load (after l) = 0%nat /\
  length (after l) = 1%nat.
Proof.
  destruct t; intros Hc; simplify_eq/=; (split; [tauto|]);
    (split; [|done]); intros k;
    try (unfold deviceHasExtension; destruct (deviceHasExtension_scan _ _));
    simpl; (split_and!; [done|done|lia]).
Qed.

Lemma count_suffix chk (d rest : list event) :
  (count chk rest <= count chk (d ++ rest))%nat.
Proof. rewrite count_app. lia. Qed.

(** At most one query and one test of the flag are left. *)
Lemma remaining_bound lib t l tr s :
  run lib tr s ->
  thread_code lib t = Forever l ->
  (count is_query (remaining l (threads s t)) <= 1)%nat /\
  (count is_load (remaining l (threads s t)) <= 1)%nat /\
  (length (remaining l (threads s t)) <= 4)%nat /\
  (forall f b, Load f b ∈ remaining l (threads s t) -> b = true).
Proof.
  intros Hrun Hc.
  destruct (poller_code _ _ _ Hc) as (_ & Hbody & Haq & Hal & Hlen).
  pose proof (run_at_point _ _ _ Hrun t) as Hat. rewrite Hc in Hat.
  assert (forall rest f b,
            count is_load rest = 0%nat -> Load f b ∈ rest -> False) as Hnl.
  { intros rest f b Hz Hin. unfold count in Hz.
    apply length_zero_iff_nil in Hz.
    assert (In (Load f b) (List.filter is_load rest)) as Hin'.
    { apply filter_In. split; [by apply list_elem_of_In|done]. }
    by rewrite Hz in Hin'. }
  assert (forall k d rest, body l k = d ++ rest ->
    (count is_query (rest ++ [Load (stop l) true] ++ after l) <= 1)%nat /\
    (count is_load (rest ++ [Load (stop l) true] ++ after l) <= 1)%nat /\
    (length (rest ++ [Load (stop l) true] ++ after l) <= 4)%nat /\
    (forall f b, Load f b ∈ rest ++ [Load (stop l) true] ++ after l ->
                 b = true)) as Hloop.
  { intros k d rest Hb. destruct (Hbody k) as (Hq & Hl & Hn).
    rewrite Hb in Hq, Hl, Hn. rewrite count_app in Hq, Hl.
    rewrite length_app in Hn.
    rewrite !count_app, !length_app, Haq, Hal, Hlen. simpl.
    split_and!; try lia.
    intros f b [Hin|[Hin|Hin]%elem_of_cons]%elem_of_app.
    - destruct (Hnl rest f b); [lia|done].
    - by simplify_eq.
    - by destruct (Hnl (after l) f b). }
  inversion Hat as [| |? k d rest Hb|? k d rest Ha]; subst; simpl.
  - by apply (Hloop 0%nat []).
  - by apply (Hloop k d).
  - rewrite Ha in Haq, Hal, Hlen. rewrite count_app in Haq, Hal.
    rewrite length_app in Hlen. split_and!; try lia.
    intros f b Hin. destruct (Hnl rest f b); [lia|done].
Qed.

(** A thread other than [main] with calls left is never blocked. *)
Lemma other_call lib tr s t st :
  run lib tr s ->
  exited s = None ->
  t <> t_main ->
  threads s t = Some st ->
  finished (Some st) = false ->
  exists e s',
    step_fn lib s (sched t) = Some ([(thread t, e)], s') /\
    exited s' = None /\
    threads s' t <> None.
Proof.
  intros Hrun Hex Hne Ht Hfin.
  assert (exists e st', thread_step (flags s) st = Some (e, st'))
    as (e & st' & Hst).
  { destruct st as [[|? ?]|l k [|? ?]]; simpl; eauto. done. }
  pose proof (next_in_code no_control _ _ _ _ _ _ _ Hrun Ht Hst
                (code_no_control lib t Hne)) as Hnc.
  pose proof Hnc as [Hsp Hj]%no_control_inv.
  destruct (effect_enabled lib e
              (mksys (update (threads s) t (Some st')) (flags s) (exited s)))
    as [s' He].
  { intros t'. by rewrite Hsp. }
  { intros t'. by rewrite Hj. }
  exists e, s'. split; [by eapply step_fn_sched|].
  apply sched_inv in He as (Hth & _ & _ & _ & Hex').
  split.
  - rewrite Hex'. by destruct e.
  - rewrite Hth. by destruct (decide (t = t)).
Qed.

(** A started polling thread whose stop flag is set ends when it is
    given as many turns as it has calls left. *)
Lemma poller_runs_out lib t l n tr s :
  run lib tr s ->
  thread_code lib t = Forever l ->
  flags s (stop l) = true ->
  exited s = None ->
  threads s t <> None ->
  length (remaining l (threads s t)) = n ->
  exists tr' s',
    run_choices lib (replicate n (sched t)) s = Some (tr', s') /\
    finished (threads s' t) = true.
Proof.
  revert tr s. induction n as [|n IH]; intros tr s Hrun Hc Hf Hex Hs Hlen.
  - exists [], s. split; [done|].
    destruct (threads s t) as [[[|? ?]|? ? rest]|]; try done.
    simpl in Hlen. rewrite length_app in Hlen. simpl in Hlen. lia.
  - destruct (threads s t) as [st|] eqn:Ht; [|done].
    assert (t <> t_main) as Hne by (by intros ->).
    assert (finished (Some st) = false) as Hfin.
    { by destruct st as [[|? ?]|]. }
    destruct (other_call _ _ _ _ _ Hrun Hex Hne Ht Hfin)
      as (e & s1 & Hstep & Hex1 & Hs1).
    assert (step lib s [(thread t, e)] s1) as Hstep' by (by exists (sched t)).
    pose proof (remaining_step _ _ _ _ _ _ _ Hrun Hc Hf Hstep') as Hrem.
    unfold events_of in Hrem. rewrite events_by_one in Hrem.
    destruct (decide (thread t = thread t)); [|done].
    rewrite Ht in Hrem. rewrite <- Hrem in Hlen. simpl in Hlen.
    destruct (IH (tr ++ [(thread t, e)]) s1) as (tr' & s' & Hcs & Hend);
      try done.
    + by eapply run_step.
    + eapply flag_stays; [done|done|]. by apply exec_one.
    + lia.
    + exists ([(thread t, e)] ++ tr'), s'. simpl. by rewrite Hstep, Hcs.
Qed.

(** C3. For each of the three polling threads (extension query,
    non-blocking bounds query, blocking bounds query): once its stop flag
    is set, the thread leaves its loop after at most one further
    iteration, that is at most one further query; it never starts another
    iteration, and it ends when it is given its turns. *)
Theorem polling_thread_stops (lib : library) (t : tid) (l : loop)
    (tr : list obs) (s : sys) (tr' : list obs) (s' : sys) :
  run lib tr s ->
  thread_code lib t = Forever l ->
  flags s (stop l) = true ->
  exec lib s tr' s' ->
  let todo := remaining l (threads s t) in
  (t = t_queryExtension \/ t = t_queryBoundsNoWait \/
   t = t_queryBoundsWait) /\
  (* from here on the thread makes the calls of [todo], in order *)
  events_of t tr' ++ remaining l (threads s' t) = todo /\
  (* which hold at most one query and one test of the flag *)
  (count is_query todo <= 1)%nat /\
  (count is_load todo <= 1)%nat /\
  (length todo <= 4)%nat /\
  (count is_query (events_of t tr') <= 1)%nat /\
  (count is_load (events_of t tr') <= 1)%nat /\
  (* no test of the flag sends the thread round the loop again *)
  (forall f, Load f false ∉ events_of t tr') /\
  (* and the thread, once started, ends within [length todo] turns *)
  (exited s = None ->
   threads s t <> None ->
   exists tr1 s1,
     run_choices lib (replicate (length todo) (sched t)) s = Some (tr1, s1) /\
     finished (threads s1 t) = true).
Proof.
  intros Hrun Hc Hf Hexec todo.
  pose proof (remaining_exec _ _ _ _ _ _ _ Hrun Hc Hf Hexec) as Hrem.
  destruct (remaining_bound _ _ _ _ _ Hrun Hc) as (Hq & Hl & Hlen & Hload).
  fold todo in Hrem, Hq, Hl, Hlen, Hload.
  split; [by apply (poller_code lib t l)|].
  split; [done|]. split; [done|]. split; [done|]. split; [done|].
  rewrite <- Hrem, !count_app in Hq, Hl.
  split; [lia|]. split; [lia|]. split.
  - intros f Hin. assert (false = true); [|done].
    apply (Hload f). rewrite <- Hrem. apply elem_of_app. by left.
  - intros Hex Hs. by apply (poller_runs_out lib t l _ tr s).
Qed.

(** ** Handles *)

(** C4. Every object handle obtained during the run (the device, the
    world, the renderer, the camera, the frame, and every array,
    geometry, sampler, material, surface and light created in
    [initializeWorld]) is released exactly once, and the library is
    unloaded exactly once, in whatever order the threads make their
    calls and end. *)
Theorem handles_released_once (lib : library) (tr : list obs) (s : sys) :
  run lib tr s ->
  exited s = Some 0 ->
  (forall h,
     count (creates h) (map snd tr) = 1%nat /\
     count (releases h) (map snd tr) = 1%nat) /\
  count is_unload (map snd tr) = 1%nat.
Proof.
  intros Hrun Hex. split; [intros h; split|].
  - rewrite (count_lifetime lib tr s) by (done || by intros []).
    destruct h; lazy; reflexivity.
  - rewrite (count_lifetime lib tr s) by (done || by intros []).
    destruct h; lazy; reflexivity.
  - rewrite (count_lifetime lib tr s) by (done || by intros []).
    lazy; reflexivity.
Qed.

(** ** The end of the process *)

(** Every call of a thread brings the process nearer to its end, except
    the test of an unset stop flag, which sends a polling thread round
    its loop once more. *)
Lemma sched_work lib s t os s' :
  step_fn lib s (sched t) = Some (os, s') ->
  (work lib s' < work lib s)%nat \/
  exists l k, threads s t = Some (Looping l k []) /\
              flags s (stop l) = false.
Proof.
  unfold step_fn. destruct (exited s) eqn:Hex; [done|].
  destruct (threads s t) as [st|] eqn:Ht; [|done].
  destruct (thread_step (flags s) st) as [[e st']|] eqn:Hst; [|done].
  destruct (effect lib e _) as [s1|] eqn:He; [|done].
  intros ?; simplify_eq.
  assert (match st with
          | Looping l _ [] => flags s (stop l) = true
          | _ => True
          end \/
          exists l k, st = Looping l k [] /\ flags s (stop l) = false)
    as [Hfl|(l & k & -> & Hfl)].
  { destruct st as [|l k [|? ?]]; auto.
    destruct (flags s (stop l)) eqn:?; eauto. }
  - left. pose proof (sched_progress lib s t st e st' s') as Hp.
    rewrite Hex in Hp. by destruct (Hp eq_refl Ht Hst He Hfl).
  - right. by exists l, k.
Qed.


(** C7. If no fatal status is ever reported, the process runs to
    completion (it joins all threads, releases all handles, unloads the
    library) and exits with status 0; when a fatal status is reported,
    it logs to standard error and exits at once with the non-zero
    status 1. *)
Theorem process_exit (lib : library) (tr : list obs) (s : sys) :
  run lib tr s ->
  (* without a fatal report: the process can only end with status 0,
     after all calls of [main] *)
  (no_fatal tr = true ->
   forall st,
     exited s = Some st ->
     st = 0 /\
     events_of t_main tr = main /\
     (forall t, t <> t_main -> (thread t_main, Join t) ∈ tr) /\
     (forall t, t <> t_main -> finished (threads s t) = true) /\
     (forall h, count (releases h) (map snd tr) = 1%nat) /\
     count is_unload (map snd tr) = 1%nat) /\
  (* and until then it can always go on to that end: nothing blocks it
     for good, and [work] calls are enough *)
  (exited s = None ->
   exists cs tr' s',
     run_choices lib cs s = Some (tr', s') /\
     forallb is_sched cs = true /\
     (length cs <= work lib s)%nat /\
     exited s' = Some 0) /\
  (forall t os s',
     step_fn lib s (sched t) = Some (os, s') ->
     (work lib s' < work lib s)%nat \/
     exists l k, threads s t = Some (Looping l k []) /\
                 flags s (stop l) = false) /\
  (* a fatal report ends the process at once with status 1 *)
  (exited s = None ->
   forall source message,
     step_fn lib s (report source ANARI_SEVERITY_FATAL_ERROR message) =
     Some (fatal_report source message,
           mksys (threads s) (flags s) (Some 1))) /\
  (no_fatal tr = false ->
   exited s = Some 1 /\
   exists tr0 source message,
     tr = tr0 ++ fatal_report source message /\ no_fatal tr0 = true) /\
  (* once ended, nothing more happens *)
  (forall st c, exited s = Some st -> step_fn lib s c = None) /\
  1 <> 0.
Proof.
  intros Hrun. pose proof (run_exit _ _ _ Hrun) as Hend.
  assert (forall l, forallb quiet l = true -> no_fatal l = true) as Hquiet.
  { intros l Hl. unfold no_fatal. apply forallb_forall. intros o Ho.
    rewrite forallb_forall in Hl. apply Hl in Ho. unfold quiet in Ho.
    by apply andb_prop in Ho as [-> _]. }
  assert (forall tr0 source message,
            no_fatal (tr0 ++ fatal_report source message) = false)
    as Hfatal.
  { intros tr0 source message. unfold no_fatal. rewrite forallb_app.
    simpl. by rewrite andb_false_r. }
  split_and!; [| |apply sched_work| | | |done].
  - intros Hnf st Hex. rewrite Hex in Hend.
    destruct Hend as (tr0 & Hq & [[-> ->]|[_ (source & message & ->)]]);
      [|by rewrite Hfatal in Hnf].
    set (tr := tr0 ++ [(thread t_main, Return 0)]) in *.
    destruct (exit_zero _ _ _ Hrun Hex) as (Hmain & Hfin & _).
    split_and!; try done.
    + intros t Ht. apply events_by_elem. fold (events_of t_main tr).
      rewrite Hmain. by apply main_joins.
    + intros h. rewrite (count_lifetime lib tr s) by (done || by intros []).
      destruct h; lazy; reflexivity.
    + rewrite (count_lifetime lib tr s) by (done || by intros []).
      lazy; reflexivity.
  - intros Hex. destruct (completes lib (work lib s) tr s Hrun Hex)
      as (cs & tr' & s' & ?); [lia|]. by exists cs, tr', s'.
  - intros Hex source message. unfold step_fn. by rewrite Hex.
  - intros Hnf. destruct (exited s) as [st|].
    + destruct Hend as (tr0 & Hq & [[-> ->]|[-> (source & message & ->)]]).
      * unfold no_fatal in Hnf. rewrite forallb_app in Hnf.
        apply Hquiet in Hq. unfold no_fatal in Hq. by rewrite Hq in Hnf.
      * split; [done|]. exists tr0, source, message. by auto.
    + apply Hquiet in Hend. congruence.
  - intros st c Hex. unfold step_fn. by rewrite Hex.
Qed.

(** ** [initializeWorld]: the sphere loop and the index array *)

Lemma length_mapped {A : Type} (memory : nat -> A) n :
  length (mapped memory n) = Z.to_nat n.
Proof. unfold mapped. by rewrite length_map, length_seq. Qed.

(** The three component writes and the translation overwrite the whole
    element. *)
Lemma sphere_element (l : list float3) i a b c pos :
  alter (fun e => float3_add e pos) i
    (alter (set_f3z c) i (alter (set_f3y b) i (alter (set_f3x a) i l))) =
  <[i := float3_add (mkfloat3 a b c) pos]> l.
Proof.
  rewrite !list_alter_alter_eq, list_insert_alter.
  by apply list_alter_ext.
Qed.

(** The loop overwrites the elements [i] to [i + count - 1] of both
    arrays with fresh values and leaves the others alone. *)
Lemma sphere_loop_spec count pos i s :
  (i + count <= length (positions s))%nat ->
  (i + count <= length (distances s))%nat ->
  let '(ps, ds, d', g') :=
    fresh_spheres count pos (vert_dist s) (rng s) in
  sphere_loop count pos i s =
  mkspheres
    (take i (positions s) ++ ps ++ drop (i + count) (positions s))
    (take i (distances s) ++ ds ++ drop (i + count) (distances s))
    d' g'.
Proof.
  revert i s. induction count as [|count IH]; intros i [P D d g] HP HD;
    simpl in *.
  - by rewrite Nat.add_0_r, !take_drop.
  - unfold sphere_at. simpl.
    destruct (normal_distribution_call d g) as [[a d1] g1].
    destruct (normal_distribution_call d1 g1) as [[b d2] g2].
    destruct (normal_distribution_call d2 g2) as [[c d3] g3].
    rewrite sphere_element.
    set (v := float3_add (mkfloat3 a b c) pos).
    set (w := F32.sqrt _).
    specialize (IH (S i) (mkspheres (<[i:=v]> P) (<[i:=w]> D) d3 g3)).
    simpl in IH. rewrite !length_insert in IH.
    destruct (fresh_spheres count pos d3 g3) as [[[ps ds] d'] g'].
    rewrite IH by lia.
    assert (<[i:=v]> P !! i = Some v) as HPi
      by (apply list_lookup_insert_eq; lia).
    assert (<[i:=w]> D !! i = Some w) as HDi
      by (apply list_lookup_insert_eq; lia).
    rewrite (take_S_r _ _ _ HPi), (take_S_r _ _ _ HDi).
    rewrite !take_insert_ge, !drop_insert_lt by lia.
    rewrite <- !app_assoc. simpl.
    by replace (S (i + count)) with (i + S count)%nat by lia.
Qed.

(** The state of the sphere loop at its end does not depend on what the
    mapped arrays held. *)
Lemma world_spheres_fresh lib pos :
  let '(ps, ds, d', g') :=
    fresh_spheres (Z.to_nat numSpheres) pos
      (normal_distribution_init F32.zero (F32.lit 25 100))
      (Mt19937.seed Mt19937.default 0) in
  world_spheres lib pos = mkspheres ps ds d' g'.
Proof.
  unfold world_spheres.
  pose proof (sphere_loop_spec (Z.to_nat numSpheres) pos 0
    (mkspheres (mapped (mapped_float3 lib hPositionsArray) numSpheres)
               (mapped (mapped_float lib hDistanceArray) numSpheres)
               (normal_distribution_init F32.zero (F32.lit 25 100))
               (Mt19937.seed Mt19937.default 0))) as Hspec.
  cbn [positions distances vert_dist rng] in Hspec.
  destruct (fresh_spheres _ _ _ _) as [[[ps ds] d'] g'].
  rewrite Hspec by (rewrite length_mapped; lia).
  rewrite !drop_ge by (rewrite length_mapped; lia).
  by rewrite !app_nil_r.
Qed.

Lemma iota_seqZ range value :
  iota range value = map to_uint32 (seqZ value (Z.of_nat (length range))).
Proof.
  revert value. induction range as [|x range IH]; intros value; [done|].
  cbn [iota length]. rewrite seqZ_cons by lia. rewrite IH. simpl.
  do 3 f_equal. lia.
Qed.

Lemma iter_swap_perm range ij : iter_swap range ij ≡ₚ range.
Proof.
  unfold iter_swap.
  destruct (range !! ij.1) as [a|] eqn:Hi; [|done].
  destruct (range !! ij.2) as [b|] eqn:Hj; [|done].
  by apply Permutation_insert_swap.
Qed.

Lemma shuffle_perm range g : (shuffle range g).1 ≡ₚ range.
Proof.
  unfold shuffle. destruct (shuffle_swaps (length range) g) as [swaps g'].
  simpl. clear g g'. revert range.
  induction swaps as [|ij swaps IH]; intros range; [done|].
  simpl. rewrite IH. apply iter_swap_perm.
Qed.

Lemma unmapped_in_world lib world pos :
  Unmap hPositionsArray (DFloat3 (positions (world_spheres lib pos)))
    ∈ initializeWorld lib world pos /\
  Unmap hDistanceArray (DFloat (distances (world_spheres lib pos)))
    ∈ initializeWorld lib world pos /\
  Unmap hIndicesArray (DUint32 (world_indices lib pos))
    ∈ initializeWorld lib world pos.
Proof.
  unfold initializeWorld. cbv zeta.
  split_and!; apply elem_of_app; left;
    repeat first [apply list_elem_of_here | apply list_elem_of_further].
Qed.

Lemma world_spheres_same lib1 lib2 pos :
  world_spheres lib1 pos = world_spheres lib2 pos.
Proof.
  pose proof (world_spheres_fresh lib1 pos) as H1.
  pose proof (world_spheres_fresh lib2 pos) as H2.
  destruct (fresh_spheres _ _ _ _) as [[[ps ds] d'] g'].
  by rewrite H1, H2.
Qed.

Lemma world_indices_same lib1 lib2 pos :
  world_indices lib1 pos = world_indices lib2 pos.
Proof.
  unfold world_indices. rewrite (world_spheres_same lib1 lib2).
  by rewrite !iota_seqZ, !length_mapped.
Qed.

(** C9. [initializeWorld] is deterministic: for every translation
    vector [pos], every run produces the same sphere positions, the same
    distance values and the same index permutation, whatever the
    library hands out, because the random generator is seeded with the
    constant 0. *)
Theorem initializeWorld_deterministic (pos : float3) (world : handle)
    (lib1 lib2 : library) :
  positions (world_spheres lib1 pos) = positions (world_spheres lib2 pos) /\
  distances (world_spheres lib1 pos) = distances (world_spheres lib2 pos) /\
  world_indices lib1 pos = world_indices lib2 pos /\
  (* these are the contents [initializeWorld] unmaps, and all its calls
     are the same in the two runs *)
  Unmap hPositionsArray (DFloat3 (positions (world_spheres lib1 pos)))
    ∈ initializeWorld lib1 world pos /\
  Unmap hDistanceArray (DFloat (distances (world_spheres lib1 pos)))
    ∈ initializeWorld lib1 world pos /\
  Unmap hIndicesArray (DUint32 (world_indices lib1 pos))
    ∈ initializeWorld lib1 world pos /\
  initializeWorld lib1 world pos = initializeWorld lib2 world pos /\
  (* the values are those drawn from the engine seeded with 0, whatever
     state the engine was in before *)
  (forall g,
     (positions (world_spheres lib1 pos),
      distances (world_spheres lib1 pos)) =
     (fresh_spheres (Z.to_nat numSpheres) pos
        (normal_distribution_init F32.zero (F32.lit 25 100))
        (Mt19937.seed g 0)).1.1) /\
  (forall g g', Mt19937.seed g 0 = Mt19937.seed g' 0).
Proof.
  destruct (unmapped_in_world lib1 world pos) as (Hp & Hd & Hi).
  split; [by rewrite (world_spheres_same lib1 lib2)|].
  split; [by rewrite (world_spheres_same lib1 lib2)|].
  split; [apply world_indices_same|].
  split; [exact Hp|]. split; [exact Hd|]. split; [exact Hi|].
  split.
  { unfold initializeWorld.
    rewrite (world_spheres_same lib1 lib2), (world_indices_same lib1 lib2).
    reflexivity. }
  split.
  - intros g. pose proof (world_spheres_fresh lib1 pos) as H1.
    change (Mt19937.seed g 0) with (Mt19937.seed Mt19937.default 0).
    destruct (fresh_spheres _ _ _ _) as [[[ps ds] d'] g'].
    by rewrite H1.
  - intros g g'. reflexivity.
Qed.

Lemma to_uint32_seqZ n :
  n <= 2 ^ 32 -> map to_uint32 (seqZ 0 n) = seqZ 0 n.
Proof.
  intros Hn. rewrite <- (map_id (seqZ 0 n)) at 2.
  apply map_ext_in. intros z Hz%list_elem_of_In%elem_of_seqZ.
  unfold to_uint32. apply Z.mod_small. lia.
Qed.

Lemma world_indices_perm lib pos :
  world_indices lib pos ≡ₚ seqZ 0 numSpheres.
Proof.
  unfold world_indices. rewrite shuffle_perm, iota_seqZ, length_mapped.
  rewrite Z2Nat.id by done. by rewrite to_uint32_seqZ.
Qed.

(** C10. After [initializeWorld] has filled the [primitive.index] array
    ([std::iota] from 0, then [std::shuffle]), the array holds each
    integer from 0 to 9999 exactly once: it is a permutation of
    0 .. numSpheres - 1. *)
Theorem indices_permutation (lib : library) (world : handle)
    (pos : float3) :
  let indices := world_indices lib pos in
  Unmap hIndicesArray (DUint32 indices) ∈ initializeWorld lib world pos /\
  SetAndReleaseParameter hGeometry "primitive.index" hIndicesArray
    ∈ initializeWorld lib world pos /\
  numSpheres = 10000 /\
  indices ≡ₚ seqZ 0 numSpheres /\
  Z.of_nat (length indices) = 10000 /\
  NoDup indices /\
  (forall k, k ∈ indices <-> 0 <= k <= 9999) /\
  (forall k, 0 <= k <= 9999 -> count_occ Z.eq_dec indices k = 1%nat).
Proof.
  intros indices. pose proof (world_indices_perm lib pos) as Hperm.
  assert (forall k, k ∈ indices <-> 0 <= k <= 9999) as Hin.
  { intros k. unfold indices. rewrite Hperm, elem_of_seqZ.
    unfold numSpheres. lia. }
  assert (NoDup indices) as Hnd.
  { unfold indices. rewrite Hperm. apply NoDup_seqZ. }
  split; [apply unmapped_in_world|].
  split.
  { unfold initializeWorld. cbv zeta. apply elem_of_app. right.
    apply elem_of_app. left.
    repeat first [apply list_elem_of_here | apply list_elem_of_further]. }
  split; [reflexivity|].
  split; [exact Hperm|].
  split.
  { unfold indices. rewrite Hperm, length_seqZ. unfold numSpheres. lia. }
  split; [exact Hnd|]. split; [exact Hin|].
  intros k Hk. apply NoDup_ListNoDup in Hnd.
  apply (proj1 (NoDup_count_occ' Z.eq_dec indices) Hnd).
  apply list_elem_of_In, Hin. exact Hk.
Qed.

(** ** The images and the durations *)

Lemma render_named lib i frame name :
  name <> ""%string ->
  render lib i frame name =
  [ Render frame;
    Wait frame;
    GetProperty frame "duration" ANARI_NO_WAIT;
    Fprintf stdout ("rendered frame in %fms" ++ nl)
      [AFloat (F32.mul (render_duration lib i) (F32.of_Z 1000))];
    Stbi_flip_vertically_on_write 1;
    MapFrame frame "channel.color";
    Stbi_write_png name
      (to_int (fb_width (frame_buffer lib i)))
      (to_int (fb_height (frame_buffer lib i)))
      4 (fb_data (frame_buffer lib i))
      (to_int (to_uint32 (4 * fb_width (frame_buffer lib i))));
    UnmapFrame frame "channel.color";
    Cout ["Output: "%string; name; nl] ].
Proof.
  intros Hname. unfold render.
  destruct (String.eqb name "") eqn:He; [|done].
  by apply String.eqb_eq in He.
Qed.

Lemma ten_files_named i : (i < 10)%nat -> nth i ten_files ""%string <> ""%string.
Proof. intros Hi. do 10 (destruct i as [|i]; [done|]). lia. Qed.

Lemma in_render_cycles lib e :
  e ∈ render_cycles lib ->
  exists i, (i < 10)%nat /\ e ∈ render lib i hFrame (nth i ten_files ""%string).
Proof.
  change (render_cycles lib) with
    (concat (map (fun i => render lib i hFrame (nth i ten_files ""%string))
                 (seq 0 10))).
  intros Hin%list_elem_of_In%in_concat. destruct Hin as (l & Hl & Hin).
  apply in_map_iff in Hl as (i & <- & Hi%in_seq).
  exists i. split; [lia|]. by apply list_elem_of_In.
Qed.

Lemma code_no_float lib t :
  t <> t_render ->
  code_all (fun e => negb (prints_float e)) (thread_code lib t).
Proof. destruct t; intros Ht; try done; simpl; check_code. Qed.

(** The render thread only makes the calls of its ten cycles and of
    what follows them. *)
Lemma render_call lib tr s e :
  run lib tr s ->
  e ∈ events_of t_render tr ->
  (exists i, (i < 10)%nat /\
             e ∈ render lib i hFrame (nth i ten_files ""%string)) \/
  e ∈ render_closing.
Proof.
  intros Hrun Hin.
  destruct (run_straight_prefix lib t_render _ _ _ Hrun eq_refl)
    as [rest Hrest].
  assert (e ∈ renderThread lib) as He.
  { rewrite Hrest. apply elem_of_app. by left. }
  rewrite render_thread_parts in He.
  apply elem_of_app in He as [He|He]; [left|by right].
  by apply in_render_cycles.
Qed.

(** Every image the process writes is written by the render thread, in
    one of its ten cycles, with what the library reports for the mapped
    colour channel in that cycle. *)
Lemma write_in_run lib tr s a name w h comp data stride :
  run lib tr s ->
  (a, Stbi_write_png name w h comp data stride) ∈ tr ->
  a = thread t_render /\
  exists i,
    (i < 10)%nat /\
    name = nth i ten_files ""%string /\
    w = to_int (fb_width (frame_buffer lib i)) /\
    h = to_int (fb_height (frame_buffer lib i)) /\
    comp = 4 /\
    data = fb_data (frame_buffer lib i) /\
    stride = to_int (to_uint32 (4 * fb_width (frame_buffer lib i))).
Proof.
  intros Hrun Hin.
  assert (a = thread t_render) as ->.
  { destruct (decide (a = thread t_render)) as [|Hne]; [done|].
    by pose proof (run_only_render _ _ _ _ _ Hrun Hin Hne). }
  split; [done|]. apply events_by_elem in Hin.
  destruct (render_call _ _ _ _ Hrun Hin) as [(i & Hi & He)|He].
  - exists i. split; [done|].
    rewrite render_named in He by by apply ten_files_named.
    repeat (apply elem_of_cons in He as [He|He]; [by simplify_eq|]).
    by apply elem_of_nil in He.
  - unfold render_closing in He.
    repeat (apply elem_of_cons in He as [He|He]; [by simplify_eq|]).
    by apply elem_of_nil in He.
Qed.

(** Every duration the process prints is printed by the render thread
    in one of its ten cycles: it is [duration * 1000]. *)
Lemma print_in_run lib tr s a st fmt x :
  run lib tr s ->
  (a, Fprintf st fmt [AFloat x]) ∈ tr ->
  a = thread t_render /\
  st = stdout /\
  exists i,
    (i < 10)%nat /\
    x = F32.mul (render_duration lib i) (F32.of_Z 1000).
Proof.
  intros Hrun Hin.
  assert (a = thread t_render) as ->.
  { destruct a as [t|].
    - destruct (decide (t = t_render)) as [->|Hne]; [done|].
      pose proof (run_all _ lib t _ _ Hrun (code_no_float lib t Hne)) as Hall.
      rewrite forallb_forall in Hall.
      apply events_by_elem, list_elem_of_In, Hall in Hin. done.
    - pose proof (run_callback _ _ _ Hrun) as Hall.
      rewrite forallb_forall in Hall.
      apply events_by_elem, list_elem_of_In, Hall in Hin.
      simpl in Hin. by destruct st. }
  split; [done|]. apply events_by_elem in Hin.
  destruct (render_call _ _ _ _ Hrun Hin) as [(i & Hi & He)|He].
  - rewrite render_named in He by by apply ten_files_named.
    repeat (apply elem_of_cons in He as [He|He];
            [simplify_eq; by eauto|]).
    by apply elem_of_nil in He.
  - unfold render_closing in He.
    repeat (apply elem_of_cons in He as [He|He]; [by simplify_eq|]).
    by apply elem_of_nil in He.
Qed.

(** C6 (amended). In each of the 10 render iterations the PNG file is
    written with the width and the height that the library reports for
    the mapped colour channel, and the duration printed is the one the
    library stores for the "duration" property, 0 when it stores none.
    The image is 1024 x 1024 and the duration strictly positive when the
    library reports the configured size and a positive duration. *)
Theorem render_reports_library (lib : library) (tr : list obs) (s : sys) :
  run lib tr s ->
  (forall a name w h comp data stride,
     (a, Stbi_write_png name w h comp data stride) ∈ tr ->
     exists i,
       (i < 10)%nat /\
       name = nth i ten_files ""%string /\
       w = to_int (fb_width (frame_buffer lib i)) /\
       h = to_int (fb_height (frame_buffer lib i))) /\
  (forall a st fmt x,
     (a, Fprintf st fmt [AFloat x]) ∈ tr ->
     exists i,
       (i < 10)%nat /\
       x = F32.mul (render_duration lib i) (F32.of_Z 1000)) /\
  (forall i,
     render_duration lib i =
     match frame_duration lib i with Some d => d | None => F32.zero end) /\
  (* when [main] has returned, the ten images have been written *)
  (exited s = Some 0 ->
   written_images (map snd tr) =
   map (fun i => (nth i ten_files ""%string,
                  to_int (fb_width (frame_buffer lib i)),
                  to_int (fb_height (frame_buffer lib i))))
       (seq 0 10)) /\
  (* a library that reports the configured size and a positive duration *)
  ((forall i,
      (i < 10)%nat ->
      fb_width (frame_buffer lib i) = u2x imageSize /\
      fb_height (frame_buffer lib i) = u2y imageSize /\
      exists d, frame_duration lib i = Some d /\ F32.positive d = true) ->
   (forall a name w h comp data stride,
      (a, Stbi_write_png name w h comp data stride) ∈ tr ->
      w = 1024 /\ h = 1024) /\
   (forall i, (i < 10)%nat -> F32.positive (render_duration lib i) = true)).
Proof.
  intros Hrun. split_and!.
  - intros a name w h comp data stride Hin.
    destruct (write_in_run _ _ _ _ _ _ _ _ _ _ Hrun Hin)
      as (_ & i & Hi & Hn & Hw & Hh & _).
    by exists i.
  - intros a st fmt x Hin.
    by destruct (print_in_run _ _ _ _ _ _ _ Hrun Hin) as (_ & _ & ?).
  - done.
  - intros Hex. destruct (exit_zero _ _ _ Hrun Hex) as (_ & Hfin & _).
    unfold written_images.
    rewrite (omap_only _ (thread t_render)).
    + fold (events_of t_render tr).
      rewrite (run_straight_finished lib t_render _ tr s Hrun eq_refl)
        by by apply Hfin.
      reflexivity.
    + intros a e Hin Ha.
      pose proof (run_only_render _ _ _ _ _ Hrun Hin Ha). by destruct e.
  - intros Hlib. split.
    + intros a name w h comp data stride Hin.
      destruct (write_in_run _ _ _ _ _ _ _ _ _ _ Hrun Hin)
        as (_ & i & Hi & _ & -> & -> & _).
      destruct (Hlib i Hi) as (-> & -> & _). done.
    + intros i Hi. destruct (Hlib i Hi) as (_ & _ & d & Hd & Hpos).
      unfold render_duration. by rewrite Hd.
Qed.

Lemma render_thread_flips lib :
  splits_all flipped_write [] (renderThread lib) = true.
Proof. reflexivity. Qed.

(** C8 (amended). Every image written by [render] has the size the
    library reports for the mapped colour channel of the frame, for
    which [initializeFrame] requests the size 1024 x 1024 and the colour
    format ANARI_UFIXED8_RGBA_SRGB before its commit; the image is
    written with 4 bytes per pixel and a row stride of 4 * width bytes,
    and the vertical flip is switched on before each write. It is
    1024 x 1024 when the library reports the requested size. *)
Theorem image_format (lib : library) (tr : list obs) (s : sys) :
  run lib tr s ->
  initializeFrame hFrame hWorld hRenderer hCamera =
    [ SetParameter hFrame "size" (VUint2 (mkuint2 1024 1024));
      SetParameter hFrame "channel.color"
        (VDataType ANARI_UFIXED8_RGBA_SRGB);
      SetParameter hFrame "world" (VObject hWorld);
      SetParameter hFrame "renderer" (VObject hRenderer);
      SetParameter hFrame "camera" (VObject hCamera);
      CommitParameters hFrame ] /\
  (exists rest,
     initializeFrame hFrame hWorld hRenderer hCamera ++
     [finished_line "frame initialization thread finished"] =
     events_of t_initFrame tr ++ rest) /\
  (forall a name w h comp data stride,
     (a, Stbi_write_png name w h comp data stride) ∈ tr ->
     a = thread t_render /\
     comp = 4 /\
     exists i,
       (i < 10)%nat /\
       w = to_int (fb_width (frame_buffer lib i)) /\
       h = to_int (fb_height (frame_buffer lib i)) /\
       stride = to_int (to_uint32 (4 * fb_width (frame_buffer lib i))) /\
       (fb_width (frame_buffer lib i) = 1024 ->
        fb_height (frame_buffer lib i) = 1024 ->
        w = 1024 /\ h = 1024 /\ stride = 4 * 1024)) /\
  (forall before name w h comp data stride later,
     events_of t_render tr =
       before ++ Stbi_write_png name w h comp data stride :: later ->
     exists before',
       before = before' ++ [ Stbi_flip_vertically_on_write 1;
                             MapFrame hFrame "channel.color" ]).
Proof.
  intros Hrun. split; [done|]. split.
  { apply (run_straight_prefix lib t_initFrame _ tr s Hrun eq_refl). }
  split.
  - intros a name w h comp data stride Hin.
    destruct (write_in_run _ _ _ _ _ _ _ _ _ _ Hrun Hin)
      as (-> & i & Hi & _ & -> & -> & -> & _ & ->).
    split; [done|]. split; [done|]. exists i.
    split_and!; try done. by intros -> ->.
  - intros before name w h comp data stride later Hev.
    destruct (run_straight_prefix lib t_render _ _ _ Hrun eq_refl)
      as [rest Hrest].
    rewrite Hev, <- app_assoc in Hrest. simpl in Hrest.
    pose proof (splits_all_spec _ _ _ _ _ _ (render_thread_flips lib) Hrest)
      as Hflip.
    rewrite app_nil_l in Hflip. unfold flipped_write in Hflip.
    destruct (rev before) as [|[] [|[] r]] eqn:Hrev; try done.
    apply andb_prop in Hflip as [[Hf Hch]%andb_prop Hfl].
    apply bool_decide_eq_true in Hf. apply String.eqb_eq in Hch.
    apply Z.eqb_eq in Hfl. subst.
    exists (rev r). rewrite <- (rev_involutive before), Hrev. simpl.
    by rewrite <- app_assoc.
Qed.

(** ** Runs from lists of choices *)

Lemma exec_of lib cs s :
  exec lib s (trace_from lib cs s) (state_from lib cs s).
Proof.
  unfold trace_from, state_from.
  destruct (run_choices lib cs s) as [[tr s']|] eqn:Hcs;
    [|apply exec_refl].
  by apply run_choices_exec with cs.
Qed.

Lemma run_of lib cs : run lib (trace_of lib cs) (state_of lib cs).
Proof.
  apply (exec_run lib [] initial _ _ (run_start lib)). apply exec_of.
Qed.

(** ** Lifetimes of handles *)

Lemma suffix_all_spec P l d e r :
  suffix_all P l = true -> l = d ++ e :: r -> P e r = true.
Proof.
  revert d. induction l as [|a l IH]; intros d Hall Heq.
  - by destruct d.
  - simpl in Hall. apply andb_prop in Hall as [Ha Hl].
    destruct d as [|a' d]; simplify_eq/=; [done|by eapply IH].
Qed.

(** A list of observations that grows at its end is split inside what it
    was, or inside what was added. *)
Lemma snoc_split {A : Type} (tr os tr1 tr2 : list A) x :
  tr ++ os = tr1 ++ x :: tr2 ->
  (exists tr2', tr = tr1 ++ x :: tr2' /\ tr2 = tr2' ++ os) \/
  (exists os1, tr1 = tr ++ os1 /\ os = os1 ++ x :: tr2).
Proof.
  intros [l [[Htr Hos]|[Htr Hos]]]%app_eq_app.
  - destruct l as [|y l]; simplify_eq/=.
    + right. exists []. by rewrite !app_nil_r.
    + left. by exists l.
  - right. by exists l.
Qed.

(** A property of every observation and what came before it holds in
    every run when each step establishes it for what it adds. *)
Lemma before_property lib (B : list obs -> obs -> Prop) :
  (forall tr s os s' os1 x os2,
     run lib tr s -> step lib s os s' -> os = os1 ++ x :: os2 ->
     B (tr ++ os1) x) ->
  forall tr s, run lib tr s ->
  forall tr1 x tr2, tr = tr1 ++ x :: tr2 -> B tr1 x.
Proof.
  intros Hstep tr s Hrun.
  induction Hrun as [|tr s os s' Hrun IH Hs]; intros tr1 x tr2 Heq.
  - by destruct tr1.
  - apply snoc_split in Heq as [(tr2' & -> & _)|(os1 & -> & ->)].
    + by eapply IH.
    + by eapply Hstep.
Qed.

(** A relation between every observation and each later one holds in
    every run when each step establishes it for what it adds. *)
Lemma after_property lib (R : obs -> obs -> Prop) :
  (forall tr s os s' x o',
     run lib tr s -> step lib s os s' -> x ∈ tr -> o' ∈ os -> R x o') ->
  (forall tr s os s' os1 x os2 o',
     run lib tr s -> step lib s os s' -> os = os1 ++ x :: os2 ->
     o' ∈ os2 -> R x o') ->
  forall tr s, run lib tr s ->
  forall tr1 x tr2 o', tr = tr1 ++ x :: tr2 -> o' ∈ tr2 -> R x o'.
Proof.
  intros Hold Hnew tr s Hrun.
  induction Hrun as [|tr s os s' Hrun IH Hs]; intros tr1 x tr2 o' Heq Hin.
  - by destruct tr1.
  - apply snoc_split in Heq as [(tr2' & -> & ->)|(os1 & -> & ->)].
    + apply elem_of_app in Hin as [Hin|Hin]; [by eapply IH|].
      eapply Hold; [done|done| |done].
      apply elem_of_app. right. by left.
    + by eapply Hnew.
Qed.

Lemma future_step chk c fl st e st' :
  future_all chk c (Some st) ->
  thread_step fl st = Some (e, st') ->
  chk e = true /\ future_all chk c (Some st').
Proof.
  destruct st as [[|e0 rest]|l k [|e0 rest]]; simpl; intros Hf Hst;
    simplify_eq.
  - by apply andb_prop in Hf.
  - destruct Hf as [_ (Hb & Hl & Ha)]. split; [apply Hl|].
    destruct (fl (stop l)); simpl; [done|]. by split.
  - destruct Hf as [[He Hr]%andb_prop Hc]. simpl. by split.
Qed.

Lemma future_start chk c : code_all chk c -> future_all chk c (Some (start c)).
Proof.
  destruct c as [l|l]; simpl; [done|]. intros Hc. split; [|done].
  by destruct Hc as [Hb _].
Qed.

Lemma at_point_future chk c done st :
  at_point c done st -> code_all chk c -> future_all chk c st.
Proof.
  inversion 1 as [|l d rest Hl|l k d rest Hb|l k d rest Ha]; subst; simpl;
    [done|..].
  - rewrite forallb_app. by intros [_ ?]%andb_prop.
  - intros Hc. split; [|done]. destruct Hc as (Hc & _).
    specialize (Hc k). rewrite Hb, forallb_app in Hc.
    by apply andb_prop in Hc as [_ ?].
  - intros (_ & _ & Hc). rewrite Ha, forallb_app in Hc.
    by apply andb_prop in Hc as [_ ?].
Qed.

Lemma no_lifetime_released e : no_lifetime e = true -> released e = None.
Proof. by destruct e. Qed.

Lemma released_plain e h :
  released e = Some h -> spawned e = None /\ joined e = None.
Proof. by destruct e. Qed.

Lemma code_local_unused lib t h :
  local_handle h = true ->
  t <> t_initWorld ->
  code_all (unused h) (thread_code lib t).
Proof.
  destruct h; intros Hh Ht; try done; destruct t; try done; simpl;
    check_code.
Qed.

Lemma code_releases_local lib :
  code_all (fun e => match released e with
                     | Some h => local_handle h
                     | None => true
                     end)
           (thread_code lib t_initWorld).
Proof. simpl. lazy. reflexivity. Qed.

Lemma main_release_last : suffix_all release_after_joins main = true.
Proof. reflexivity. Qed.

Lemma world_release_last lib :
  suffix_all release_last (initWorldThread lib) = true.
Proof. lazy. reflexivity. Qed.

(** Once a handle has been given back, no thread has a call left that
    uses it. *)
Lemma released_future lib tr s :
  run lib tr s ->
  forall a e h,
    (a, e) ∈ tr -> released e = Some h ->
    forall t, future_all (unused h) (thread_code lib t) (threads s t).
Proof.
  induction 1 as [|tr s os s' Hrun IH Hstep];
    [by intros ? ? ? ?%elem_of_nil|].
  intros a e h Hin Hrel t.
  pose proof Hstep as
    [_ [(t1 & st & e1 & st' & Ht & Hst & He & ->)|
        (source & severity & message & -> & Hth & _ & _)]]%step_inv.
  - apply sched_inv in He as (Hth & Hsp & _).
    apply elem_of_app in Hin as [Hin|Hin].
    + (* given back earlier *)
      specialize (IH a e h Hin Hrel). rewrite Hth.
      destruct (decide (t = t1)) as [->|Hne].
      * specialize (IH t1). rewrite Ht in IH.
        by destruct (future_step _ _ _ _ _ _ IH Hst).
      * destruct (decide (spawned e1 = Some t)) as [Hs|]; [|apply IH].
        apply Hsp in Hs as [_ Hs]. specialize (IH t). rewrite Hs in IH.
        by apply future_start.
    + (* given back by this call *)
      apply list_elem_of_singleton in Hin. simplify_eq.
      destruct (released_plain _ _ Hrel) as [Hns Hnj].
      assert (forall t0, threads s' t0 =
                if decide (t0 = t1) then Some st' else threads s t0) as Hth'.
      { intros t0. rewrite Hth, Hns. destruct (decide (t0 = t1)); [done|].
        by destruct (decide (None = Some t0)). }
      rewrite Hth'.
      destruct (decide (t1 = t_main)) as [->|Hnm].
      * (* by [main]: the other threads have ended *)
        destruct (main_running _ _ _ Hrun) as (rest0 & Hm & Hmain).
        rewrite Hm in Ht. simplify_eq.
        destruct rest0 as [|e0 rest]; simplify_eq/=.
        pose proof (suffix_all_spec _ _ _ _ _ main_release_last Hmain) as Hl.
        unfold release_after_joins in Hl. rewrite Hrel in Hl.
        apply andb_prop in Hl as [Hunused Hjoins].
        destruct (decide (t = t_main)) as [->|Hne]; [done|].
        assert (finished (threads s t) = true) as Hfin.
        { apply (joined_finished lib tr s (thread t_main)); [done|].
          apply events_by_elem. fold (events_of t_main tr).
          pose proof (main_joins t Hne) as Hj. rewrite Hmain in Hj.
          apply elem_of_app in Hj as [Hj|Hj]; [done|].
          apply elem_of_cons in Hj as [Hj|Hj]; [by subst|].
          rewrite forallb_forall in Hjoins.
          by apply list_elem_of_In, Hjoins in Hj. }
        by destruct (threads s t) as [[[|? ?]|]|].
      * destruct (decide (t1 = t_initWorld)) as [->|Hnw].
        -- (* by [initializeWorld]: the handle is its own *)
           pose proof (next_in_code _ _ _ _ _ _ _ _ Hrun Ht Hst
                         (code_releases_local lib)) as Hlocal.
           simpl in Hlocal. rewrite Hrel in Hlocal.
           destruct (decide (t = t_initWorld)) as [->|Hne].
           ++ destruct (run_straight lib t_initWorld _ _ _ Hrun eq_refl)
                as [[Hs _]|(rest0 & Hs & Hcode)]; rewrite Hs in Ht; [done|].
              simplify_eq. destruct rest0 as [|e0 rest]; simplify_eq/=.
              pose proof (suffix_all_spec _ _ _ _ _
                            (world_release_last lib) Hcode) as Hl.
              unfold release_last in Hl. by rewrite Hrel in Hl.
           ++ eapply at_point_future; [apply (run_at_point _ _ _ Hrun)|].
              by apply code_local_unused.
        -- pose proof (next_in_code no_lifetime _ _ _ _ _ _ _ Hrun Ht Hst
                         (code_no_lifetime lib t1 Hnm Hnw)) as Hno.
           apply no_lifetime_released in Hno. congruence.
  - rewrite Hth. apply elem_of_app in Hin as [Hin|Hin]; [by eapply IH|].
    apply reported_obs in Hin as [_ [?|[[? ?]|[? ?]]]]; simpl in *;
      by subst.
Qed.

(** X1. No use after release: in every interleaving, once a call has
    given a handle back ([anari::release] or
    [anari::setAndReleaseParameter]), no later call of any thread names
    that handle; and once the device has been released, no call is made
    on the device any more. *)
Theorem no_use_after_release (lib : library) (tr : list obs) (s : sys)
    (tr1 tr2 : list obs) (a : actor) (e : event) (h : handle) :
  run lib tr s ->
  tr = tr1 ++ (a, e) :: tr2 ->
  released e = Some h ->
  (forall o, o ∈ tr2 -> mentions h o.2 = false) /\
  (h = hDevice -> forall o, o ∈ tr2 -> device_call o.2 = false) /\
  (forall o, o ∈ tr2 -> released o.2 <> Some h).
Proof.
  intros Hrun Heq Hrel.
  assert (forall o, o ∈ tr2 -> uses h o.2 = false) as Hunused.
  { intros o Ho.
    apply (after_property lib
             (fun x o' => forall h', released x.2 = Some h' ->
                                     uses h' o'.2 = false))
      with tr s tr1 (a, e) tr2; try done.
    - clear. intros tr s os s' [a e] o' Hrun Hstep Hx Ho h Hrel.
      simpl in Hrel.
      pose proof (released_future _ _ _ Hrun a e h Hx Hrel) as Hfut.
      apply step_inv in Hstep as
        [_ [(t1 & st & e1 & st' & Ht & Hst & He & ->)|
            (source & severity & message & -> & _)]].
      + apply list_elem_of_singleton in Ho as ->. simpl.
        specialize (Hfut t1). rewrite Ht in Hfut.
        destruct (future_step _ _ _ _ _ _ Hfut Hst) as [Hu _].
        by apply negb_true_iff in Hu.
      + apply reported_obs in Ho as [_ [Ho|[[? Ho]|[? Ho]]]];
          rewrite Ho; unfold uses; simpl; by rewrite andb_false_r.
    - clear. intros tr s os s' os1 [a e] os2 o' Hrun Hstep Hos Ho h Hrel.
      simpl in Hrel.
      apply step_inv in Hstep as
        [_ [(t1 & st & e1 & st' & Ht & Hst & He & ->)|
            (source & severity & message & -> & _)]].
      + destruct os1 as [|? [|? ?]]; simplify_eq/=. by apply elem_of_nil in Ho.
      + assert ((a, e) ∈ reported source severity message) as Hx.
        { rewrite Hos. apply elem_of_app. right. by left. }
        apply reported_obs in Hx as [_ [Hx|[[? Hx]|[? Hx]]]];
          simpl in Hx; by subst. }
  split_and!.
  - intros o Ho. specialize (Hunused o Ho). unfold uses in Hunused.
    by apply orb_false_elim in Hunused as [? _].
  - intros -> o Ho. specialize (Hunused o Ho). unfold uses in Hunused.
    by apply orb_false_elim in Hunused as [_ ?].
  - intros o Ho Hagain. specialize (Hunused o Ho). unfold uses in Hunused.
    apply orb_false_elim in Hunused as [Hm _].
    destruct o as [a' e']. simpl in *. destruct e'; simplify_eq/=.
    + apply orb_false_elim in Hm as [_ Hm].
      by apply bool_decide_eq_false in Hm.
    + by apply bool_decide_eq_false in Hm.
Qed.

(** ** Handles are created before they are used *)

Lemma handles_elem h : In h handles.
Proof. destruct h; simpl; tauto. Qed.

Lemma created_first_spec d e h :
  created_first d e = true ->
  uses h e = true ->
  exists e', e' ∈ d /\ creates h e' = true.
Proof.
  unfold created_first. rewrite forallb_forall. intros Hall Hu.
  specialize (Hall h (handles_elem h)). rewrite Hu in Hall. simpl in Hall.
  apply existsb_exists in Hall as (e' & Hin & Hc).
  exists e'. by rewrite list_elem_of_In.
Qed.

Lemma before_spawn_spec t d r :
  Spawn t ∉ d -> before_spawn t (d ++ Spawn t :: r) = d.
Proof.
  induction d as [|e d IH]; intros Hd; simpl.
  - by rewrite bool_decide_eq_true_2.
  - destruct (bool_decide (spawned e = Some t)) eqn:He.
    + apply bool_decide_eq_true, spawned_inv in He as ->.
      destruct Hd. by left.
    + rewrite IH; [done|]. intros Hin. destruct Hd. by right.
Qed.

(** What [main] did before it started a thread has happened when the
    thread runs. *)
Lemma spawned_prefix lib tr s t e :
  run lib tr s ->
  threads s t <> None ->
  t <> t_main ->
  e ∈ before_spawn t main ->
  (thread t_main, e) ∈ tr.
Proof.
  intros Hrun Hst Hne He.
  destruct (started_spawned _ _ _ _ Hrun Hst) as [?|Hsp]; [done|].
  apply list_elem_of_split in Hsp as (d & r & Hsplit).
  destruct (main_running _ _ _ Hrun) as (rest & _ & Hmain).
  rewrite Hsplit, <- app_assoc in Hmain. simpl in Hmain.
  destruct (main_spawn_fresh _ _ _ Hmain) as [_ Hfresh].
  rewrite Hmain, before_spawn_spec in He by done.
  apply events_by_elem. fold (events_of t_main tr). rewrite Hsplit.
  apply elem_of_app. by left.
Qed.

Lemma main_created_first : splits_all created_first [] main = true.
Proof. reflexivity. Qed.

Lemma world_created_first lib :
  splits_all created_first (before_spawn t_initWorld main)
             (initWorldThread lib) = true.
Proof. lazy. reflexivity. Qed.

Lemma code_created_first lib t :
  t <> t_main -> t <> t_initWorld ->
  code_all (created_first (before_spawn t main)) (thread_code lib t).
Proof. destruct t; intros ? ?; try done; simpl; check_code. Qed.

(** X2. No use before creation: in every interleaving, a call that names
    a handle, or that is made on the device, comes after the call that
    created the handle; the creating call was made by [main] or by the
    thread itself. *)
Theorem no_use_before_creation (lib : library) (tr : list obs) (s : sys)
    (tr1 tr2 : list obs) (a : actor) (e : event) (h : handle) :
  run lib tr s ->
  tr = tr1 ++ (a, e) :: tr2 ->
  uses h e = true ->
  exists a' e',
    (a', e') ∈ tr1 /\
    (a' = thread t_main \/ a' = a) /\
    creates h e' = true.
Proof.
  intros Hrun Heq Hu.
  apply (before_property lib
           (fun tr1 x => forall h, uses h x.2 = true ->
              exists a' e', (a', e') ∈ tr1 /\
                            (a' = thread t_main \/ a' = x.1) /\
                            creates h e' = true))
    with tr s tr1 (a, e) tr2 h in Hrun; try done.
  clear. intros tr s os s' os1 [a e] os2 Hrun Hstep Hos h Hu. simpl in *.
  apply step_inv in Hstep as
    [_ [(t1 & st & e1 & st' & Ht & Hst & He & ->)|
        (source & severity & message & -> & _)]].
  - destruct os1 as [|? [|? ?]]; simplify_eq/=. rewrite app_nil_r.
    assert (threads s t1 <> None) as Hstarted by congruence.
    destruct (decide (t1 = t_main)) as [->|Hnm].
    { (* [main] *)
      destruct (main_running _ _ _ Hrun) as (rest0 & Hm & Hmain).
      rewrite Hm in Ht. simplify_eq.
      destruct rest0 as [|e0 rest]; simplify_eq/=.
      pose proof (splits_all_spec _ _ _ _ _ _ main_created_first Hmain)
        as Hc.
      destruct (created_first_spec _ _ _ Hc Hu) as (e' & Hin & Hcr).
      exists (thread t_main), e'. split; [|by split; [left|]].
      by apply events_by_elem. }
    destruct (decide (t1 = t_initWorld)) as [->|Hnw].
    { (* [initializeWorld] *)
      destruct (run_straight lib t_initWorld _ _ _ Hrun eq_refl)
        as [[Hs _]|(rest0 & Hs & Hcode)]; rewrite Hs in Ht; [done|].
      simplify_eq. destruct rest0 as [|e0 rest]; simplify_eq/=.
      pose proof (splits_all_spec _ _ _ _ _ _
                    (world_created_first lib) Hcode) as Hc.
      destruct (created_first_spec _ _ _ Hc Hu) as (e' & Hin & Hcr).
      apply elem_of_app in Hin as [Hin|Hin].
      - exists (thread t_main), e'. split; [|by split; [left|]].
        by eapply spawned_prefix.
      - exists (thread t_initWorld), e'. split; [|by split; [right|]].
        by apply events_by_elem. }
    pose proof (next_in_code _ _ _ _ _ _ _ _ Hrun Ht Hst
                  (code_created_first lib t1 Hnm Hnw)) as Hc.
    destruct (created_first_spec _ _ _ Hc Hu) as (e' & Hin & Hcr).
    exists (thread t_main), e'. split; [|by split; [left|]].
    by eapply spawned_prefix.
  - assert ((a, e) ∈ reported source severity message) as Hx.
    { rewrite Hos. apply elem_of_app. right. by left. }
    apply reported_obs in Hx as [_ [Hx|[[? Hx]|[? Hx]]]];
      simpl in Hx; subst e; unfold uses in Hu; simpl in Hu;
      by rewrite andb_false_r in Hu.
Qed.

(** ** The library is loaded before, and unloaded after, all its calls *)

(** When [main] makes a closing call that only it makes, after it has
    joined the threads, no thread has a call left that fails the
    check. *)
Lemma main_closes_future lib (closes chk : event -> bool) :
  (forall t, t <> t_main ->
             code_all (fun e => negb (closes e)) (thread_code lib t)) ->
  (forall e, callback_call e = true -> closes e = false) ->
  (forall e, closes e = true -> spawned e = None /\ joined e = None) ->
  suffix_all (closes_last closes chk) main = true ->
  forall tr s,
    run lib tr s ->
    forall a e,
      (a, e) ∈ tr -> closes e = true ->
      forall t, future_all chk (thread_code lib t) (threads s t).
Proof.
  intros Hothers Hcb Hplain Hmain_last tr s.
  induction 1 as [|tr s os s' Hrun IH Hstep];
    [by intros ? ? ?%elem_of_nil|].
  intros a e Hin Hcl t.
  pose proof Hstep as
    [_ [(t1 & st & e1 & st' & Ht & Hst & He & ->)|
        (source & severity & message & -> & Hth & _ & _)]]%step_inv.
  - apply sched_inv in He as (Hth & Hsp & _).
    apply elem_of_app in Hin as [Hin|Hin].
    + specialize (IH a e Hin Hcl). rewrite Hth.
      destruct (decide (t = t1)) as [->|Hne].
      * specialize (IH t1). rewrite Ht in IH.
        by destruct (future_step _ _ _ _ _ _ IH Hst).
      * destruct (decide (spawned e1 = Some t)) as [Hs|]; [|apply IH].
        apply Hsp in Hs as [_ Hs]. specialize (IH t). rewrite Hs in IH.
        by apply future_start.
    + apply list_elem_of_singleton in Hin. simplify_eq.
      destruct (Hplain _ Hcl) as [Hns Hnj]. rewrite Hth, Hns.
      destruct (decide (t1 = t_main)) as [->|Hnm].
      * destruct (main_running _ _ _ Hrun) as (rest0 & Hm & Hmain).
        rewrite Hm in Ht. simplify_eq.
        destruct rest0 as [|e0 rest]; simpl in Hst; simplify_eq.
        pose proof (suffix_all_spec _ _ _ _ _ Hmain_last Hmain) as Hl.
        unfold closes_last in Hl. rewrite Hcl in Hl. simpl in Hl.
        apply andb_prop in Hl as [Hchk Hjoins].
        destruct (decide (t = t_main)) as [->|Hne]; [done|].
        destruct (decide (None = Some t)); [done|].
        assert (finished (threads s t) = true) as Hfin.
        { apply (joined_finished lib tr s (thread t_main)); [done|].
          apply events_by_elem. fold (events_of t_main tr).
          pose proof (main_joins t Hne) as Hj. rewrite Hmain in Hj.
          apply elem_of_app in Hj as [Hj|Hj]; [done|].
          apply elem_of_cons in Hj as [Hj|Hj].
          { by rewrite <- Hj in Hnj. }
          rewrite forallb_forall in Hjoins.
          apply list_elem_of_In, Hjoins in Hj. done. }
        by destruct (threads s t) as [[[|? ?]|]|].
      * pose proof (next_in_code _ _ _ _ _ _ _ _ Hrun Ht Hst
                      (Hothers t1 Hnm)) as Hno.
        simpl in Hno. by rewrite Hcl in Hno.
  - rewrite Hth. apply elem_of_app in Hin as [Hin|Hin]; [by eapply IH|].
    assert (callback_call e = true) as Hc.
    { apply reported_obs in Hin as [_ [?|[[? ?]|[? ?]]]]; simpl in *;
        by subst. }
    apply Hcb in Hc. congruence.
Qed.

Lemma code_no_unload lib t :
  t <> t_main ->
  code_all (fun e => negb (is_unload e)) (thread_code lib t).
Proof. destruct t; intros ?; try done; simpl; check_code. Qed.

Lemma main_unload_last :
  suffix_all (closes_last is_unload (fun e => negb (anari_call e))) main
  = true.
Proof. reflexivity. Qed.

Lemma main_loaded_first : splits_all loaded_first [] main = true.
Proof. reflexivity. Qed.

Lemma main_loads_before t :
  t <> t_main -> existsb is_load_library (before_spawn t main) = true.
Proof. by destruct t. Qed.

(** X3. The library is loaded before, and unloaded after, every call
    into it: in every interleaving, each ANARI call of any thread comes
    after [anari::loadLibrary], and after [anari::unloadLibrary] no
    thread makes an ANARI call any more. *)
Theorem library_loaded_around_calls (lib : library) (tr : list obs)
    (s : sys) (tr1 tr2 : list obs) (a : actor) (e : event) :
  run lib tr s ->
  tr = tr1 ++ (a, e) :: tr2 ->
  (anari_call e = true ->
   exists name, (thread t_main, LoadLibrary name) ∈ tr1) /\
  (e = UnloadLibrary ->
   a = thread t_main /\ forall o, o ∈ tr2 -> anari_call o.2 = false).
Proof.
  intros Hrun Heq. split.
  - intros Hcall.
    apply (before_property lib
             (fun tr1 x => anari_call x.2 = true ->
                exists name, (thread t_main, LoadLibrary name) ∈ tr1))
      with tr s tr1 (a, e) tr2 in Hrun; try done.
    clear. intros tr s os s' os1 [a e] os2 Hrun Hstep Hos Hcall.
    simpl in *.
    assert (forall d, existsb is_load_library d = true ->
                      (forall e', e' ∈ d -> (thread t_main, e') ∈ tr) ->
                      exists name, (thread t_main, LoadLibrary name) ∈ tr)
      as Hfound.
    { intros d (e' & Hin & Hl)%existsb_exists Hd.
      destruct e'; try done. eexists. by apply Hd, list_elem_of_In. }
    apply step_inv in Hstep as
      [_ [(t1 & st & e1 & st' & Ht & Hst & He & ->)|
          (source & severity & message & -> & _)]].
    + destruct os1 as [|? [|? ?]]; simplify_eq/=. rewrite app_nil_r.
      destruct (decide (t1 = t_main)) as [->|Hnm].
      * destruct (main_running _ _ _ Hrun) as (rest0 & Hm & Hmain).
        rewrite Hm in Ht. simplify_eq.
        destruct rest0 as [|e0 rest]; simplify_eq/=.
        pose proof (splits_all_spec _ _ _ _ _ _ main_loaded_first Hmain)
          as Hc. unfold loaded_first in Hc. rewrite Hcall in Hc.
        apply (Hfound _ Hc). intros e' He'. by apply events_by_elem.
      * apply (Hfound _ (main_loads_before t1 Hnm)). intros e' He'.
        eapply spawned_prefix; [done| |done|done]. congruence.
    + assert ((a, e) ∈ reported source severity message) as Hx.
      { rewrite Hos. apply elem_of_app. right. by left. }
      apply reported_obs in Hx as [_ [Hx|[[? Hx]|[? Hx]]]];
        simpl in Hx; by subst e.
  - intros ->. split.
    + assert ((a, UnloadLibrary) ∈ tr) as Hin.
      { rewrite Heq. apply elem_of_app. right. by left. }
      destruct a as [t|].
      * destruct (decide (t = t_main)) as [->|Hne]; [done|].
        pose proof (run_all _ _ _ _ _ Hrun (code_no_unload lib t Hne))
          as Hall.
        apply events_by_elem in Hin. rewrite forallb_forall in Hall.
        apply list_elem_of_In, Hall in Hin. done.
      * pose proof (run_callback _ _ _ Hrun) as Hall.
        apply events_by_elem in Hin. rewrite forallb_forall in Hall.
        apply list_elem_of_In, Hall in Hin. done.
    + intros o Ho.
      apply (after_property lib
               (fun x o' => x.2 = UnloadLibrary -> anari_call o'.2 = false))
        with tr s tr1 (a, UnloadLibrary) tr2; try done.
      * clear. intros tr s os s' [a e] o' Hrun Hstep Hx Ho He.
        simpl in He. subst e.
        pose proof (main_closes_future lib is_unload
                      (fun e => negb (anari_call e))
                      (code_no_unload lib)
                      ltac:(by intros [])
                      ltac:(by intros [])
                      main_unload_last _ _ Hrun a UnloadLibrary Hx eq_refl)
          as Hfut.
        apply step_inv in Hstep as
          [_ [(t1 & st & e1 & st' & Ht & Hst & He & ->)|
              (source & severity & message & -> & _)]].
        -- apply list_elem_of_singleton in Ho as ->. simpl.
           specialize (Hfut t1). rewrite Ht in Hfut.
           destruct (future_step _ _ _ _ _ _ Hfut Hst) as [Hu _].
           by apply negb_true_iff in Hu.
        -- apply reported_obs in Ho as [_ [Ho|[[? Ho]|[? Ho]]]];
             by rewrite Ho.
      * clear. intros tr s os s' os1 [a e] os2 o' Hrun Hstep Hos Ho He.
        simpl in He. subst e.
        apply step_inv in Hstep as
          [_ [(t1 & st & e1 & st' & Ht & Hst & He & ->)|
              (source & severity & message & -> & _)]].
        -- destruct os1 as [|? [|? ?]]; simplify_eq/=.
           by apply elem_of_nil in Ho.
        -- assert ((a, UnloadLibrary) ∈ reported source severity message)
             as Hx.
           { rewrite Hos. apply elem_of_app. right. by left. }
           apply reported_obs in Hx as [_ [Hx|[[? Hx]|[? Hx]]]];
             simpl in Hx; done.
Qed.

(** ** Parameters are committed after they are set *)

Lemma events_of_split t tr1 e tr2 :
  events_of t (tr1 ++ (thread t, e) :: tr2) =
  events_of t tr1 ++ e :: events_of t tr2.
Proof.
  unfold events_of. rewrite events_by_app, events_by_cons.
  by destruct (decide (thread t = thread t)).
Qed.

(** The order of the calls of a thread with straight code: what follows
    a call in a run, and what the thread has left, is what follows the
    call in the code. *)
Lemma straight_after lib t l tr s tr1 e tr2 (P : event -> list event -> bool) :
  run lib tr s ->
  thread_code lib t = Straight l ->
  tr = tr1 ++ (thread t, e) :: tr2 ->
  suffix_all P l = true ->
  exists rest,
    l = events_of t tr ++ rest /\
    P e (events_of t tr2 ++ rest) = true.
Proof.
  intros Hrun Hcode -> Hall.
  destruct (run_straight_prefix _ _ _ _ _ Hrun Hcode) as (rest & Hl).
  exists rest. split; [done|].
  rewrite events_of_split, <- app_assoc in Hl. simpl in Hl.
  by eapply suffix_all_spec.
Qed.

Lemma callback_sets_nothing e : callback_call e = true -> parameter_set e = None.
Proof. by destruct e. Qed.

(** What the callback does is not a call of the program. *)
Lemma run_callback_elem lib tr s e :
  run lib tr s -> (callback, e) ∈ tr -> callback_call e = true.
Proof.
  intros Hrun Hin. pose proof (run_callback _ _ _ Hrun) as Hall.
  rewrite forallb_forall in Hall.
  by apply Hall, list_elem_of_In, events_by_elem.
Qed.

Lemma run_all_elem chk lib t tr s e :
  run lib tr s ->
  code_all chk (thread_code lib t) ->
  (thread t, e) ∈ tr ->
  chk e = true.
Proof.
  intros Hrun Hc Hin. pose proof (run_all _ _ _ _ _ Hrun Hc) as Hall.
  rewrite forallb_forall in Hall.
  by apply Hall, list_elem_of_In, events_by_elem.
Qed.

Lemma code_committed lib t :
  match thread_code lib t with
  | Straight l => suffix_all committed_later l = true
  | Forever l => code_all sets_nothing (Forever l)
  end.
Proof. destruct t; simpl; try (lazy; reflexivity); check_code. Qed.

Lemma code_sets_no_light lib t :
  t <> t_initWorld -> code_all sets_no_light (thread_code lib t).
Proof. destruct t; intros ?; try done; simpl; check_code. Qed.

Lemma code_no_world_commit lib t :
  t <> t_initWorld ->
  code_all (fun e => negb (commits hWorld e)) (thread_code lib t).
Proof. destruct t; intros ?; try done; simpl; check_code. Qed.

Lemma world_light_uncommitted lib :
  suffix_all light_uncommitted (initWorldThread lib) = true.
Proof. lazy. reflexivity. Qed.

Lemma world_sets_light lib :
  SetParameterArray1D hWorld "light" [hLight] ∈ initWorldThread lib.
Proof.
  unfold initWorldThread, initializeWorld. cbv zeta.
  apply elem_of_app; left. do 6 (apply elem_of_app; right).
  repeat first [apply list_elem_of_here | apply list_elem_of_further].
Qed.

(** At the end of the run a thread has made all its calls. *)
Lemma exit_all_calls lib tr s t l :
  run lib tr s ->
  exited s = Some 0 ->
  thread_code lib t = Straight l ->
  events_of t tr = l.
Proof.
  intros Hrun Hex Hcode.
  destruct (exit_zero _ _ _ Hrun Hex) as (Hmain & Hfin & _).
  destruct (decide (t = t_main)) as [->|Hne].
  - simpl in Hcode. congruence.
  - by eapply run_straight_finished, Hfin.
Qed.

(** X4. Every parameter is committed: when [main] has returned, each
    call that set a parameter of an object (by [setParameter],
    [setAndReleaseParameter] or [setParameterArray1D]) has been followed
    by a [commitParameters] of that object, made by the same thread;
    the one exception is the parameter "light" of the world. *)
Theorem parameters_committed (lib : library) (tr : list obs) (s : sys)
    (tr1 tr2 : list obs) (a : actor) (e : event) (obj : handle)
    (name : string) :
  run lib tr s ->
  exited s = Some 0 ->
  tr = tr1 ++ (a, e) :: tr2 ->
  parameter_set e = Some (obj, name) ->
  (obj = hWorld /\ name = "light"%string) \/
  (a, CommitParameters obj) ∈ tr2.
Proof.
  intros Hrun Hex Heq Hset.
  assert ((a, e) ∈ tr) as Hin.
  { rewrite Heq. apply elem_of_app. right. by left. }
  destruct a as [t|].
  2:{ apply (run_callback_elem _ _ _ _ Hrun), callback_sets_nothing in Hin.
      congruence. }
  pose proof (code_committed lib t) as Hcode.
  destruct (thread_code lib t) as [l|l] eqn:Hc.
  - destruct (straight_after _ _ _ _ _ _ _ _ _ Hrun Hc Heq Hcode)
      as (rest & Hl & Hlater).
    rewrite (exit_all_calls _ _ _ _ _ Hrun Hex Hc) in Hl.
    assert (rest = []) as ->.
    { apply (f_equal length) in Hl. rewrite length_app in Hl.
      destruct rest; [done|simpl in Hl; lia]. }
    rewrite app_nil_r in Hlater. unfold committed_later in Hlater.
    rewrite Hset in Hlater. simpl in Hlater.
    apply orb_prop in Hlater as [Hc'|Hlight].
    + right. apply existsb_exists in Hc' as (e' & Hin' & He').
      destruct e'; try done. simpl in He'.
      apply bool_decide_eq_true in He' as ->.
      by apply events_by_elem, list_elem_of_In.
    + left. unfold world_light in Hlight. simpl in Hlight.
      apply andb_prop in Hlight as [Ho Hn].
      apply bool_decide_eq_true in Ho. by apply String.eqb_eq in Hn.
  - rewrite <- Hc in Hcode.
    pose proof (run_all_elem _ _ _ _ _ _ Hrun Hcode Hin) as Hno.
    unfold sets_nothing in Hno. by rewrite Hset in Hno.
Qed.

(** X5. The light of the world is not committed: [initializeWorld] sets
    the parameter "light" of the world after its only commit of the
    world, so that in every interleaving no [commitParameters] of the
    world follows it, by any thread, up to the end of the run. *)
Theorem world_light_not_committed (lib : library) (tr : list obs)
    (s : sys) :
  run lib tr s ->
  (exited s = Some 0 ->
   (thread t_initWorld, SetParameterArray1D hWorld "light" [hLight]) ∈ tr) /\
  (forall tr1 a e tr2,
     tr = tr1 ++ (a, e) :: tr2 ->
     parameter_set e = Some (hWorld, "light"%string) ->
     a = thread t_initWorld /\
     forall o, o ∈ tr2 -> commits hWorld o.2 = false).
Proof.
  intros Hrun. split.
  - intros Hex.
    apply events_by_elem. fold (events_of t_initWorld tr).
    rewrite (exit_all_calls lib tr s t_initWorld (initWorldThread lib)
               Hrun Hex eq_refl).
    apply world_sets_light.
  - intros tr1 a e tr2 Heq Hset.
    assert ((a, e) ∈ tr) as Hin.
    { rewrite Heq. apply elem_of_app. right. by left. }
    assert (a = thread t_initWorld) as ->.
    { destruct a as [t|].
      - destruct (decide (t = t_initWorld)) as [->|Hne]; [done|].
        pose proof (run_all_elem _ _ _ _ _ _ Hrun
                      (code_sets_no_light lib t Hne) Hin) as Hno.
        unfold sets_no_light in Hno. by rewrite Hset in Hno.
      - apply (run_callback_elem _ _ _ _ Hrun), callback_sets_nothing
          in Hin. congruence. }
    split; [done|]. intros [a' e'] Ho. simpl.
    destruct (commits hWorld e') eqn:Hc; [|done].
    assert ((a', e') ∈ tr) as Hin'.
    { rewrite Heq. apply elem_of_app. right. by right. }
    destruct a' as [t'|].
    + destruct (decide (t' = t_initWorld)) as [->|Hne].
      * destruct (straight_after lib t_initWorld _ _ _ _ _ _ _ Hrun
                    eq_refl Heq (world_light_uncommitted lib))
          as (rest & _ & Hlater).
        unfold light_uncommitted in Hlater. rewrite Hset in Hlater.
        simpl in Hlater. rewrite forallb_forall in Hlater.
        assert (In e' (events_of t_initWorld tr2 ++ rest)) as Hi.
        { apply in_or_app. left.
          by apply list_elem_of_In, events_by_elem. }
        apply Hlater in Hi. by rewrite Hc in Hi.
      * pose proof (run_all_elem _ _ _ _ _ _ Hrun
                      (code_no_world_commit lib t' Hne) Hin') as Hno.
        simpl in Hno. by rewrite Hc in Hno.
    + apply (run_callback_elem _ _ _ _ Hrun) in Hin'. by destruct e'.
Qed.

(** ** The life of a thread: between its spawn and its join *)

Lemma lifecycle_before lib tr s tr1 a e tr2 :
  run lib tr s ->
  tr = tr1 ++ (a, e) :: tr2 ->
  (forall t, spawned e = Some t \/ joined e = Some t ->
             a = thread t_main /\ t <> t_main) /\
  (forall t, a = thread t -> t <> t_main ->
             (thread t_main, Spawn t) ∈ tr1 /\
             forall a', (a', Join t) ∉ tr1) /\
  (forall t, spawned e = Some t -> forall a', (a', Spawn t) ∉ tr1) /\
  (forall t, joined e = Some t -> (thread t_main, Spawn t) ∈ tr1).
Proof.
  intros Hrun Heq.
  apply (before_property lib
           (fun tr1 x =>
              (forall t, spawned x.2 = Some t \/ joined x.2 = Some t ->
                         x.1 = thread t_main /\ t <> t_main) /\
              (forall t, x.1 = thread t -> t <> t_main ->
                         (thread t_main, Spawn t) ∈ tr1 /\
                         forall a', (a', Join t) ∉ tr1) /\
              (forall t, spawned x.2 = Some t ->
                         forall a', (a', Spawn t) ∉ tr1) /\
              (forall t, joined x.2 = Some t ->
                         (thread t_main, Spawn t) ∈ tr1)))
    with tr s tr1 (a, e) tr2 in Hrun; try done.
  clear. intros tr s os s' os1 [a e] os2 Hrun Hstep Hos. simpl.
  apply step_inv in Hstep as
    [_ [(t1 & st & e1 & st' & Ht & Hst & He & ->)|
        (source & severity & message & -> & _)]].
  - destruct os1 as [|? [|? ?]]; simplify_eq/=. rewrite app_nil_r.
    apply sched_inv in He as (_ & Hsp & _).
    assert (forall t, spawned e = Some t \/ joined e = Some t ->
                      t1 = t_main) as Hmain_only.
    { intros t Hc. destruct (decide (t1 = t_main)) as [|Hne]; [done|].
      pose proof (next_in_code _ _ _ _ _ _ _ _ Hrun Ht Hst
                    (code_no_control lib t1 Hne)) as Hno.
      apply no_control_inv in Hno as [Hs Hj]. rewrite Hs, Hj in Hc.
      by destruct Hc. }
    assert (forall t, spawned e = Some t \/ joined e = Some t ->
                      exists d r, events_of t_main tr = d /\
                                  main = d ++ e :: r) as Hat.
    { intros t Hc. rewrite (Hmain_only t Hc) in Ht.
      destruct (main_running _ _ _ Hrun) as (rest0 & Hm & Hmain).
      rewrite Hm in Ht. simplify_eq.
      destruct rest0 as [|e0 rest]; simplify_eq/=. eauto. }
    split_and!.
    + intros t Hc. split; [by rewrite (Hmain_only t Hc)|].
      destruct (Hat t Hc) as (d & r & _ & Hmain).
      destruct Hc as [->%spawned_inv| ->%joined_inv].
      * by destruct (main_spawn_fresh _ _ _ Hmain).
      * by destruct (main_join_late _ _ _ Hmain).
    + intros t [= <-] Hne. split.
      * apply events_by_elem.
        destruct (started_spawned lib tr s t1 Hrun) as [?|?];
          [congruence|done|done].
      * intros a' Hj.
        pose proof (joined_finished _ _ _ _ _ Hrun Hj) as Hfin.
        rewrite Ht in Hfin. by destruct st as [[|? ?]|].
    + intros t Hs a' Hin.
      apply Hsp in Hs as [_ Hs].
      by apply (spawned_started _ _ _ _ _ Hrun) in Hin.
    + intros t Hj.
      destruct (Hat t (or_intror Hj)) as (d & r & Hd & Hmain).
      apply joined_inv in Hj as ->.
      destruct (main_join_late _ _ _ Hmain) as [Hne Hall].
      apply events_by_elem. fold (events_of t_main tr). rewrite Hd.
      by apply Hall.
  - assert ((a, e) ∈ reported source severity message) as Hx.
    { rewrite Hos. apply elem_of_app. right. by left. }
    apply reported_obs in Hx as [Ha Hx]. simpl in *. subst a.
    split_and!; try done;
      intros t Hc; destruct Hx as [->|[[? ->]| [? ->]]];
      simpl in Hc; try done; by destruct Hc.
Qed.

(** X6. The life of a thread: in every interleaving only [main] starts
    and joins threads, and each thread once; every call of a thread comes
    after [main] has started it and before any join of it; after [main]
    has joined a thread, the thread makes no call. *)
Theorem thread_between_spawn_and_join (lib : library) (tr : list obs)
    (s : sys) (tr1 tr2 : list obs) (a : actor) (e : event) :
  run lib tr s ->
  tr = tr1 ++ (a, e) :: tr2 ->
  (forall t, e = Spawn t \/ e = Join t ->
             a = thread t_main /\ t <> t_main) /\
  (forall t, e = Spawn t ->
             forall o, o ∈ tr1 ++ tr2 -> o.2 <> Spawn t) /\
  (forall t, a = thread t -> t <> t_main ->
             (thread t_main, Spawn t) ∈ tr1 /\
             forall o, o ∈ tr1 -> o.2 <> Join t) /\
  (forall t, e = Join t ->
             (thread t_main, Spawn t) ∈ tr1 /\
             forall o, o ∈ tr2 -> o.1 <> thread t).
Proof.
  intros Hrun Heq.
  destruct (lifecycle_before _ _ _ _ _ _ _ Hrun Heq)
    as (Hmain & Hlive & Honce & Hspawned).
  assert (forall o, o ∈ tr2 ->
            exists m r, tr = (tr1 ++ (a, e) :: m) ++ o :: r) as Hlater.
  { intros o (m & r & ->)%list_elem_of_split. exists m, r.
    by rewrite Heq, <- app_assoc. }
  split_and!.
  - intros t [->| ->]; apply Hmain; simpl; eauto.
  - intros t -> o [Ho|Ho]%elem_of_app Hs.
    + destruct o as [a' e']. simpl in Hs. subst e'.
      by apply (Honce t eq_refl a').
    + destruct (Hlater o Ho) as (m & r & Heq').
      destruct o as [a' e']. simpl in Hs. subst e'.
      destruct (lifecycle_before _ _ _ _ _ _ _ Hrun Heq')
        as (_ & _ & Honce' & _).
      apply (Honce' t eq_refl a). apply elem_of_app. right. by left.
  - intros t Ha Hne. destruct (Hlive t Ha Hne) as [Hs Hj].
    split; [done|]. intros [a' e'] Ho He'. simpl in He'. subst e'.
    by apply (Hj a').
  - intros t ->. split; [by apply Hspawned|].
    intros o Ho Ha. destruct (Hlater o Ho) as (m & r & Heq').
    destruct o as [a' e']. simpl in Ha. subst a'.
    destruct (Hmain t (or_intror eq_refl)) as [_ Hne].
    destruct (lifecycle_before _ _ _ _ _ _ _ Hrun Heq')
      as (_ & Hlive' & _ & _).
    destruct (Hlive' t eq_refl Hne) as [_ Hj].
    apply (Hj a). apply elem_of_app. right. by left.
Qed.

(** ** The shape of the polling loops *)

Lemma code_load_free lib t :
  match thread_code lib t with
  | Straight l => forallb no_load l = true
  | Forever l =>
      (forall k, forallb no_load (body l k) = true) /\
      forallb no_load (after l) = true
  end.
Proof. destruct t; simpl; try (lazy; reflexivity); check_code. Qed.

(** A test of a stop flag reads the flag. *)
Lemma load_value lib tr s t st f b st' :
  run lib tr s ->
  threads s t = Some st ->
  thread_step (flags s) st = Some (Load f b, st') ->
  b = flags s f.
Proof.
  intros Hrun Ht Hst.
  pose proof (run_at_point _ _ _ Hrun t) as Hat. rewrite Ht in Hat.
  pose proof (code_load_free lib t) as Hfree.
  inversion Hat as [|l d rest Hl Hc|l k d rest Hb Hc|l k d rest Ha Hc];
    subst; rewrite <- Hc in Hfree.
  - destruct rest as [|e rest]; simplify_eq/=.
    rewrite forallb_app in Hfree. by apply andb_prop in Hfree as [_ ?].
  - destruct Hfree as [Hbody _]. specialize (Hbody k).
    destruct rest as [|e rest]; simplify_eq/=; [done|].
    rewrite Hb, forallb_app in Hbody.
    by apply andb_prop in Hbody as [_ ?].
  - destruct Hfree as [_ Hafter].
    destruct rest as [|e rest]; simplify_eq/=.
    rewrite Ha, forallb_app in Hafter.
    by apply andb_prop in Hafter as [_ ?].
Qed.

(** A test that found a stop flag set: the flag is set, and stays so. *)
Lemma load_true_flag lib tr s a f :
  run lib tr s -> (a, Load f true) ∈ tr -> flags s f = true.
Proof.
  induction 1 as [|tr s os s' Hrun IH Hstep]; [by intros ?%elem_of_nil|].
  intros [Hin|Hin]%elem_of_app.
  { eapply flag_stays; [done|by apply IH|by apply exec_one]. }
  apply step_inv in Hstep as
    [_ [(t1 & st & e1 & st' & Ht & Hst & He & ->)|
        (source & severity & message & -> & _)]].
  - apply list_elem_of_singleton in Hin. simplify_eq.
    apply sched_inv in He as (_ & _ & _ & Hfl & _). rewrite Hfl.
    symmetry. by eapply load_value.
  - apply reported_obs in Hin as [_ [?|[[? ?]|[? ?]]]]; done.
Qed.

Lemma count_iterations lib t l k :
  thread_code lib t = Forever l ->
  count is_query (iterations l k) = k /\
  count is_load (iterations l k) = k.
Proof.
  intros Hc. destruct (poller_code _ _ _ Hc) as (_ & Hbody & _).
  induction k as [|k [IHq IHl]]; [done|].
  destruct (Hbody k) as (Hq & Hl & _).
  rewrite iterations_S, !count_app, IHq, IHl, Hq, Hl.
  unfold count. simpl. lia.
Qed.

Lemma count_prefix chk (d rest : list event) :
  (count chk d <= count chk (d ++ rest))%nat.
Proof. rewrite count_app. lia. Qed.

(** The calls a polling thread has made: full iterations, then a part of
    the next one, or the last iteration, the test that ended the loop and
    a part of what follows the loop. *)
Lemma forever_calls lib t l tr s :
  run lib tr s ->
  thread_code lib t = Forever l ->
  events_of t tr = [] \/
  (exists k d rest,
     events_of t tr = iterations l k ++ d /\ body l k = d ++ rest) \/
  (exists k d rest,
     events_of t tr =
       (iterations l k ++ body l k ++ [Load (stop l) true]) ++ d /\
     after l = d ++ rest).
Proof.
  intros Hrun Hc. pose proof (run_at_point _ _ _ Hrun t) as Hat.
  rewrite Hc in Hat.
  inversion Hat as [|l0 d rest Hl|l0 k d rest Hb|l0 k d rest Ha]; subst.
  - by left.
  - right. left. by exists k, d, rest.
  - right. right. exists k, d, rest. split; [|done].
    by rewrite <- !app_assoc.
Qed.

(** X7. The shape of the polling loops: each of the three polling
    threads queries first and tests its stop flag after each query, so
    that it has made as many queries as tests, or one more; a test finds
    the flag set only when the ten images have been written; and a
    thread that has ended has made at least one query, even if its flag
    was set before it started. *)
Theorem polling_loop_shape (lib : library) (t : tid) (l : loop)
    (tr : list obs) (s : sys) :
  run lib tr s ->
  thread_code lib t = Forever l ->
  (count is_load (events_of t tr) <= count is_query (events_of t tr)
   <= count is_load (events_of t tr) + 1)%nat /\
  (forall a f,
     (a, Load f true) ∈ tr ->
     flags s f = true /\ written_files (map snd tr) = ten_files) /\
  (finished (threads s t) = true ->
   exists k,
     events_of t tr =
       iterations l k ++ body l k ++ [Load (stop l) true] ++ after l /\
     count is_query (events_of t tr) = S k /\
     count is_load (events_of t tr) = S k).
Proof.
  intros Hrun Hc.
  destruct (poller_code _ _ _ Hc) as (_ & Hbody & Haq & Hal & _).
  assert (forall k,
            count is_query
              (iterations l k ++ body l k ++ [Load (stop l) true]) = S k /\
            count is_load
              (iterations l k ++ body l k ++ [Load (stop l) true]) = S k)
    as Hround.
  { intros k. destruct (count_iterations lib t l k Hc) as [Hq Hl].
    destruct (Hbody k) as (Hbq & Hbl & _).
    rewrite !count_app, Hq, Hl, Hbq, Hbl. unfold count. simpl. lia. }
  split; [|split].
  - destruct (forever_calls _ _ _ _ _ Hrun Hc)
      as [->|[(k & d & rest & -> & Hb)|(k & d & rest & -> & Ha)]].
    + unfold count. simpl. lia.
    + destruct (count_iterations lib t l k Hc) as [Hq Hl].
      destruct (Hbody k) as (Hbq & Hbl & _).
      pose proof (count_prefix is_query d rest) as Hdq.
      pose proof (count_prefix is_load d rest) as Hdl.
      rewrite <- Hb, ?Hbq, ?Hbl in Hdq, Hdl.
      rewrite !count_app, Hq, Hl. lia.
    + destruct (Hround k) as [Hq Hl].
      pose proof (count_prefix is_query d rest) as Hdq.
      pose proof (count_prefix is_load d rest) as Hdl.
      rewrite <- Ha, ?Haq, ?Hal in Hdq, Hdl.
      set (round := iterations l k ++ body l k ++ [Load (stop l) true])
        in *.
      rewrite !count_app, Hq, Hl. lia.
  - intros a f Hin.
    pose proof (load_true_flag _ _ _ _ _ Hrun Hin) as Hf.
    split; [done|].
    destruct (render_cycles_facts lib) as (Hfiles & _).
    destruct (run_render_only _ _ _ Hrun) as (Hwf & _).
    destruct (flag_after_cycles _ _ _ _ Hrun Hf) as (d & r & Hd & Hcl).
    rewrite Hwf, Hd, written_files_app, Hfiles.
    assert (written_files render_closing = []) as Hw by done.
    rewrite Hcl, written_files_app in Hw. apply app_eq_nil in Hw as [-> _].
    by rewrite app_nil_r.
  - intros Hfin.
    destruct (run_forever_finished _ _ _ _ _ Hrun Hc Hfin) as [k Hk].
    exists k. split; [done|]. destruct (Hround k) as [Hq Hl].
    rewrite Hk.
    replace (iterations l k ++ body l k ++ [Load (stop l) true] ++ after l)
      with ((iterations l k ++ body l k ++ [Load (stop l) true]) ++ after l)
      by (by rewrite <- !app_assoc).
    set (round := iterations l k ++ body l k ++ [Load (stop l) true]) in *.
    rewrite !count_app, Hq, Hl, Haq, Hal. lia.
Qed.

(** ** What the threads write to standard error *)

Lemma iterations_elem l k e :
  e ∈ iterations l k ->
  (exists j, (j < k)%nat /\ e ∈ body l j) \/ e = Load (stop l) false.
Proof.
  unfold iterations. rewrite list_elem_of_In, in_flat_map.
  intros (j & Hj & He). apply in_seq in Hj.
  apply in_app_or in He as [He|[<-|[]]]; [left|by right].
  exists j. split; [lia|]. by apply list_elem_of_In.
Qed.

(** A call of a polling thread is a call of its loop body, a test of its
    flag, or a call after the loop. *)
Lemma forever_elem lib t l tr s e :
  run lib tr s ->
  thread_code lib t = Forever l ->
  e ∈ events_of t tr ->
  (exists k, e ∈ body l k) \/ (exists b, e = Load (stop l) b) \/
  e ∈ after l.
Proof.
  intros Hrun Hc He.
  assert (forall k, e ∈ iterations l k ->
                    (exists k, e ∈ body l k) \/
                    (exists b, e = Load (stop l) b) \/ e ∈ after l)
    as Hit.
  { intros k [(j & _ & Hj)| ->]%iterations_elem; eauto. }
  destruct (forever_calls _ _ _ _ _ Hrun Hc)
    as [Heq|[(k & d & rest & Heq & Hb)|(k & d & rest & Heq & Ha)]];
    rewrite Heq in He.
  - by apply elem_of_nil in He.
  - apply elem_of_app in He as [He|He]; [by eapply Hit|].
    left. exists k. rewrite Hb. apply elem_of_app. by left.
  - apply elem_of_app in He as [He|He].
    + apply elem_of_app in He as [He|He]; [by eapply Hit|].
      apply elem_of_app in He as [He|He]; [by eauto|].
      apply list_elem_of_singleton in He. eauto.
    + right. right. rewrite Ha. apply elem_of_app. by left.
Qed.

Lemma code_no_stderr lib t :
  t <> t_queryExtension ->
  code_all (fun e => negb (is_stderr e)) (thread_code lib t).
Proof. destruct t; intros ?; try done; simpl; check_code. Qed.

Lemma query_body lib k :
  body (queryExtensionThread lib) k =
  GetDeviceExtensions "default"
    :: if has_camera lib k then [] else [extension_not_found].
Proof.
  unfold has_camera. simpl. unfold deviceHasExtension. simpl.
  by destruct (deviceHasExtension_scan _ _).
Qed.

Lemma count_iterations_of chk l k n :
  (forall j, (j < k)%nat -> count chk (body l j) = n) ->
  chk (Load (stop l) false) = false ->
  count chk (iterations l k) = (k * n)%nat.
Proof.
  intros Hbody Hload. induction k as [|k IH]; [done|].
  rewrite iterations_S, !count_app, IH, Hbody by (intros; auto with lia).
  rewrite count_cons, Hload. unfold count. simpl. lia.
Qed.

(** X8. What the threads write to standard error: only the extension
    query thread does, the line "extension not found", and only after a
    query that did not find ANARI_KHR_CAMERA_PERSPECTIVE. With a device
    that lists the extension at every query no thread writes to standard
    error; with a device that never lists it, the thread has written the
    line after each of its queries when it ends. *)
Theorem extension_not_found_reported (lib : library) (tr : list obs)
    (s : sys) :
  run lib tr s ->
  (forall t fmt args,
     (thread t, Fprintf stderr fmt args) ∈ tr ->
     t = t_queryExtension /\
     Fprintf stderr fmt args = extension_not_found /\
     exists k, has_camera lib k = false) /\
  ((forall k, exists names junk,
      device_extensions lib k "default" = map Some names ++ None :: junk /\
      "ANARI_KHR_CAMERA_PERSPECTIVE"%string ∈ names) ->
   forall t e, (thread t, e) ∈ tr -> is_stderr e = false) /\
  ((forall k, has_camera lib k = false) ->
   finished (threads s t_queryExtension) = true ->
   count is_stderr (events_of t_queryExtension tr) =
     count is_query (events_of t_queryExtension tr) /\
   (1 <= count is_stderr (events_of t_queryExtension tr))%nat).
Proof.
  intros Hrun.
  assert (forall t fmt args,
            (thread t, Fprintf stderr fmt args) ∈ tr ->
            t = t_queryExtension /\
            Fprintf stderr fmt args = extension_not_found /\
            exists k, has_camera lib k = false) as Honly.
  { intros t fmt args Hin.
    destruct (decide (t = t_queryExtension)) as [->|Hne].
    2:{ by pose proof (run_all_elem _ _ _ _ _ _ Hrun
                         (code_no_stderr lib t Hne) Hin). }
    split; [done|]. apply events_by_elem in Hin.
    destruct (forever_elem lib t_queryExtension _ _ _ _ Hrun eq_refl Hin)
      as [[k Hk]|[[b Hb]|Ha]].
    - rewrite query_body in Hk.
      apply elem_of_cons in Hk as [?|Hk]; [done|].
      destruct (has_camera lib k) eqn:Hcam;
        [by apply elem_of_nil in Hk|].
      apply list_elem_of_singleton in Hk. eauto.
    - done.
    - apply list_elem_of_singleton in Ha. done. }
  split; [done|]. split.
  - intros Hlisted t e Hin. destruct (is_stderr e) eqn:He; [|done].
    destruct e as [| | | | | | | | | | | | | | | | | | | |st fmt args| | | | | | | |];
      try done.
    destruct st; [done|].
    destruct (Honly _ _ _ Hin) as (_ & _ & k & Hk).
    destruct (Hlisted k) as (names & junk & Hext & Hname).
    unfold has_camera, deviceHasExtension in Hk. simpl in Hk.
    rewrite Hext in Hk.
    apply (deviceHasExtension_scan_iff names junk) in Hname. congruence.
  - intros Hmissing Hfin.
    destruct (run_forever_finished lib t_queryExtension _ _ _ Hrun
                eq_refl Hfin) as [k Hk].
    assert (forall j, body (queryExtensionThread lib) j =
                      [GetDeviceExtensions "default"; extension_not_found])
      as Hbody.
    { intros j. by rewrite query_body, Hmissing. }
    rewrite Hk, !count_app.
    rewrite !(count_iterations_of _ _ k 1); try done;
      [|by intros; rewrite Hbody..].
    rewrite Hbody. unfold count. simpl. lia.
Qed.

(** ** The spheres and their translation *)

Lemma fresh_samples count pos d g :
  fresh_spheres count pos d g =
  (map (fun v => float3_add v pos) (samples count d g).1.1,
   map norm (samples count d g).1.1,
   (samples count d g).1.2,
   (samples count d g).2).
Proof.
  revert d g. induction count as [|count IH]; intros d g; [done|].
  cbn [fresh_spheres samples].
  destruct (normal_distribution_call d g) as [[a d1] g1].
  destruct (normal_distribution_call d1 g1) as [[b d2] g2].
  destruct (normal_distribution_call d2 g2) as [[c d3] g3].
  rewrite IH. by destruct (samples count d3 g3) as [[vs d'] g'].
Qed.

Lemma length_samples count d g : length (samples count d g).1.1 = count.
Proof.
  revert d g. induction count as [|count IH]; intros d g; [done|].
  cbn [samples].
  destruct (normal_distribution_call d g) as [[a d1] g1].
  destruct (normal_distribution_call d1 g1) as [[b d2] g2].
  destruct (normal_distribution_call d2 g2) as [[c d3] g3].
  specialize (IH d3 g3).
  destruct (samples count d3 g3) as [[vs d'] g']. simpl in *. by rewrite IH.
Qed.

Lemma world_spheres_samples lib pos :
  positions (world_spheres lib pos) =
    map (fun v => float3_add v pos) world_samples /\
  distances (world_spheres lib pos) = map norm world_samples /\
  rng (world_spheres lib pos) =
    (samples (Z.to_nat numSpheres)
       (normal_distribution_init F32.zero (F32.lit 25 100))
       (Mt19937.seed Mt19937.default 0)).2.
Proof.
  pose proof (world_spheres_fresh lib pos) as H.
  rewrite fresh_samples in H. cbv beta iota in H. rewrite H.
  split; [reflexivity|]. split; reflexivity.
Qed.

(** X9. The spheres and their translation: [initializeWorld] computes
    the distance of a sphere from the three samples before it adds [pos],
    so the positions are the samples moved by [pos], while the distances
    (the attribute that colours the spheres) and the index array do not
    depend on [pos]; each of the three arrays is filled in all its
    [numSpheres] elements. *)
Theorem spheres_translated (lib : library) (pos : float3) :
  positions (world_spheres lib pos) =
    map (fun v => float3_add v pos) world_samples /\
  distances (world_spheres lib pos) = map norm world_samples /\
  (forall pos',
     distances (world_spheres lib pos') = distances (world_spheres lib pos) /\
     world_indices lib pos' = world_indices lib pos) /\
  Z.of_nat (length (positions (world_spheres lib pos))) = numSpheres /\
  Z.of_nat (length (distances (world_spheres lib pos))) = numSpheres /\
  Z.of_nat (length (world_indices lib pos)) = numSpheres.
Proof.
  destruct (world_spheres_samples lib pos) as (Hp & Hd & Hg).
  assert (Z.of_nat (length world_samples) = numSpheres) as Hlen.
  { unfold world_samples. rewrite length_samples. by apply Z2Nat.id. }
  split; [exact Hp|]. split; [exact Hd|]. split.
  - intros pos'. destruct (world_spheres_samples lib pos') as (_ & Hd' & Hg').
    split; [by rewrite Hd, Hd'|].
    unfold world_indices. by rewrite Hg, Hg'.
  - split; [by rewrite Hp, length_map|].
    split; [by rewrite Hd, length_map|].
    rewrite (Permutation_length (world_indices_perm lib pos)).
    rewrite length_seqZ. by apply Z2Nat.id.
Qed.

(** ** Mapping arrays and the frame *)

(** The order of the calls of a thread with straight code: what precedes
    a call in a run is what precedes it in the code. *)
Lemma straight_before lib t l tr s tr1 e tr2
    (P : list event -> event -> bool) :
  run lib tr s ->
  thread_code lib t = Straight l ->
  tr = tr1 ++ (thread t, e) :: tr2 ->
  splits_all P [] l = true ->
  P (events_of t tr1) e = true.
Proof.
  intros Hrun Hcode -> Hall.
  destruct (run_straight_prefix _ _ _ _ _ Hrun Hcode) as (rest & Hl).
  rewrite events_of_split, <- app_assoc in Hl. simpl in Hl.
  by apply (splits_all_spec _ _ _ _ _ _ Hall Hl).
Qed.

Lemma split_elem {A : Type} (tr tr1 tr2 : list A) x :
  tr = tr1 ++ x :: tr2 -> x ∈ tr.
Proof. intros ->. apply elem_of_app. right. by left. Qed.

Lemma code_no_array_call lib t :
  t <> t_initWorld ->
  code_all (fun e => negb (array_call e)) (thread_code lib t).
Proof. destruct t; intros ?; try done; simpl; check_code. Qed.

Lemma world_array_order lib :
  splits_all array_order [] (initWorldThread lib) = true.
Proof. lazy. reflexivity. Qed.

Lemma array_order_other d e : array_call e = false -> array_order d e = true.
Proof. destruct e; simpl; try done. by intros ->. Qed.

(** X10. Arrays are filled before they are passed on: in every
    interleaving only [initializeWorld] maps, unmaps and hands over
    arrays; it maps an array once, unmaps it once after that, and passes
    it to [setAndReleaseParameter] only when it has been unmapped. *)
Theorem arrays_unmapped_before_use (lib : library) (tr : list obs)
    (s : sys) (tr1 tr2 : list obs) (a : actor) (e : event) :
  run lib tr s ->
  tr = tr1 ++ (a, e) :: tr2 ->
  (array_call e = true -> a = thread t_initWorld) /\
  (forall h, e = Map h ->
     array_handle h = true /\
     forall o, o ∈ tr1 -> is_map h o.2 = false) /\
  (forall h data, e = Unmap h data ->
     (thread t_initWorld, Map h) ∈ tr1 /\
     forall o, o ∈ tr1 -> is_unmap h o.2 = false) /\
  (forall obj name h, e = SetAndReleaseParameter obj name h ->
     array_handle h = true ->
     exists data, (thread t_initWorld, Unmap h data) ∈ tr1).
Proof.
  intros Hrun Heq.
  assert (forall a' e', (a', e') ∈ tr -> array_call e' = true ->
                        a' = thread t_initWorld) as Honly.
  { intros a' e' Hin Hcall. destruct a' as [t|].
    - destruct (decide (t = t_initWorld)) as [->|Hne]; [done|].
      pose proof (run_all_elem _ _ _ _ _ _ Hrun
                    (code_no_array_call lib t Hne) Hin) as Hno.
      simpl in Hno. by rewrite Hcall in Hno.
    - apply (run_callback_elem _ _ _ _ Hrun) in Hin. by destruct e'. }
  assert (array_order (events_of t_initWorld tr1) e = true) as Hord.
  { destruct (array_call e) eqn:Hcall; [|by apply array_order_other].
    pose proof (Honly a e (split_elem _ _ _ _ Heq) Hcall) as ->.
    by apply (straight_before lib t_initWorld _ tr s tr1 e tr2 _ Hrun
                eq_refl Heq (world_array_order lib)). }
  assert (forall o, o ∈ tr1 -> o ∈ tr) as Hsub.
  { intros o Ho. rewrite Heq. apply elem_of_app. by left. }
  assert (forall chk,
            (forall e', chk e' = true -> array_call e' = true) ->
            existsb chk (events_of t_initWorld tr1) = false ->
            forall o, o ∈ tr1 -> chk o.2 = false) as Hnone.
  { intros chk Hchk Hex [a' e'] Ho. simpl.
    destruct (chk e') eqn:Hc; [|done].
    pose proof (Honly a' e' (Hsub _ Ho) (Hchk _ Hc)) as ->.
    assert (existsb chk (events_of t_initWorld tr1) = true) as Hyes.
    { apply existsb_exists. exists e'. split; [|done].
      by apply list_elem_of_In, events_by_elem. }
    congruence. }
  assert (forall chk,
            existsb chk (events_of t_initWorld tr1) = true ->
            exists e', (thread t_initWorld, e') ∈ tr1 /\ chk e' = true)
    as Hsome.
  { intros chk (e' & Hin & Hc)%existsb_exists. exists e'.
    split; [|done]. by apply events_by_elem, list_elem_of_In. }
  split; [by apply (Honly a e), (split_elem _ _ _ _ Heq)|].
  split_and!.
  - intros h ->. simpl in Hord. apply andb_prop in Hord as [Harr Hno].
    split; [done|]. apply negb_true_iff in Hno.
    apply (Hnone (is_map h)); [by intros []|done].
  - intros h data ->. simpl in Hord. apply andb_prop in Hord as [Hm Hno].
    split.
    + apply Hsome in Hm as (e' & Hin & He'). destruct e'; try done.
      simpl in He'. by apply bool_decide_eq_true in He' as ->.
    + apply negb_true_iff in Hno.
      apply (Hnone (is_unmap h)); [by intros []|done].
  - intros obj name h -> Harr. simpl in Hord. rewrite Harr in Hord.
    simpl in Hord. apply Hsome in Hord as (e' & Hin & He').
    destruct e'; try done. simpl in He'.
    apply bool_decide_eq_true in He' as ->. eauto.
Qed.

Lemma code_no_frame_op lib t :
  t <> t_render -> code_all no_frame_op (thread_code lib t).
Proof. destruct t; intros ?; try done; simpl; check_code. Qed.

Lemma render_frame_order lib :
  splits_all frame_order [] (renderThread lib) = true.
Proof. lazy. reflexivity. Qed.

(** X11. The frame is rendered, waited for, mapped, written and unmapped
    in this order: in every interleaving only the render thread makes
    these calls, and among them each [anari::render] comes first or after
    an unmap, each [anari::wait] after the render, each map of the colour
    channel after the wait, each [stbi_write_png] after the map, and
    each unmap after the write; so the frame is never rendered while it
    is mapped, and written only while it is mapped. *)
Theorem frame_mapped_in_order (lib : library) (tr : list obs) (s : sys)
    (tr1 tr2 : list obs) (a : actor) (e : event) :
  run lib tr s ->
  tr = tr1 ++ (a, e) :: tr2 ->
  (forall op, frame_op_of e = Some op -> a = thread t_render) /\
  last_frame_op (map snd tr1) = last_frame_op (events_of t_render tr1) /\
  frame_order (map snd tr1) e = true.
Proof.
  intros Hrun Heq.
  assert (forall a' e', (a', e') ∈ tr -> a' <> thread t_render ->
                        frame_op_of e' = None) as Honly.
  { intros a' e' Hin Hne. destruct a' as [t|].
    - assert (t <> t_render) as Hne' by congruence.
      pose proof (run_all_elem _ _ _ _ _ _ Hrun
                    (code_no_frame_op lib t Hne') Hin) as Hno.
      unfold no_frame_op in Hno. by destruct (frame_op_of e').
    - apply (run_callback_elem _ _ _ _ Hrun) in Hin. by destruct e'. }
  assert (last_frame_op (map snd tr1) =
          last_frame_op (events_of t_render tr1)) as Hlast.
  { unfold last_frame_op, events_of. f_equal. apply omap_only.
    intros a' e' Hin Hne. apply (Honly a' e'); [|done].
    rewrite Heq. apply elem_of_app. by left. }
  assert (forall op, frame_op_of e = Some op -> a = thread t_render)
    as Hrender.
  { intros op Hop. destruct (decide (a = thread t_render)); [done|].
    rewrite (Honly a e (split_elem _ _ _ _ Heq)) in Hop; done. }
  split; [done|]. split; [done|].
  destruct (frame_op_of e) as [op|] eqn:Hop.
  - rewrite (Hrender op eq_refl) in Heq.
    pose proof (straight_before lib t_render _ tr s tr1 e tr2 _ Hrun
                  eq_refl Heq (render_frame_order lib)) as Hord.
    unfold frame_order in *. by rewrite Hlast.
  - unfold frame_order. by rewrite Hop.
Qed.

(** ** One thread per object *)

Lemma code_writes_own lib t : code_all (writes_own t) (thread_code lib t).
Proof. destruct t; simpl; check_code. Qed.

Lemma callback_writes_nothing obj e :
  callback_call e = true -> writes obj e = false.
Proof. by destruct e. Qed.

(** X12. One thread per object: in every interleaving the parameters of
    an object are set and committed by one thread only, the thread that
    was started to set it up (the world and what [initializeWorld]
    creates by the world thread, the renderer, the camera and the frame
    by their threads); [main], the polling threads and the render thread
    set and commit nothing. *)
Theorem one_writer_per_object (lib : library) (tr : list obs) (s : sys)
    (a : actor) (e : event) (obj : handle) :
  run lib tr s ->
  (a, e) ∈ tr ->
  writes obj e = true ->
  a = thread (owner obj) /\
  owner obj <> t_main /\ owner obj <> t_render /\
  owner obj <> t_queryExtension /\ owner obj <> t_queryBoundsNoWait /\
  owner obj <> t_queryBoundsWait /\
  forall a' e', (a', e') ∈ tr -> writes obj e' = true -> a' = a.
Proof.
  intros Hrun Hin Hw.
  assert (forall a' e', (a', e') ∈ tr -> writes obj e' = true ->
                        a' = thread (owner obj)) as Hown.
  { intros a' e' Hin' Hw'. destruct a' as [t|].
    - pose proof (run_all_elem _ _ _ _ _ _ Hrun
                    (code_writes_own lib t) Hin') as Hall.
      unfold writes_own in Hall. rewrite forallb_forall in Hall.
      specialize (Hall obj (handles_elem obj)). rewrite Hw' in Hall.
      simpl in Hall. by apply bool_decide_eq_true in Hall as ->.
    - apply (run_callback_elem _ _ _ _ Hrun) in Hin'.
      by rewrite (callback_writes_nothing obj e') in Hw'. }
  pose proof (Hown a e Hin Hw) as ->.
  split; [done|].
  assert (obj <> hDevice) as Hdev.
  { intros ->. simpl in *.
    pose proof (run_all_elem _ _ _ _ _ _ Hrun
                  (code_writes_own lib t_main) Hin) as Hall.
    unfold writes_own in Hall. rewrite forallb_forall in Hall.
    specialize (Hall hDevice (handles_elem hDevice)).
    rewrite Hw in Hall. simpl in Hall.
    clear -Hin Hall Hrun Hw.
    assert (forallb (fun e => negb (writes hDevice e)) main = true)
      as Hmain by reflexivity.
    destruct (main_running _ _ _ Hrun) as (rest & _ & Hm).
    rewrite Hm, forallb_app in Hmain.
    apply andb_prop in Hmain as [Hmain _].
    rewrite forallb_forall in Hmain.
    apply events_by_elem, list_elem_of_In, Hmain in Hin.
    by rewrite Hw in Hin. }
  do 5 (split; [by destruct obj|]).
  intros a' e' Hin' Hw'. by apply Hown in Hin'.
Qed.

(** ** The size [render] passes to [stbi_write_png] *)

Lemma to_int_exact z :
  0 <= z < 2 ^ 32 ->
  (to_int z = z <-> z < 2 ^ 31) /\ (2 ^ 31 <= z -> to_int z = z - 2 ^ 32).
Proof.
  unfold to_int.
  change (2 ^ 32) with 4294967296. change (2 ^ 31) with 2147483648.
  intros Hz. Z.div_mod_to_equations. lia.
Qed.

Lemma stride_exact w :
  0 <= w < 2 ^ 32 ->
  (to_int (to_uint32 (4 * w)) = 4 * w <-> w < 2 ^ 29) /\
  (2 ^ 29 <= w < 2 ^ 30 -> to_int (to_uint32 (4 * w)) = 4 * w - 2 ^ 32) /\
  (w = 2 ^ 30 -> to_int (to_uint32 (4 * w)) = 0).
Proof.
  unfold to_int, to_uint32.
  change (2 ^ 32) with 4294967296. change (2 ^ 31) with 2147483648.
  change (2 ^ 30) with 1073741824. change (2 ^ 29) with 536870912.
  intros Hz. Z.div_mod_to_equations. lia.
Qed.

(** X13. The size [render] passes to [stbi_write_png]: the width and the
    height of the mapped channel are unsigned 32-bit values and are
    passed as [int], the stride is computed as [4 * fb.width] in unsigned
    32-bit arithmetic. The image is written with the width (the height)
    the library reports exactly when that is below 2^31, and with the
    stride 4 * width exactly when the width is below 2^29; from there on
    the stride is negative or wraps around. With an empty file name
    [render] renders and waits, and maps and writes nothing. *)
Theorem render_passes_size (lib : library) (i : nat) (frame : handle)
    (fileName : string) :
  fileName <> ""%string ->
  0 <= fb_width (frame_buffer lib i) < 2 ^ 32 ->
  0 <= fb_height (frame_buffer lib i) < 2 ^ 32 ->
  let fb := frame_buffer lib i in
  written_images (render lib i frame "") = [] /\
  omap frame_op_of (render lib i frame "") = [op_render; op_wait] /\
  exists w h stride,
    written_images (render lib i frame fileName) = [(fileName, w, h)] /\
    Stbi_write_png fileName w h 4 (fb_data fb) stride
      ∈ render lib i frame fileName /\
    (w = fb_width fb <-> fb_width fb < 2 ^ 31) /\
    (h = fb_height fb <-> fb_height fb < 2 ^ 31) /\
    (stride = 4 * fb_width fb <-> fb_width fb < 2 ^ 29) /\
    (2 ^ 31 <= fb_width fb -> w < 0) /\
    (2 ^ 29 <= fb_width fb < 2 ^ 30 -> stride < 0) /\
    (fb_width fb = 2 ^ 30 -> stride = 0).
Proof.
  intros Hname Hw Hh fb. subst fb.
  split; [done|]. split; [done|].
  exists (to_int (fb_width (frame_buffer lib i))),
         (to_int (fb_height (frame_buffer lib i))),
         (to_int (to_uint32 (4 * fb_width (frame_buffer lib i)))).
  rewrite (render_named _ _ _ _ Hname).
  destruct (to_int_exact _ Hw) as [Hwe Hwn].
  destruct (to_int_exact _ Hh) as [Hhe _].
  destruct (stride_exact _ Hw) as (Hse & Hsn & Hsz).
  split; [done|]. split.
  { do 6 apply list_elem_of_further. apply list_elem_of_here. }
  split; [done|]. split; [done|]. split; [done|]. split.
  { intros Hbig. rewrite (Hwn Hbig).
    change (2 ^ 32) with 4294967296 in *. lia. }
  split; [|done].
  intros Hmid. rewrite (Hsn Hmid).
  change (2 ^ 32) with 4294967296. change (2 ^ 30) with 1073741824 in Hmid.
  lia.
Qed.

(** ** What a complete run writes to standard output *)

Lemma body_no_stdout lib t l k :
  thread_code lib t = Forever l -> count is_stdout (body l k) = 0%nat.
Proof.
  destruct t; intros Hc; simplify_eq/=; try done.
  change (count is_stdout (body (queryExtensionThread lib) k) = 0%nat).
  rewrite query_body. by destruct (has_camera lib k).
Qed.

Lemma after_finished_line lib t l :
  thread_code lib t = Forever l ->
  exists what, after l = [finished_line what].
Proof. destruct t; intros Hc; simplify_eq/=; eauto. Qed.

Lemma exit_stdout lib tr s t :
  run lib tr s ->
  exited s = Some 0 ->
  count is_stdout (events_of t tr) = stdout_lines t.
Proof.
  intros Hrun Hex.
  destruct (exit_zero _ _ _ Hrun Hex) as (Hmain & Hfin & _).
  destruct (thread_code lib t) as [l|l] eqn:Hc.
  - rewrite (exit_all_calls _ _ _ _ _ Hrun Hex Hc).
    destruct t; simplify_eq/=; lazy; reflexivity.
  - assert (t <> t_main) as Hne by (by intros ->).
    destruct (run_forever_finished _ _ _ _ _ Hrun Hc (Hfin t Hne))
      as [k ->].
    destruct (after_finished_line _ _ _ Hc) as [what ->].
    rewrite !count_app, (body_no_stdout lib t l k Hc).
    rewrite (count_iterations_of is_stdout l k 0);
      [|by intros; eapply body_no_stdout|done].
    destruct t; simplify_eq/=; unfold count; simpl; lia.
Qed.

Lemma callback_no_stdout e : callback_call e = true -> is_stdout e = false.
Proof. destruct e as [| | | | | | | | | | | | | | | | | | | |[] ? ?| | | | | | | |]; done. Qed.

(** X14. What a complete run writes to standard output: when [main]
    has returned, the program has written the same 28 lines in every
    interleaving: one line for each of the ten frames rendered, one for
    each of the ten images written, and one line of each of the eight
    threads, which is the last call the thread makes. *)
Theorem stdout_of_complete_run (lib : library) (tr : list obs) (s : sys) :
  run lib tr s ->
  exited s = Some 0 ->
  count is_stdout (map snd tr) = 28%nat /\
  (forall t, count is_stdout (events_of t tr) = stdout_lines t) /\
  (forall t, t <> t_main ->
     exists d what, events_of t tr = d ++ [finished_line what]) /\
  forall a e, (a, e) ∈ tr -> is_stdout e = true ->
              exists t, a = thread t /\ t <> t_main.
Proof.
  intros Hrun Hex.
  destruct (exit_zero _ _ _ Hrun Hex) as (Hmain & Hfin & _).
  pose proof (fun t => exit_stdout lib tr s t Hrun Hex) as Hcount.
  split_and!.
  - rewrite count_by_actor. unfold all_actors, all_threads.
    cbn [map sum_list foldr].
    rewrite (count_none is_stdout _ _ (run_callback _ _ _ Hrun)
               callback_no_stdout).
    change (events_by (thread ?t) tr) with (events_of t tr).
    rewrite !Hcount. reflexivity.
  - done.
  - intros t Hne.
    destruct (thread_code lib t) as [l|l] eqn:Hc.
    + rewrite (exit_all_calls _ _ _ _ _ Hrun Hex Hc).
      destruct t; simplify_eq/=; try (eexists _, _; reflexivity).
      exists (render_cycles lib ++
              [ Store finish_queryExtension true;
                Store finish_queryBoundsNoWait true;
                Store finish_queryBoundsWait true ]),
             "render thread finished"%string.
      by rewrite render_thread_parts, <- app_assoc.
    + destruct (run_forever_finished _ _ _ _ _ Hrun Hc (Hfin t Hne))
        as [k ->].
      destruct (after_finished_line _ _ _ Hc) as [what ->].
      exists (iterations l k ++ body l k ++ [Load (stop l) true]), what.
      by rewrite <- !app_assoc.
  - intros a e Hin Hout. destruct a as [t|].
    + exists t. split; [done|]. intros ->.
      apply events_by_elem in Hin. fold (events_of t_main tr) in Hin.
      rewrite Hmain in Hin.
      assert (forallb (fun e => negb (is_stdout e)) main = true) as Hno
        by reflexivity.
      rewrite forallb_forall in Hno.
      apply list_elem_of_In, Hno in Hin. by rewrite Hout in Hin.
    + apply (run_callback_elem _ _ _ _ Hrun), callback_no_stdout in Hin.
      congruence.
Qed.

End Program.

(** ** The properties on concrete runs

    The model with the stand-ins for the implementation-defined
    algorithms. *)
Abbreviation demo_run :=
  (run sampler sampler_init sampler_call fisher_yates).
Abbreviation demo_exec :=
  (exec sampler sampler_init sampler_call fisher_yates).
Abbreviation demo_trace :=
  (trace_of sampler sampler_init sampler_call fisher_yates).
Abbreviation demo_state :=
  (state_of sampler sampler_init sampler_call fisher_yates).

(** the state when the render thread has ended and no polling thread has
    been given a turn yet *)
Abbreviation after_render := (demo_state ready_device render_first).

Ltac in_trace :=
  apply list_elem_of_In; lazy; repeat (first [left; reflexivity | right]).

Lemma render_thread_ten_cycles_witness :
  demo_run ready_device (demo_trace ready_device full_schedule)
           (demo_state ready_device full_schedule) /\
  exited (demo_state ready_device full_schedule) = Some 0 /\
  written_files (map snd (demo_trace ready_device full_schedule)) = ten_files /\
  count is_render (map snd (demo_trace ready_device full_schedule)) = 10%nat.
Proof.
  pose proof (run_of sampler sampler_init sampler_call fisher_yates
                ready_device full_schedule) as Hrun.
  split; [exact Hrun|]. split; [reflexivity|].
  destruct (render_thread_ten_cycles sampler sampler_init sampler_call
              fisher_yates ready_device _ _ Hrun)
    as (_ & _ & _ & _ & _ & _ & _ & _ & _ & _ & Hexit).
  destruct (Hexit eq_refl) as (_ & Hfiles & Hrenders & _).
  split; [exact Hfiles|exact Hrenders].
Defined.

Lemma statusFunc_by_severity_witness :
  exited initial = None /\
  step_fn sampler sampler_init sampler_call fisher_yates ready_device
    initial (report 7 ANARI_SEVERITY_FATAL_ERROR "device lost") =
  Some (fatal_report 7 "device lost",
        mksys (threads initial) (flags initial) (Some 1)).
Proof.
  split; [reflexivity|].
  destruct (statusFunc_by_severity sampler sampler_init sampler_call
              fisher_yates ready_device initial 7 "device lost")
    as (_ & _ & _ & _ & _ & _ & Hstep & _).
  exact (Hstep ANARI_SEVERITY_FATAL_ERROR eq_refl).
Defined.

Lemma polling_thread_stops_witness :
  demo_run ready_device (demo_trace ready_device render_first) after_render /\
  thread_code sampler sampler_init sampler_call fisher_yates ready_device
    t_queryExtension = Forever (queryExtensionThread ready_device) /\
  flags after_render (stop (queryExtensionThread ready_device)) = true /\
  demo_exec ready_device after_render
    (trace_from sampler sampler_init sampler_call fisher_yates ready_device
       two_turns after_render)
    (state_from sampler sampler_init sampler_call fisher_yates ready_device
       two_turns after_render) /\
  (count is_query
     (events_of t_queryExtension
        (trace_from sampler sampler_init sampler_call fisher_yates
           ready_device two_turns after_render)) <= 1)%nat /\
  exists tr1 s1,
    run_choices sampler sampler_init sampler_call fisher_yates ready_device
      (replicate
         (length (remaining (queryExtensionThread ready_device)
                            (threads after_render t_queryExtension)))
         (sched t_queryExtension))
      after_render = Some (tr1, s1) /\
    finished (threads s1 t_queryExtension) = true.
Proof.
  pose proof (run_of sampler sampler_init sampler_call fisher_yates
                ready_device render_first) as Hrun.
  pose proof (exec_of sampler sampler_init sampler_call fisher_yates
                ready_device two_turns after_render) as Hexec.
  assert (flags after_render (stop (queryExtensionThread ready_device))
          = true) as Hflag by reflexivity.
  destruct (polling_thread_stops sampler sampler_init sampler_call
              fisher_yates ready_device t_queryExtension
              (queryExtensionThread ready_device)
              (demo_trace ready_device render_first) after_render
              (trace_from sampler sampler_init sampler_call fisher_yates
                 ready_device two_turns after_render)
              (state_from sampler sampler_init sampler_call fisher_yates
                 ready_device two_turns after_render)
              Hrun eq_refl Hflag Hexec)
    as (_ & _ & _ & _ & _ & Hq & _ & _ & Hends).
  split; [exact Hrun|]. split; [reflexivity|]. split; [exact Hflag|].
  split; [exact Hexec|]. split; [exact Hq|].
  apply Hends; [reflexivity|].
  intros Hnone.
  assert (match threads after_render t_queryExtension with
          | Some _ => true
          | None => false
          end = true) as Hstarted by reflexivity.
  rewrite Hnone in Hstarted. discriminate Hstarted.
Defined.

Lemma handles_released_once_witness :
  demo_run ready_device (demo_trace ready_device full_schedule)
           (demo_state ready_device full_schedule) /\
  exited (demo_state ready_device full_schedule) = Some 0 /\
  (forall h,
     count (creates h) (map snd (demo_trace ready_device full_schedule))
       = 1%nat /\
     count (releases h) (map snd (demo_trace ready_device full_schedule))
       = 1%nat) /\
  count is_unload (map snd (demo_trace ready_device full_schedule)) = 1%nat.
Proof.
  pose proof (run_of sampler sampler_init sampler_call fisher_yates
                ready_device full_schedule) as Hrun.
  split; [exact Hrun|]. split; [reflexivity|].
  exact (handles_released_once sampler sampler_init sampler_call
           fisher_yates ready_device _ _ Hrun eq_refl).
Defined.

Lemma deviceHasExtension_iff_witness :
  device_extensions ready_device 0 "default" =
    map Some known_extensions ++ None :: [] /\
  (deviceHasExtension ready_device 0 "default"
     "ANARI_KHR_CAMERA_PERSPECTIVE").2 = true /\
  (deviceHasExtension ready_device 0 "default"
     "ANARI_MADE_UP_EXTENSION").2 = false.
Proof.
  split; [reflexivity|]. split.
  - destruct (deviceHasExtension_iff ready_device 0 "default"
                "ANARI_KHR_CAMERA_PERSPECTIVE" known_extensions [] eq_refl)
      as (_ & _ & Hin & _).
    apply Hin. apply list_elem_of_here.
  - destruct (deviceHasExtension_iff ready_device 0 "default"
                "ANARI_MADE_UP_EXTENSION" known_extensions [] eq_refl)
      as (_ & _ & _ & Hout).
    apply Hout. intros Hin. apply list_elem_of_In in Hin. simpl in Hin.
    destruct Hin as [Hin|[Hin|[]]]; discriminate Hin.
Defined.

Lemma render_reports_library_witness :
  demo_run ready_device (demo_trace ready_device full_schedule)
           (demo_state ready_device full_schedule) /\
  (forall i,
     (i < 10)%nat ->
     fb_width (frame_buffer ready_device i) = u2x imageSize /\
     fb_height (frame_buffer ready_device i) = u2y imageSize /\
     exists d, frame_duration ready_device i = Some d /\
               F32.positive d = true) /\
  (forall a name w h comp data stride,
     (a, Stbi_write_png name w h comp data stride)
       ∈ demo_trace ready_device full_schedule ->
     w = 1024 /\ h = 1024) /\
  (forall i, (i < 10)%nat ->
             F32.positive (render_duration ready_device i) = true).
Proof.
  pose proof (run_of sampler sampler_init sampler_call fisher_yates
                ready_device full_schedule) as Hrun.
  assert (forall i,
            (i < 10)%nat ->
            fb_width (frame_buffer ready_device i) = u2x imageSize /\
            fb_height (frame_buffer ready_device i) = u2y imageSize /\
            exists d, frame_duration ready_device i = Some d /\
                      F32.positive d = true) as Hlib.
  { intros i _. split; [reflexivity|]. split; [reflexivity|].
    exists (F32.lit 1 100). split; reflexivity. }
  split; [exact Hrun|]. split; [exact Hlib|].
  destruct (render_reports_library sampler sampler_init sampler_call
              fisher_yates ready_device _ _ Hrun)
    as (_ & _ & _ & _ & Hgood).
  exact (Hgood Hlib).
Defined.

Lemma process_exit_witness :
  demo_run ready_device (demo_trace ready_device full_schedule)
           (demo_state ready_device full_schedule) /\
  no_fatal (demo_trace ready_device full_schedule) = true /\
  exited (demo_state ready_device full_schedule) = Some 0 /\
  events_of t_main (demo_trace ready_device full_schedule) = main /\
  count is_unload (map snd (demo_trace ready_device full_schedule)) = 1%nat.
Proof.
  pose proof (run_of sampler sampler_init sampler_call fisher_yates
                ready_device full_schedule) as Hrun.
  destruct (process_exit sampler sampler_init sampler_call fisher_yates
              ready_device _ _ Hrun) as (Hend & _).
  destruct (Hend eq_refl 0 eq_refl) as (_ & Hmain & _ & _ & _ & Hunload).
  split; [exact Hrun|]. split; [reflexivity|]. split; [reflexivity|].
  split; [exact Hmain|exact Hunload].
Defined.

Lemma image_format_witness :
  demo_run ready_device (demo_trace ready_device full_schedule)
           (demo_state ready_device full_schedule) /\
  forall a name w h comp data stride,
    (a, Stbi_write_png name w h comp data stride)
      ∈ demo_trace ready_device full_schedule ->
    a = thread t_render /\ comp = 4 /\
    w = 1024 /\ h = 1024 /\ stride = 4 * 1024.
Proof.
  pose proof (run_of sampler sampler_init sampler_call fisher_yates
                ready_device full_schedule) as Hrun.
  split; [exact Hrun|].
  intros a name w h comp data stride Hin.
  destruct (image_format sampler sampler_init sampler_call fisher_yates
              ready_device _ _ Hrun) as (_ & _ & Hw & _).
  destruct (Hw a name w h comp data stride Hin)
    as (Ha & Hc & i & _ & _ & _ & _ & Hsize).
  destruct (Hsize eq_refl eq_refl) as (Hw' & Hh' & Hs').
  split; [exact Ha|]. split; [exact Hc|]. split; [exact Hw'|].
  split; [exact Hh'|exact Hs'].
Defined.

(** ** The render thread ahead of [initFrameThread]

    Nothing orders the render thread after the thread that sets up the
    frame. In the run [render_first] the frame is rendered, mapped and
    written ten times before [initFrameThread] has made a single call; a
    device that has no committed frame has no duration to report and maps
    nothing. *)

Lemma render_reports_library_counterexample :
  demo_run unready_device (demo_trace unready_device render_first)
           (demo_state unready_device render_first) /\
  events_of t_initFrame (demo_trace unready_device render_first) = [] /\
  (thread t_render, Stbi_write_png "out_0.png" 0 0 4 [] 0)
    ∈ demo_trace unready_device render_first /\
  (thread t_render,
   Fprintf stdout ("rendered frame in %fms" ++ nl)
     [AFloat (F32.mul F32.zero (F32.of_Z 1000))])
    ∈ demo_trace unready_device render_first /\
  render_duration unready_device 0 = F32.zero /\
  F32.positive (render_duration unready_device 0) = false /\
  0 <> 1024.
Proof.
  split; [apply run_of|]. split; [reflexivity|].
  split; [in_trace|]. split; [in_trace|].
  split; [reflexivity|]. split; [reflexivity|discriminate].
Qed.

Lemma image_format_counterexample :
  demo_run unready_device (demo_trace unready_device render_first)
           (demo_state unready_device render_first) /\
  written_images (map snd (demo_trace unready_device render_first)) =
    map (fun name => (name, 0, 0)) ten_files /\
  ~ (forall a name w h comp data stride,
       (a, Stbi_write_png name w h comp data stride)
         ∈ demo_trace unready_device render_first ->
       w = 1024 /\ h = 1024).
Proof.
  split; [apply run_of|]. split; [reflexivity|].
  intros Hall.
  assert ((thread t_render, Stbi_write_png "out_0.png" 0 0 4 [] 0)
            ∈ demo_trace unready_device render_first) as Hin by in_trace.
  destruct (Hall _ _ _ _ _ _ _ Hin) as [Hw _]. discriminate Hw.
Qed.

(** ** Further properties on the concrete run *)

Lemma no_use_after_release_witness :
  demo_run ready_device (demo_trace ready_device full_schedule)
           (demo_state ready_device full_schedule) /\
  demo_trace ready_device full_schedule =
    take 143 (demo_trace ready_device full_schedule) ++
    (thread t_initWorld, SetAndReleaseParameter hSurface "geometry" hGeometry)
    :: drop 144 (demo_trace ready_device full_schedule) /\
  forall o,
    o ∈ drop 144 (demo_trace ready_device full_schedule) ->
    mentions hGeometry o.2 = false.
Proof.
  pose proof (run_of sampler sampler_init sampler_call fisher_yates
                ready_device full_schedule) as Hrun.
  assert (demo_trace ready_device full_schedule =
            take 143 (demo_trace ready_device full_schedule) ++
            (thread t_initWorld,
             SetAndReleaseParameter hSurface "geometry" hGeometry)
            :: drop 144 (demo_trace ready_device full_schedule)) as Hsplit.
  { symmetry. apply take_drop_middle. lazy. reflexivity. }
  split; [exact Hrun|]. split; [exact Hsplit|].
  destruct (no_use_after_release sampler sampler_init sampler_call
              fisher_yates ready_device
              (demo_trace ready_device full_schedule)
              (demo_state ready_device full_schedule)
              (take 143 (demo_trace ready_device full_schedule))
              (drop 144 (demo_trace ready_device full_schedule))
              (thread t_initWorld)
              (SetAndReleaseParameter hSurface "geometry" hGeometry)
              hGeometry Hrun Hsplit eq_refl) as (Hm & _).
  exact Hm.
Defined.

Lemma no_use_before_creation_witness :
  demo_run ready_device (demo_trace ready_device full_schedule)
           (demo_state ready_device full_schedule) /\
  demo_trace ready_device full_schedule =
    take 143 (demo_trace ready_device full_schedule) ++
    (thread t_initWorld, SetAndReleaseParameter hSurface "geometry" hGeometry)
    :: drop 144 (demo_trace ready_device full_schedule) /\
  uses hGeometry (SetAndReleaseParameter hSurface "geometry" hGeometry)
    = true /\
  exists a' e',
    (a', e') ∈ take 143 (demo_trace ready_device full_schedule) /\
    (a' = thread t_main \/ a' = thread t_initWorld) /\
    creates hGeometry e' = true.
Proof.
  pose proof (run_of sampler sampler_init sampler_call fisher_yates
                ready_device full_schedule) as Hrun.
  assert (demo_trace ready_device full_schedule =
            take 143 (demo_trace ready_device full_schedule) ++
            (thread t_initWorld,
             SetAndReleaseParameter hSurface "geometry" hGeometry)
            :: drop 144 (demo_trace ready_device full_schedule)) as Hsplit.
  { symmetry. apply take_drop_middle. lazy. reflexivity. }
  split; [exact Hrun|]. split; [exact Hsplit|]. split; [reflexivity|].
  exact (no_use_before_creation sampler sampler_init sampler_call
           fisher_yates ready_device
           (demo_trace ready_device full_schedule)
           (demo_state ready_device full_schedule)
           (take 143 (demo_trace ready_device full_schedule))
           (drop 144 (demo_trace ready_device full_schedule))
           (thread t_initWorld)
           (SetAndReleaseParameter hSurface "geometry" hGeometry)
           hGeometry Hrun Hsplit eq_refl).
Defined.

Lemma library_loaded_around_calls_witness :
  demo_run ready_device (demo_trace ready_device full_schedule)
           (demo_state ready_device full_schedule) /\
  demo_trace ready_device full_schedule =
    take 185 (demo_trace ready_device full_schedule) ++
    (thread t_main, UnloadLibrary)
    :: drop 186 (demo_trace ready_device full_schedule) /\
  (exists name,
     (thread t_main, LoadLibrary name)
       ∈ take 185 (demo_trace ready_device full_schedule)) /\
  forall o,
    o ∈ drop 186 (demo_trace ready_device full_schedule) ->
    anari_call o.2 = false.
Proof.
  pose proof (run_of sampler sampler_init sampler_call fisher_yates
                ready_device full_schedule) as Hrun.
  assert (demo_trace ready_device full_schedule =
            take 185 (demo_trace ready_device full_schedule) ++
            (thread t_main, UnloadLibrary)
            :: drop 186 (demo_trace ready_device full_schedule)) as Hsplit.
  { symmetry. apply take_drop_middle. lazy. reflexivity. }
  split; [exact Hrun|]. split; [exact Hsplit|].
  destruct (library_loaded_around_calls sampler sampler_init sampler_call
              fisher_yates ready_device
              (demo_trace ready_device full_schedule)
              (demo_state ready_device full_schedule)
              (take 185 (demo_trace ready_device full_schedule))
              (drop 186 (demo_trace ready_device full_schedule))
              (thread t_main) UnloadLibrary Hrun Hsplit)
    as [Hloaded Hunloaded].
  split; [exact (Hloaded eq_refl)|].
  destruct (Hunloaded eq_refl) as [_ Hafter]. exact Hafter.
Defined.

Lemma parameters_committed_witness :
  demo_run ready_device (demo_trace ready_device full_schedule)
           (demo_state ready_device full_schedule) /\
  exited (demo_state ready_device full_schedule) = Some 0 /\
  demo_trace ready_device full_schedule =
    take 165 (demo_trace ready_device full_schedule) ++
    (thread t_initFrame, SetParameter hFrame "size" (VUint2 imageSize))
    :: drop 166 (demo_trace ready_device full_schedule) /\
  (thread t_initFrame, CommitParameters hFrame)
    ∈ drop 166 (demo_trace ready_device full_schedule).
Proof.
  pose proof (run_of sampler sampler_init sampler_call fisher_yates
                ready_device full_schedule) as Hrun.
  assert (exited (demo_state ready_device full_schedule) = Some 0)
    as Hex by reflexivity.
  assert (demo_trace ready_device full_schedule =
            take 165 (demo_trace ready_device full_schedule) ++
            (thread t_initFrame,
             SetParameter hFrame "size" (VUint2 imageSize))
            :: drop 166 (demo_trace ready_device full_schedule)) as Hsplit.
  { symmetry. apply take_drop_middle. lazy. reflexivity. }
  split; [exact Hrun|]. split; [exact Hex|]. split; [exact Hsplit|].
  destruct (parameters_committed sampler sampler_init sampler_call
              fisher_yates ready_device
              (demo_trace ready_device full_schedule)
              (demo_state ready_device full_schedule)
              (take 165 (demo_trace ready_device full_schedule))
              (drop 166 (demo_trace ready_device full_schedule))
              (thread t_initFrame)
              (SetParameter hFrame "size" (VUint2 imageSize))
              hFrame "size" Hrun Hex Hsplit eq_refl)
    as [[Hworld _]|Hcommit].
  - discriminate Hworld.
  - exact Hcommit.
Defined.

Lemma world_light_not_committed_witness :
  demo_run ready_device (demo_trace ready_device full_schedule)
           (demo_state ready_device full_schedule) /\
  (thread t_initWorld, SetParameterArray1D hWorld "light" [hLight])
    ∈ demo_trace ready_device full_schedule /\
  forall o,
    o ∈ drop 154 (demo_trace ready_device full_schedule) ->
    commits hWorld o.2 = false.
Proof.
  pose proof (run_of sampler sampler_init sampler_call fisher_yates
                ready_device full_schedule) as Hrun.
  assert (demo_trace ready_device full_schedule =
            take 153 (demo_trace ready_device full_schedule) ++
            (thread t_initWorld,
             SetParameterArray1D hWorld "light" [hLight])
            :: drop 154 (demo_trace ready_device full_schedule)) as Hsplit.
  { symmetry. apply take_drop_middle. lazy. reflexivity. }
  destruct (world_light_not_committed sampler sampler_init sampler_call
              fisher_yates ready_device
              (demo_trace ready_device full_schedule)
              (demo_state ready_device full_schedule) Hrun)
    as [Hset Hafter].
  split; [exact Hrun|]. split; [exact (Hset eq_refl)|].
  destruct (Hafter (take 153 (demo_trace ready_device full_schedule))
              (thread t_initWorld)
              (SetParameterArray1D hWorld "light" [hLight])
              (drop 154 (demo_trace ready_device full_schedule))
              Hsplit eq_refl) as [_ Hnone].
  exact Hnone.
Defined.

Lemma thread_between_spawn_and_join_witness :
  demo_run ready_device (demo_trace ready_device full_schedule)
           (demo_state ready_device full_schedule) /\
  demo_trace ready_device full_schedule =
    take 172 (demo_trace ready_device full_schedule) ++
    (thread t_main, Join t_render)
    :: drop 173 (demo_trace ready_device full_schedule) /\
  (thread t_main, Spawn t_render)
    ∈ take 172 (demo_trace ready_device full_schedule) /\
  forall o,
    o ∈ drop 173 (demo_trace ready_device full_schedule) ->
    o.1 <> thread t_render.
Proof.
  pose proof (run_of sampler sampler_init sampler_call fisher_yates
                ready_device full_schedule) as Hrun.
  assert (demo_trace ready_device full_schedule =
            take 172 (demo_trace ready_device full_schedule) ++
            (thread t_main, Join t_render)
            :: drop 173 (demo_trace ready_device full_schedule)) as Hsplit.
  { symmetry. apply take_drop_middle. lazy. reflexivity. }
  split; [exact Hrun|]. split; [exact Hsplit|].
  destruct (thread_between_spawn_and_join sampler sampler_init sampler_call
              fisher_yates ready_device
              (demo_trace ready_device full_schedule)
              (demo_state ready_device full_schedule)
              (take 172 (demo_trace ready_device full_schedule))
              (drop 173 (demo_trace ready_device full_schedule))
              (thread t_main) (Join t_render) Hrun Hsplit)
    as (_ & _ & _ & Hjoin).
  exact (Hjoin t_render eq_refl).
Defined.

Lemma polling_loop_shape_witness :
  demo_run ready_device (demo_trace ready_device full_schedule)
           (demo_state ready_device full_schedule) /\
  finished (threads (demo_state ready_device full_schedule)
                    t_queryBoundsWait) = true /\
  exists k,
    events_of t_queryBoundsWait (demo_trace ready_device full_schedule) =
      iterations queryBoundsWaitThread k ++ body queryBoundsWaitThread k ++
      [Load (stop queryBoundsWaitThread) true] ++
      after queryBoundsWaitThread /\
    count is_query
      (events_of t_queryBoundsWait (demo_trace ready_device full_schedule))
      = S k /\
    count is_load
      (events_of t_queryBoundsWait (demo_trace ready_device full_schedule))
      = S k.
Proof.
  pose proof (run_of sampler sampler_init sampler_call fisher_yates
                ready_device full_schedule) as Hrun.
  assert (finished (threads (demo_state ready_device full_schedule)
                            t_queryBoundsWait) = true) as Hfin
    by reflexivity.
  split; [exact Hrun|]. split; [exact Hfin|].
  destruct (polling_loop_shape sampler sampler_init sampler_call
              fisher_yates ready_device t_queryBoundsWait
              queryBoundsWaitThread
              (demo_trace ready_device full_schedule)
              (demo_state ready_device full_schedule) Hrun eq_refl)
    as (_ & _ & Hended).
  exact (Hended Hfin).
Defined.

Lemma extension_not_found_reported_witness :
  demo_run ready_device (demo_trace ready_device full_schedule)
           (demo_state ready_device full_schedule) /\
  (forall k, exists names junk,
     device_extensions ready_device k "default" =
       map Some names ++ None :: junk /\
     "ANARI_KHR_CAMERA_PERSPECTIVE"%string ∈ names) /\
  forall t e,
    (thread t, e) ∈ demo_trace ready_device full_schedule ->
    is_stderr e = false.
Proof.
  pose proof (run_of sampler sampler_init sampler_call fisher_yates
                ready_device full_schedule) as Hrun.
  assert (forall k : nat, exists names junk,
            device_extensions ready_device k "default" =
              map Some names ++ None :: junk /\
            "ANARI_KHR_CAMERA_PERSPECTIVE"%string ∈ names) as Hlisted.
  { intros k. exists known_extensions, []. split; [reflexivity|].
    apply list_elem_of_here. }
  split; [exact Hrun|]. split; [exact Hlisted|].
  destruct (extension_not_found_reported sampler sampler_init sampler_call
              fisher_yates ready_device
              (demo_trace ready_device full_schedule)
              (demo_state ready_device full_schedule) Hrun)
    as (_ & Hsilent & _).
  exact (Hsilent Hlisted).
Defined.

Lemma arrays_unmapped_before_use_witness :
  demo_run ready_device (demo_trace ready_device full_schedule)
           (demo_state ready_device full_schedule) /\
  demo_trace ready_device full_schedule =
    take 127 (demo_trace ready_device full_schedule) ++
    (thread t_initWorld,
     SetAndReleaseParameter hGeometry "primitive.index" hIndicesArray)
    :: drop 128 (demo_trace ready_device full_schedule) /\
  exists data,
    (thread t_initWorld, Unmap hIndicesArray data)
      ∈ take 127 (demo_trace ready_device full_schedule).
Proof.
  pose proof (run_of sampler sampler_init sampler_call fisher_yates
                ready_device full_schedule) as Hrun.
  assert (demo_trace ready_device full_schedule =
            take 127 (demo_trace ready_device full_schedule) ++
            (thread t_initWorld,
             SetAndReleaseParameter hGeometry "primitive.index"
               hIndicesArray)
            :: drop 128 (demo_trace ready_device full_schedule)) as Hsplit.
  { symmetry. apply take_drop_middle. lazy. reflexivity. }
  split; [exact Hrun|]. split; [exact Hsplit|].
  destruct (arrays_unmapped_before_use sampler sampler_init sampler_call
              fisher_yates ready_device
              (demo_trace ready_device full_schedule)
              (demo_state ready_device full_schedule)
              (take 127 (demo_trace ready_device full_schedule))
              (drop 128 (demo_trace ready_device full_schedule))
              (thread t_initWorld)
              (SetAndReleaseParameter hGeometry "primitive.index"
                 hIndicesArray) Hrun Hsplit)
    as (_ & _ & _ & Hpassed).
  exact (Hpassed hGeometry "primitive.index"%string hIndicesArray
           eq_refl eq_refl).
Defined.

Lemma frame_mapped_in_order_witness :
  demo_run ready_device (demo_trace ready_device full_schedule)
           (demo_state ready_device full_schedule) /\
  demo_trace ready_device full_schedule =
    take 19 (demo_trace ready_device full_schedule) ++
    (thread t_render, MapFrame hFrame "channel.color")
    :: drop 20 (demo_trace ready_device full_schedule) /\
  last_frame_op (map snd (take 19 (demo_trace ready_device full_schedule)))
    = Some op_wait /\
  frame_order (map snd (take 19 (demo_trace ready_device full_schedule)))
    (MapFrame hFrame "channel.color") = true.
Proof.
  pose proof (run_of sampler sampler_init sampler_call fisher_yates
                ready_device full_schedule) as Hrun.
  assert (demo_trace ready_device full_schedule =
            take 19 (demo_trace ready_device full_schedule) ++
            (thread t_render, MapFrame hFrame "channel.color")
            :: drop 20 (demo_trace ready_device full_schedule)) as Hsplit.
  { symmetry. apply take_drop_middle. lazy. reflexivity. }
  split; [exact Hrun|]. split; [exact Hsplit|]. split; [reflexivity|].
  destruct (frame_mapped_in_order sampler sampler_init sampler_call
              fisher_yates ready_device
              (demo_trace ready_device full_schedule)
              (demo_state ready_device full_schedule)
              (take 19 (demo_trace ready_device full_schedule))
              (drop 20 (demo_trace ready_device full_schedule))
              (thread t_render) (MapFrame hFrame "channel.color")
              Hrun Hsplit)
    as (_ & _ & Hord).
  exact Hord.
Defined.

Lemma one_writer_per_object_witness :
  demo_run ready_device (demo_trace ready_device full_schedule)
           (demo_state ready_device full_schedule) /\
  (thread t_initFrame, SetParameter hFrame "size" (VUint2 imageSize))
    ∈ demo_trace ready_device full_schedule /\
  forall a' e',
    (a', e') ∈ demo_trace ready_device full_schedule ->
    writes hFrame e' = true ->
    a' = thread t_initFrame.
Proof.
  pose proof (run_of sampler sampler_init sampler_call fisher_yates
                ready_device full_schedule) as Hrun.
  assert ((thread t_initFrame, SetParameter hFrame "size" (VUint2 imageSize))
            ∈ demo_trace ready_device full_schedule) as Hin.
  { apply (split_elem _ (take 165 (demo_trace ready_device full_schedule))
             (drop 166 (demo_trace ready_device full_schedule))).
    symmetry. apply take_drop_middle. lazy. reflexivity. }
  split; [exact Hrun|]. split; [exact Hin|].
  destruct (one_writer_per_object sampler sampler_init sampler_call
              fisher_yates ready_device
              (demo_trace ready_device full_schedule)
              (demo_state ready_device full_schedule)
              (thread t_initFrame)
              (SetParameter hFrame "size" (VUint2 imageSize))
              hFrame Hrun Hin eq_refl)
    as (_ & _ & _ & _ & _ & _ & Hsame).
  exact Hsame.
Defined.

Lemma render_passes_size_witness :
  "out_0.png"%string <> ""%string /\
  0 <= fb_width (frame_buffer ready_device 0) < 2 ^ 32 /\
  0 <= fb_height (frame_buffer ready_device 0) < 2 ^ 32 /\
  exists w h stride,
    written_images (render ready_device 0 hFrame "out_0.png") =
      [("out_0.png"%string, w, h)] /\
    (w = fb_width (frame_buffer ready_device 0) <->
     fb_width (frame_buffer ready_device 0) < 2 ^ 31) /\
    (stride = 4 * fb_width (frame_buffer ready_device 0) <->
     fb_width (frame_buffer ready_device 0) < 2 ^ 29).
Proof.
  assert ("out_0.png"%string <> ""%string) as Hname by discriminate.
  assert (0 <= fb_width (frame_buffer ready_device 0) < 2 ^ 32) as Hw
    by (split; [discriminate|reflexivity]).
  assert (0 <= fb_height (frame_buffer ready_device 0) < 2 ^ 32) as Hh
    by (split; [discriminate|reflexivity]).
  split; [exact Hname|]. split; [exact Hw|]. split; [exact Hh|].
  destruct (render_passes_size ready_device 0 hFrame "out_0.png"
              Hname Hw Hh)
    as (_ & _ & w & h & stride & Himg & _ & Hwe & _ & Hse & _).
  exists w, h, stride.
  split; [exact Himg|]. split; [exact Hwe|exact Hse].
Defined.

Lemma stdout_of_complete_run_witness :
  demo_run ready_device (demo_trace ready_device full_schedule)
           (demo_state ready_device full_schedule) /\
  exited (demo_state ready_device full_schedule) = Some 0 /\
  count is_stdout (map snd (demo_trace ready_device full_schedule))
    = 28%nat.
Proof.
  pose proof (run_of sampler sampler_init sampler_call fisher_yates
                ready_device full_schedule) as Hrun.
  assert (exited (demo_state ready_device full_schedule) = Some 0)
    as Hex by reflexivity.
  split; [exact Hrun|]. split; [exact Hex|].
  destruct (stdout_of_complete_run sampler sampler_init sampler_call
              fisher_yates ready_device
              (demo_trace ready_device full_schedule)
              (demo_state ready_device full_schedule) Hrun Hex)
    as (Hlines & _).
  exact Hlines.
Defined.
